(** * Lead enrichment worker: a shallow embedding and its properties

    The worker (enrichment-worker/) discovers sources for a business with a
    web search (brave_search.py), scrapes the candidate pages for contact
    strings (scraper.py), canonicalises and scores them (normalizer.py) and
    drives a batch of businesses while tracking a job row (main.py).

    Conventions of the embedding.
    - A Python [str] is a [string] of 7-bit ASCII characters; [lower],
      [strip] and the character class [\d] are the ASCII ones.
    - A Python [float] is a binary64 [float] of the kernel, with the
      kernel's IEEE 754 addition and comparison.
    - Calls into third-party libraries (httpx, BeautifulSoup, re, urlparse,
      phonenumbers, email_validator, supabase) are Section variables: what
      the library returned, or which exception it raised.
    - A Python [set] that is listed ([list(s)]) is the list of its distinct
      elements pushed through an enumeration function, because the order in
      which CPython lists a set of strings is not fixed by the program. *)

From Stdlib Require Import Bool Arith Lia List String Ascii ZArith.
From Stdlib Require Import QArith Qminmax Floats Uint63.
Import ListNotations.

Close Scope Q_scope.

Set Warnings "-inexact-float".
Set Implicit Arguments.

Local Open Scope string_scope.
Local Open Scope list_scope.

(** ** Python strings *)

Module Str.

(** [bool(s)] of a string: the empty string is falsy. *)
Definition truthy (s : string) : bool :=
  match s with EmptyString => false | String _ _ => true end.

(** [s.startswith(p)]. *)
Fixpoint startswith (p s : string) : bool :=
  match p, s with
  | EmptyString, _ => true
  | String _ _, EmptyString => false
  | String a p', String b s' => Ascii.eqb a b && startswith p' s'
  end.

(** [needle in s]: some suffix of [s] starts with [needle]. *)
Fixpoint contains (needle s : string) : bool :=
  startswith needle s
  || match s with
     | EmptyString => false
     | String _ s' => contains needle s'
     end.

(** [c in s] for a single character. *)
Fixpoint has_char (c : ascii) (s : string) : bool :=
  match s with
  | EmptyString => false
  | String b s' => Ascii.eqb c b || has_char c s'
  end.

Definition code (c : ascii) : nat := nat_of_ascii c.

Definition between (lo hi : nat) (c : ascii) : bool :=
  Nat.leb lo (code c) && Nat.leb (code c) hi.

Definition is_upper (c : ascii) : bool := between 65 90 c.

Definition is_digit (c : ascii) : bool := between 48 57 c.

(** The ASCII characters for which [str.isspace] holds: tab, line feed,
    vertical tab, form feed, carriage return, the four separators 0x1c-0x1f
    and the space. *)
Definition is_space (c : ascii) : bool :=
  between 9 13 c || between 28 31 c || between 32 32 c.

Definition lower_char (c : ascii) : ascii :=
  if is_upper c then ascii_of_nat (code c + 32) else c.

(** [s.lower()]. *)
Fixpoint lower (s : string) : string :=
  match s with
  | EmptyString => EmptyString
  | String c s' => String (lower_char c) (lower s')
  end.

Fixpoint lstrip (s : string) : string :=
  match s with
  | EmptyString => EmptyString
  | String c s' => if is_space c then lstrip s' else s
  end.

Fixpoint rstrip (s : string) : string :=
  match s with
  | EmptyString => EmptyString
  | String c s' =>
      match rstrip s' with
      | EmptyString => if is_space c then EmptyString else String c EmptyString
      | r => String c r
      end
  end.

(** [s.strip()]. *)
Definition strip (s : string) : string := rstrip (lstrip s).

(** [s.replace(old, "")] for a non-empty [old]: occurrences are removed
    left to right and do not overlap; [skip] counts the characters of the
    occurrence that is being dropped. *)
Fixpoint remove_from (old : string) (skip : nat) (s : string) : string :=
  match s with
  | EmptyString => EmptyString
  | String c s' =>
      match skip with
      | S k => remove_from old k s'
      | O =>
          if startswith old s
          then remove_from old (String.length old - 1) s'
          else String c (remove_from old 0 s')
      end
  end.

Definition remove_all (old s : string) : string := remove_from old 0 s.

(** [s.split(sep)[0]] for a one-character separator. *)
Fixpoint before_first (sep : ascii) (s : string) : string :=
  match s with
  | EmptyString => EmptyString
  | String c s' => if Ascii.eqb c sep then EmptyString else String c (before_first sep s')
  end.

(** [s.split(sep)[-1]] for a one-character separator. *)
Fixpoint after_last (sep : ascii) (s : string) : string :=
  match s with
  | EmptyString => EmptyString
  | String c s' =>
      if has_char sep s' then after_last sep s'
      else if Ascii.eqb c sep then s' else s
  end.

(** [x in S] for a set of strings written as a literal. *)
Definition mem (x : string) (S : list string) : bool :=
  existsb (String.eqb x) S.

(** [s[:n]] on lists is [firstn n s]. *)

Example strip_noise : strip "  011 4567 " = "011 4567".
Proof. reflexivity. Qed.

Example remove_all_dashes : remove_all "-" "011-4567-8900" = "01145678900".
Proof. reflexivity. Qed.

Example remove_all_word : remove_all "mailto:" "mailto:a@b.io" = "a@b.io".
Proof. reflexivity. Qed.

Example after_last_at : after_last "@" "info@Sentry.IO" = "Sentry.IO".
Proof. reflexivity. Qed.

Example after_last_none : after_last "@" "acme" = "acme".
Proof. reflexivity. Qed.

Example before_first_query : before_first "?" "a@b.io?subject=hi" = "a@b.io".
Proof. reflexivity. Qed.

Lemma mem_In (x : string) (S : list string) : mem x S = true <-> In x S.
Proof.
  unfold mem. rewrite existsb_exists. split.
  - intros [y [Hy Heq]]. apply String.eqb_eq in Heq. now subst.
  - intros Hx. exists x. split; [assumption | apply String.eqb_refl].
Qed.

End Str.

(** ** Python control flow: a call returns or raises *)

Module Py.

(** The exception classes the worker distinguishes.  [Exception_] stands for
    any other subclass of [Exception]; [BaseException_] for what
    [except Exception] lets through (cancellation, interrupts). *)
Inductive exn : Type :=
| NumberParseException
| EmailNotValidError
| Exception_ (message : string)
| BaseException_ (message : string).

Inductive outcome (A : Type) : Type :=
| Ret (a : A)
| Raise (e : exn).

Arguments Ret {A} a.
Arguments Raise {A} e.

Definition bind {A B : Type} (m : outcome A) (k : A -> outcome B) : outcome B :=
  match m with
  | Ret a => k a
  | Raise e => Raise e
  end.

(** [try: body / except <class>: handler], the class given as a test. *)
Definition try_except {A : Type} (body : outcome A) (caught : exn -> bool)
    (handler : exn -> outcome A) : outcome A :=
  match body with
  | Ret a => Ret a
  | Raise e => if caught e then handler e else Raise e
  end.

Definition is_NumberParseException (e : exn) : bool :=
  match e with NumberParseException => true | _ => false end.

Definition is_EmailNotValidError (e : exn) : bool :=
  match e with EmailNotValidError => true | _ => false end.

(** [except Exception] catches every class but the [BaseException]-only ones. *)
Definition is_Exception (e : exn) : bool :=
  match e with BaseException_ _ => false | _ => true end.

Definition returns {A : Type} (m : outcome A) : bool :=
  match m with Ret _ => true | Raise _ => false end.

End Py.

Notation "x <- m ;; k" := (Py.bind m (fun x => k))
  (at level 61, m at next level, right associativity).

(** ** normalizer.py *)

Module Normalizer.
Import Py.

(** *** normalize_phone, normalize_email, normalize_whatsapp *)

Section Normalize.

(** phonenumbers: the parsed number and the three calls made on it. *)
Variable PhoneNumber : Type.
Variable phonenumbers_parse : string -> string -> outcome PhoneNumber.
Variable is_valid_number : PhoneNumber -> outcome bool.
Variable format_number_E164 : PhoneNumber -> outcome string.

(** email_validator: [validate_email(s, check_deliverability=False)] and
    the [normalized] attribute of its result. *)
Variable validate_email : string -> outcome string.

Definition normalize_phone (raw default_region : string) : outcome (string * bool) :=
  let cleaned :=
    Str.remove_all "." (Str.remove_all "-" (Str.remove_all " " (Str.strip raw))) in
  try_except
    (parsed <- phonenumbers_parse cleaned default_region ;;
     is_valid <- is_valid_number parsed ;;
     normalized <- format_number_E164 parsed ;;
     Ret (normalized, is_valid))
    is_NumberParseException
    (fun _ => Ret (Str.strip raw, false)).

Definition normalize_email (raw : string) : outcome (string * bool) :=
  try_except
    (normalized <- validate_email (Str.strip raw) ;;
     Ret (normalized, true))
    is_EmailNotValidError
    (fun _ => Ret (Str.lower (Str.strip raw), false)).

Definition normalize_whatsapp (raw default_region : string) : outcome (string * bool) :=
  normalize_phone raw default_region.

(** The documented interface of the two libraries: on a [str] argument
    the phonenumbers calls raise nothing but [NumberParseException], and
    [validate_email] nothing but [EmailNotValidError]. *)
Definition raises_only {A : Type} (cls : exn -> bool) (m : outcome A) : Prop :=
  forall e, m = Raise e -> cls e = true.

Definition phonenumbers_contract : Prop :=
  (forall s r, raises_only is_NumberParseException (phonenumbers_parse s r))
  /\ (forall n, raises_only is_NumberParseException (is_valid_number n))
  /\ (forall n, raises_only is_NumberParseException (format_number_E164 n)).

Definition email_validator_contract : Prop :=
  forall s, raises_only is_EmailNotValidError (validate_email s).

Lemma try_except_returns {A : Type} (body : outcome A) cls (h : exn -> outcome A) :
  raises_only cls body ->
  (forall e, returns (h e) = true) ->
  returns (try_except body cls h) = true.
Proof.
  intros Hbody Hh. destruct body as [a | e]; simpl.
  - reflexivity.
  - rewrite (Hbody e eq_refl). apply Hh.
Qed.

Lemma bind_raises_only {A B : Type} cls (m : outcome A) (k : A -> outcome B) :
  raises_only cls m ->
  (forall a, raises_only cls (k a)) ->
  raises_only cls (bind m k).
Proof.
  intros Hm Hk e. destruct m as [a | e']; simpl.
  - exact (Hk a e).
  - intros He. inversion He; subst. exact (Hm e eq_refl).
Qed.

Lemma ret_raises_only {A : Type} cls (a : A) : raises_only cls (Ret a).
Proof. intros e He. discriminate He. Qed.

Lemma normalize_phone_returns raw region :
  phonenumbers_contract -> returns (normalize_phone raw region) = true.
Proof.
  intros [Hparse [Hvalid Hformat]]. unfold normalize_phone.
  apply try_except_returns; [| reflexivity].
  apply bind_raises_only; [apply Hparse | intros parsed].
  apply bind_raises_only; [apply Hvalid | intros v].
  apply bind_raises_only; [apply Hformat | intros n].
  apply ret_raises_only.
Qed.

Lemma normalize_email_returns raw :
  email_validator_contract -> returns (normalize_email raw) = true.
Proof.
  intros Hv. unfold normalize_email.
  apply try_except_returns; [| reflexivity].
  apply bind_raises_only; [apply Hv | intros n; apply ret_raises_only].
Qed.

Lemma normalize_phone_parse_failure raw region :
  phonenumbers_parse
    (Str.remove_all "." (Str.remove_all "-" (Str.remove_all " " (Str.strip raw))))
    region = Raise NumberParseException ->
  normalize_phone raw region = Ret (Str.strip raw, false).
Proof. intros Hfail. unfold normalize_phone. rewrite Hfail. reflexivity. Qed.

Lemma normalize_email_validation_failure raw :
  validate_email (Str.strip raw) = Raise EmailNotValidError ->
  normalize_email raw = Ret (Str.lower (Str.strip raw), false).
Proof. intros Hfail. unfold normalize_email. rewrite Hfail. reflexivity. Qed.

(** What the handlers do not absorb: an exception of another class leaves
    [normalize_phone] as it came. *)
Lemma normalize_phone_propagates raw region e :
  phonenumbers_parse
    (Str.remove_all "." (Str.remove_all "-" (Str.remove_all " " (Str.strip raw))))
    region = Raise e ->
  is_NumberParseException e = false ->
  normalize_phone raw region = Raise e.
Proof.
  intros Hfail Hcls. unfold normalize_phone. rewrite Hfail. simpl.
  now rewrite Hcls.
Qed.

(** C7. Under the libraries' documented interface, [normalize_phone] and
    [normalize_email] return a (string, boolean) pair for every input
    string and never raise; when parsing the cleaned phone string fails,
    the pair is the trimmed raw string with [false]; when email
    validation fails, it is the lowercased trimmed raw string with
    [false]. *)
Theorem normalize_never_raises :
  phonenumbers_contract ->
  email_validator_contract ->
  forall raw_phone region raw_email : string,
    (exists (value : string) (is_valid : bool),
        normalize_phone raw_phone region = Ret (value, is_valid))
    /\ (exists (value : string) (is_valid : bool),
        normalize_email raw_email = Ret (value, is_valid))
    /\ (returns
          (phonenumbers_parse
             (Str.remove_all "." (Str.remove_all "-"
                (Str.remove_all " " (Str.strip raw_phone)))) region) = false ->
        normalize_phone raw_phone region = Ret (Str.strip raw_phone, false))
    /\ (returns (validate_email (Str.strip raw_email)) = false ->
        normalize_email raw_email
        = Ret (Str.lower (Str.strip raw_email), false)).
Proof.
  intros Hphone Hemail raw region raw_email.
  pose proof (normalize_phone_returns raw region Hphone) as Hp.
  pose proof (normalize_email_returns raw_email Hemail) as He.
  repeat split.
  - destruct (normalize_phone raw region) as [[v b] | e]; [eauto | discriminate Hp].
  - destruct (normalize_email raw_email) as [[v b] | e]; [eauto | discriminate He].
  - intros Hfail. destruct Hphone as [Hparse _].
    remember (phonenumbers_parse _ region) as r eqn:Hr.
    destruct r as [n | e]; [discriminate Hfail |].
    symmetry in Hr. pose proof (Hparse _ _ e Hr) as Hcls.
    destruct e; try discriminate Hcls.
    now apply normalize_phone_parse_failure.
  - intros Hfail.
    remember (validate_email (Str.strip raw_email)) as r eqn:Hr.
    destruct r as [n | e]; [discriminate Hfail |].
    symmetry in Hr. pose proof (Hemail _ e Hr) as Hcls.
    destruct e; try discriminate Hcls.
    now apply normalize_email_validation_failure.
Qed.

End Normalize.

(** A stand-in for the two libraries, for running the definitions: a phone
    number parses when its cleaned form is not empty and is valid when it
    has at least ten characters; an address validates when it has an [@]. *)
Definition toy_parse (s region : string) : outcome string :=
  if Str.truthy s then Ret s else Raise NumberParseException.

Definition toy_is_valid (n : string) : outcome bool :=
  Ret (Nat.leb 10 (String.length n)).

Definition toy_format (n : string) : outcome string := Ret (String.append "+54" n).

Definition toy_validate (s : string) : outcome string :=
  if Str.has_char "@" s then Ret s else Raise EmailNotValidError.

Lemma toy_phonenumbers_contract :
  phonenumbers_contract toy_parse toy_is_valid toy_format.
Proof.
  split; [| split].
  - intros s r e He. unfold toy_parse in He.
    destruct (Str.truthy s); inversion He; reflexivity.
  - intros n e He. discriminate He.
  - intros n e He. discriminate He.
Defined.

Lemma toy_email_validator_contract : email_validator_contract toy_validate.
Proof.
  intros s e He. unfold toy_validate in He.
  destruct (Str.has_char "@" s); inversion He; reflexivity.
Defined.

Lemma normalize_never_raises_witness :
  (exists (value : string) (is_valid : bool),
      normalize_phone toy_parse toy_is_valid toy_format " - " "AR"
      = Ret (value, is_valid))
  /\ (exists (value : string) (is_valid : bool),
      normalize_email toy_validate " Not-An-Email " = Ret (value, is_valid))
  /\ (returns (toy_parse
         (Str.remove_all "." (Str.remove_all "-"
            (Str.remove_all " " (Str.strip " - ")))) "AR") = false ->
      normalize_phone toy_parse toy_is_valid toy_format " - " "AR"
      = Ret (Str.strip " - ", false))
  /\ (returns (toy_validate (Str.strip " Not-An-Email ")) = false ->
      normalize_email toy_validate " Not-An-Email "
      = Ret (Str.lower (Str.strip " Not-An-Email "), false)).
Proof.
  exact (normalize_never_raises toy_phonenumbers_contract
           toy_email_validator_contract " - " "AR" " Not-An-Email ").
Defined.

Example normalize_phone_toy_ok :
  normalize_phone toy_parse toy_is_valid toy_format "011-4567-8900" "AR"
  = Ret ("+5401145678900", true).
Proof. reflexivity. Qed.

Example normalize_phone_toy_failure :
  normalize_phone toy_parse toy_is_valid toy_format " - " "AR" = Ret ("-", false).
Proof. reflexivity. Qed.

Example normalize_email_toy_failure :
  normalize_email toy_validate " Not-An-Email " = Ret ("not-an-email", false).
Proof. reflexivity. Qed.

(** *** compute_confidence *)

(** [min(a, b)] of Python: the second argument only when it is smaller. *)
Definition py_min (a b : float) : float :=
  if PrimFloat.ltb b a then b else a.

Definition explicit_link (source : string) : bool :=
  Str.truthy source
  && (Str.contains "mailto:" source || Str.contains "tel:" source).

Definition whatsapp_link (source : string) : bool :=
  Str.truthy source && Str.contains "wa.me" source.

Definition compute_confidence (contact_type : string) (is_valid : bool)
    (source : string) : float :=
  let base := 0.5%float in
  let base := if is_valid then (base + 0.3)%float else base in
  let base := if explicit_link source then (base + 0.1)%float else base in
  let base := if whatsapp_link source then (base + 0.1)%float else base in
  py_min base 1.0%float.

(** The score as the specification words it, in exact rational arithmetic. *)
Definition score_spec (is_valid explicit whatsapp : bool) : Q :=
  Qmin
    ((5 # 10)
     + (if is_valid then 3 # 10 else 0)
     + (if explicit then 1 # 10 else 0)
     + (if whatsapp then 1 # 10 else 0))%Q
    1%Q.

(** The binary64 number nearest to a rational with small numerator and
    denominator: both convert exactly, and the division rounds once.  It is
    the number a decimal literal such as [0.9] denotes. *)
Definition binary64_of_Q (q : Q) : float :=
  (PrimFloat.of_uint63 (Uint63.of_Z (Qnum q))
   / PrimFloat.of_uint63 (Uint63.of_Z (Zpos (Qden q))))%float.

Definition in_unit_interval (x : float) : bool :=
  PrimFloat.leb 0%float x && PrimFloat.leb x 1%float.

Example nine_tenths : binary64_of_Q (9 # 10) = 0.9%float.
Proof. reflexivity. Qed.

Example confidence_valid_tel :
  compute_confidence "phone" true "tel:+541145678900" = 0.9%float.
Proof. reflexivity. Qed.

Example confidence_all_bonuses :
  compute_confidence "whatsapp" true "tel:+54911 https://wa.me/54911" = 1.0%float.
Proof. reflexivity. Qed.

Example confidence_page_url :
  compute_confidence "email" false "https://acme.com.ar/contacto" = 0.5%float.
Proof. reflexivity. Qed.

(** The score depends on the source only through the two link tests, and
    not at all on the contact type. *)
Lemma compute_confidence_cases contact_type is_valid source :
  compute_confidence contact_type is_valid source
  = binary64_of_Q
      (score_spec is_valid (explicit_link source) (whatsapp_link source)).
Proof.
  unfold compute_confidence.
  destruct is_valid, (explicit_link source), (whatsapp_link source);
    vm_compute; reflexivity.
Qed.

Lemma explicit_link_not_empty source :
  Str.contains "mailto:" source || Str.contains "tel:" source = true ->
  Str.truthy source = true.
Proof. destruct source; [discriminate | reflexivity]. Qed.

(** C2. [compute_confidence] is the binary64 value of 0.5, plus 0.3 for a
    valid contact, plus 0.1 for a source with a [mailto:] or [tel:] link,
    plus 0.1 for a [wa.me] source, capped at 1.0; it lies in [0, 1]; and a
    valid contact whose source has [mailto:] or [tel:] and no [wa.me]
    scores exactly 0.9. *)
Theorem compute_confidence_spec (contact_type : string) (is_valid : bool)
    (source : string) :
  compute_confidence contact_type is_valid source
  = binary64_of_Q
      (score_spec is_valid
         (Str.truthy source
          && (Str.contains "mailto:" source || Str.contains "tel:" source))
         (Str.truthy source && Str.contains "wa.me" source))
  /\ in_unit_interval (compute_confidence contact_type is_valid source) = true
  /\ (is_valid = true ->
      Str.contains "mailto:" source || Str.contains "tel:" source = true ->
      Str.contains "wa.me" source = false ->
      compute_confidence contact_type is_valid source = 0.9%float).
Proof.
  split; [apply compute_confidence_cases |]. split.
  - rewrite compute_confidence_cases.
    destruct is_valid, (explicit_link source), (whatsapp_link source);
      vm_compute; reflexivity.
  - intros Hvalid Hlink Hwa. rewrite compute_confidence_cases.
    unfold explicit_link, whatsapp_link.
    rewrite (explicit_link_not_empty source Hlink), Hlink, Hwa, Hvalid.
    vm_compute. reflexivity.
Qed.

Lemma compute_confidence_spec_witness :
  compute_confidence "email" true "mailto:ventas@acme.com.ar"
  = binary64_of_Q
      (score_spec true
         (Str.truthy "mailto:ventas@acme.com.ar"
          && (Str.contains "mailto:" "mailto:ventas@acme.com.ar"
              || Str.contains "tel:" "mailto:ventas@acme.com.ar"))
         (Str.truthy "mailto:ventas@acme.com.ar"
          && Str.contains "wa.me" "mailto:ventas@acme.com.ar"))
  /\ in_unit_interval
       (compute_confidence "email" true "mailto:ventas@acme.com.ar") = true
  /\ compute_confidence "email" true "mailto:ventas@acme.com.ar" = 0.9%float.
Proof.
  destruct (compute_confidence_spec "email" true "mailto:ventas@acme.com.ar")
    as [Hspec [Hunit Hnine]].
  split; [exact Hspec |]. split; [exact Hunit |].
  apply Hnine; reflexivity.
Defined.

(** The score never falls under its base. *)
Lemma compute_confidence_at_least_base contact_type is_valid source :
  PrimFloat.leb 0.5%float (compute_confidence contact_type is_valid source) = true.
Proof.
  rewrite compute_confidence_cases.
  destruct is_valid, (explicit_link source), (whatsapp_link source);
    vm_compute; reflexivity.
Qed.

(** *** More on normalize_phone *)

(** The characters the three [replace] calls delete. *)
Definition separator (c : ascii) : bool :=
  Ascii.eqb c " " || Ascii.eqb c "-" || Ascii.eqb c ".".

Fixpoint without (drop : ascii -> bool) (s : string) : string :=
  match s with
  | EmptyString => EmptyString
  | String c s' => if drop c then without drop s' else String c (without drop s')
  end.

(** The string handed to [phonenumbers.parse]. *)
Definition cleaned (raw : string) : string :=
  Str.remove_all "." (Str.remove_all "-" (Str.remove_all " " (Str.strip raw))).

Lemma remove_all_char (c : ascii) (s : string) :
  Str.remove_all (String c EmptyString) s = without (Ascii.eqb c) s.
Proof.
  unfold Str.remove_all. induction s as [| a s IH]; [reflexivity |].
  cbn [Str.remove_from Str.startswith String.length Nat.sub without].
  destruct (Ascii.eqb c a); cbn [andb].
  - destruct s; exact IH.
  - now rewrite IH.
Qed.

Lemma without_without (f g : ascii -> bool) (s : string) :
  without g (without f s) = without (fun c => f c || g c) s.
Proof.
  induction s as [| a s IH]; [reflexivity |]. simpl.
  destruct (f a); simpl; [exact IH |].
  destruct (g a); simpl; [exact IH | now rewrite IH].
Qed.

Lemma without_ext (f g : ascii -> bool) (s : string) :
  (forall c, f c = g c) -> without f s = without g s.
Proof.
  intros Hfg. induction s as [| a s IH]; [reflexivity |]. simpl.
  now rewrite Hfg, IH.
Qed.

Lemma cleaned_without raw : cleaned raw = without separator (Str.strip raw).
Proof.
  unfold cleaned. rewrite !remove_all_char, !without_without.
  apply without_ext. intros c. unfold separator.
  rewrite (Ascii.eqb_sym c " "), (Ascii.eqb_sym c "-"), (Ascii.eqb_sym c ".").
  now rewrite orb_assoc.
Qed.

Lemma without_none (f : ascii -> bool) (s : string) (c : ascii) :
  f c = true -> Str.has_char c (without f s) = false.
Proof.
  intros Hc. induction s as [| a s IH]; [reflexivity |]. simpl.
  destruct (f a) eqn:Ha; [exact IH |]. simpl. rewrite IH.
  destruct (Ascii.eqb c a) eqn:Heq; [| reflexivity].
  apply Ascii.eqb_eq in Heq. congruence.
Qed.

Section MoreNormalize.

Variable PhoneNumber : Type.
Variable phonenumbers_parse : string -> string -> outcome PhoneNumber.
Variable is_valid_number : PhoneNumber -> outcome bool.
Variable format_number_E164 : PhoneNumber -> outcome string.

(** X1. The number [normalize_phone] parses is the trimmed input with
    every space, dash and dot deleted and nothing else changed; so two
    inputs that differ only in such separators get the same result, unless
    parsing fails, when each gets its own trimmed input back. *)
Theorem normalize_phone_ignores_separators (raw1 raw2 region : string) :
  without separator (Str.strip raw1) = without separator (Str.strip raw2) ->
  cleaned raw1 = without separator (Str.strip raw1)
  /\ Str.has_char " " (cleaned raw1) = false
  /\ Str.has_char "-" (cleaned raw1) = false
  /\ Str.has_char "." (cleaned raw1) = false
  /\ (normalize_phone phonenumbers_parse is_valid_number format_number_E164
        raw1 region
      = normalize_phone phonenumbers_parse is_valid_number format_number_E164
          raw2 region
      \/ (normalize_phone phonenumbers_parse is_valid_number format_number_E164
            raw1 region = Ret (Str.strip raw1, false)
          /\ normalize_phone phonenumbers_parse is_valid_number
               format_number_E164 raw2 region = Ret (Str.strip raw2, false))).
Proof.
  intros Hsame. split; [apply cleaned_without |].
  rewrite cleaned_without.
  repeat (split; [now apply without_none |]).
  unfold normalize_phone. fold (cleaned raw1). fold (cleaned raw2).
  rewrite !cleaned_without, <- Hsame.
  destruct (bind (phonenumbers_parse _ region) _) as [[v b] | e]; simpl.
  - now left.
  - destruct (is_NumberParseException e); [right | left]; now split.
Qed.

End MoreNormalize.

Lemma normalize_phone_ignores_separators_witness :
  normalize_phone toy_parse toy_is_valid toy_format "011-4567-8900" "AR"
  = normalize_phone toy_parse toy_is_valid toy_format " 011 4567.8900 " "AR"
  /\ cleaned " 011 4567.8900 " = "01145678900".
Proof.
  destruct (@normalize_phone_ignores_separators string toy_parse toy_is_valid
              toy_format "011-4567-8900" " 011 4567.8900 " "AR" eq_refl)
    as [_ [_ [_ [_ [Hsame | [Hfail _]]]]]].
  - split; [exact Hsame | reflexivity].
  - discriminate Hfail.
Defined.

(** *** More on compute_confidence *)

(** X2. The contact type has no part in the score, and validity outweighs
    provenance: every valid contact scores strictly more than every invalid
    one, whatever the two sources are. *)
Theorem valid_outscores_invalid (type1 type2 source1 source2 : string)
    (is_valid : bool) :
  compute_confidence type1 is_valid source1
  = compute_confidence type2 is_valid source1
  /\ PrimFloat.ltb (compute_confidence type1 false source1)
       (compute_confidence type2 true source2) = true
  /\ PrimFloat.leb (compute_confidence type1 false source1) 0.7%float = true
  /\ PrimFloat.leb 0.8%float (compute_confidence type2 true source2) = true.
Proof.
  split; [reflexivity |].
  rewrite !compute_confidence_cases.
  destruct (explicit_link source1), (whatsapp_link source1),
    (explicit_link source2), (whatsapp_link source2);
    vm_compute; repeat split.
Qed.

End Normalizer.

(** ** brave_search.py *)

Module BraveSearch.
Import Py.

(** Domains to skip as "business website" (directories, review sites, maps). *)
Definition SKIP_DOMAINS : list string :=
  [ "yelp.com"; "tripadvisor.com"; "tripadvisor.com.ar";
    "google.com"; "google.com.ar"; "maps.google.com";
    "paginasamarillas.com.ar"; "paginasamarillas.com";
    "yellowpages.com"; "wikipedia.org"; "youtube.com";
    "guiaoleo.com.ar"; "restorando.com.ar" ].

(** A dict literal; [.items()] lists it in the order written. *)
Definition SOCIAL_DOMAINS : list (string * string) :=
  [ ("instagram.com", "instagram");
    ("facebook.com", "facebook");
    ("linkedin.com", "linkedin");
    ("twitter.com", "twitter");
    ("x.com", "twitter") ].

(** What [urlparse(url)] followed by [.hostname] gives: a [ValueError], or
    the host name when the URL has one. *)
Inductive parsed_url : Type :=
| ValueError
| Hostname (hostname : option string).

(** One entry of the search results: its ["url"] key may be absent. *)
Record result : Type := { result_url : option string }.

(** [{"type": ..., "url": ...}] *)
Record social : Type := { type : string; url : string }.

(** The dict [search_business] returns. *)
Record found : Type := {
  website : option string;
  social_urls : list social;
  all_urls : list string
}.

(** The decoded payload: ["web"] and, under it, ["results"] may be absent. *)
Record web_section : Type := { results : option (list result) }.
Record payload : Type := { web : option web_section }.

Fixpoint drop (n : nat) (s : string) : string :=
  match n, s with
  | S k, String _ s' => drop k s'
  | _, _ => s
  end.

(** The [for ... in SOCIAL_DOMAINS.items()] loop with its [break]: the type
    of the first entry whose domain occurs in [domain], if any. *)
Fixpoint first_social (items : list (string * string)) (domain : string)
  : option string :=
  match items with
  | [] => None
  | (social_domain, social_type) :: rest =>
      if Str.contains social_domain domain then Some social_type
      else first_social rest domain
  end.

(** [not website] for [website: str | None]. *)
Definition not_website (w : option string) : bool :=
  match w with
  | None => true
  | Some u => negb (Str.truthy u)
  end.

Section Search.

Variable urlparse : string -> parsed_url.

(** The [try] block of [search_business]: the GET request,
    [raise_for_status] and [response.json()], for a query string. *)
Variable brave_get : string -> outcome payload.

Definition _extract_domain (u : string) : string :=
  match urlparse u with
  | ValueError => ""
  | Hostname h =>
      let domain := match h with Some d => d | None => "" end in
      let domain := if Str.startswith "www." domain then drop 4 domain else domain in
      Str.lower domain
  end.

(** The body of [for result in results]. *)
Definition visit (acc : found) (r : result) : found :=
  let u := match result_url r with Some u => u | None => "" end in
  if negb (Str.truthy u) then acc
  else
    let all := all_urls acc ++ [u] in
    let domain := _extract_domain u in
    match first_social SOCIAL_DOMAINS domain with
    | Some social_type =>
        {| website := website acc;
           social_urls := social_urls acc ++ [{| type := social_type; url := u |}];
           all_urls := all |}
    | None =>
        if not_website (website acc) && negb (Str.mem domain SKIP_DOMAINS)
        then {| website := Some u; social_urls := social_urls acc; all_urls := all |}
        else {| website := website acc; social_urls := social_urls acc; all_urls := all |}
    end.

Definition no_results : found :=
  {| website := None; social_urls := []; all_urls := [] |}.

Definition classify_results (rs : list result) : found :=
  fold_left visit rs no_results.

Definition search_business (name locality : string) : outcome found :=
  let query := String.append name (String.append " " locality) in
  match brave_get query with
  | Raise e => if is_Exception e then Ret no_results else Raise e
  | Ret data =>
      let rs :=
        match web data with
        | Some w => match results w with Some rs => rs | None => [] end
        | None => []
        end in
      Ret (classify_results rs)
  end.

(** The non-empty URLs of the results, in result order. *)
Definition urls_of (rs : list result) : list string :=
  filter Str.truthy
    (map (fun r => match result_url r with Some u => u | None => "" end) rs).

Definition social_type_of (u : string) : option string :=
  first_social SOCIAL_DOMAINS (_extract_domain u).

Definition deny_listed (u : string) : bool :=
  Str.mem (_extract_domain u) SKIP_DOMAINS.

(** A website candidate: not social, not deny-listed. *)
Definition website_candidate (u : string) : bool :=
  match social_type_of u with
  | Some _ => false
  | None => negb (deny_listed u)
  end.

Definition social_of (u : string) : list social :=
  match social_type_of u with
  | Some t => [{| type := t; url := u |}]
  | None => []
  end.

(** The results the loop of [search_business] walks over: those of the
    payload, none when a key is absent or the request failed. *)
Definition results_seen (name locality : string) : list result :=
  match brave_get (String.append name (String.append " " locality)) with
  | Ret data =>
      match web data with
      | Some w => match results w with Some rs => rs | None => [] end
      | None => []
      end
  | Raise _ => []
  end.

(** *** The loop in closed form *)

(** The website after more URLs: kept once set, else the first candidate. *)
Definition pick_website (w : option string) (us : list string) : option string :=
  if not_website w
  then match find website_candidate us with Some u => Some u | None => w end
  else w.

Lemma urls_of_cons r rs :
  urls_of (r :: rs)
  = match result_url r with
    | Some u => if Str.truthy u then u :: urls_of rs else urls_of rs
    | None => urls_of rs
    end.
Proof.
  unfold urls_of. simpl. destruct (result_url r) as [u |]; reflexivity.
Qed.

Lemma visit_skip acc r :
  match result_url r with Some u => Str.truthy u | None => false end = false ->
  visit acc r = acc.
Proof.
  unfold visit. destruct (result_url r) as [u |]; [| reflexivity].
  intros ->. reflexivity.
Qed.

Lemma visit_url acc r u :
  result_url r = Some u ->
  Str.truthy u = true ->
  visit acc r
  = match social_type_of u with
    | Some t =>
        {| website := website acc;
           social_urls := social_urls acc ++ [{| type := t; url := u |}];
           all_urls := all_urls acc ++ [u] |}
    | None =>
        {| website :=
             if not_website (website acc) && negb (deny_listed u)
             then Some u else website acc;
           social_urls := social_urls acc;
           all_urls := all_urls acc ++ [u] |}
    end.
Proof.
  intros Hr Hu. unfold visit, social_type_of, deny_listed. rewrite Hr, Hu.
  cbn [negb].
  destruct (first_social SOCIAL_DOMAINS (_extract_domain u)); [reflexivity |].
  now destruct (not_website (website acc) && _).
Qed.

Lemma visit_loop rs : forall acc,
  fold_left visit rs acc
  = {| website := pick_website (website acc) (urls_of rs);
       social_urls := social_urls acc ++ flat_map social_of (urls_of rs);
       all_urls := all_urls acc ++ urls_of rs |}.
Proof.
  induction rs as [| r rs IH]; intros acc.
  - cbn [fold_left urls_of map filter flat_map]. unfold pick_website.
    cbn [find]. rewrite !app_nil_r.
    destruct acc as [w s a]; cbn [website social_urls all_urls].
    now destruct (not_website w).
  - cbn [fold_left]. rewrite IH, urls_of_cons.
    destruct (result_url r) as [u |] eqn:Hr;
      [destruct (Str.truthy u) eqn:Hu |].
    + rewrite (visit_url acc r Hr Hu).
      unfold pick_website, social_of at 2, website_candidate.
      cbn [find flat_map].
      destruct (social_type_of u) as [t |] eqn:Ht;
        cbn [website social_urls all_urls]; rewrite <- ?app_assoc.
      * reflexivity.
      * cbn [app]. destruct (not_website (website acc)) eqn:Hw;
          destruct (deny_listed u); cbn [negb andb not_website];
          rewrite ?Hw, ?Hu; reflexivity.
    + rewrite visit_skip; [reflexivity | now rewrite Hr].
    + rewrite visit_skip; [reflexivity | now rewrite Hr].
Qed.

Lemma classify_results_closed rs :
  classify_results rs
  = {| website := find website_candidate (urls_of rs);
       social_urls := flat_map social_of (urls_of rs);
       all_urls := urls_of rs |}.
Proof.
  unfold classify_results. rewrite visit_loop. unfold pick_website. simpl.
  now destruct (find website_candidate (urls_of rs)).
Qed.

Lemma search_business_returns name locality out :
  search_business name locality = Ret out ->
  out = classify_results (results_seen name locality).
Proof.
  unfold search_business, results_seen.
  destruct (brave_get _) as [data | e].
  - intros H. now inversion H.
  - destruct (is_Exception e); intros H; now inversion H.
Qed.

(** A failure of the request or of the decoding gives the empty result. *)
Lemma search_business_degrades name locality e :
  brave_get (String.append name (String.append " " locality)) = Raise e ->
  is_Exception e = true ->
  search_business name locality = Ret no_results.
Proof.
  intros Hget Hcls. unfold search_business. now rewrite Hget, Hcls.
Qed.

(** *** The two tables *)

(** No entry of [SOCIAL_DOMAINS] is shadowed by an earlier one: a host
    name that is a key gets that key's type. *)
Lemma first_social_key social_domain social_type :
  In (social_domain, social_type) SOCIAL_DOMAINS ->
  first_social SOCIAL_DOMAINS social_domain = Some social_type.
Proof.
  unfold SOCIAL_DOMAINS. simpl.
  intros [H | [H | [H | [H | [H | []]]]]]; inversion H; subst; reflexivity.
Qed.

(** No deny-listed host name contains a social domain. *)
Lemma skip_not_social domain :
  Str.mem domain SKIP_DOMAINS = true ->
  first_social SOCIAL_DOMAINS domain = None.
Proof.
  intros H. apply Str.mem_In in H. unfold SKIP_DOMAINS in H. simpl in H.
  repeat (destruct H as [H | H]; [subst; reflexivity |]).
  contradiction.
Qed.

Lemma find_not_candidate us u :
  website_candidate u = false -> find website_candidate us <> Some u.
Proof.
  intros Hu Hfind. apply find_some in Hfind. destruct Hfind as [_ Hc].
  congruence.
Qed.

Lemma social_entries_of_url us u t :
  social_type_of u = Some t ->
  filter (fun s => String.eqb (url s) u) (flat_map social_of us)
  = repeat {| type := t; url := u |} (count_occ string_dec us u).
Proof.
  intros Ht. induction us as [| v us IH]; [reflexivity |].
  simpl flat_map. rewrite filter_app, IH. simpl count_occ.
  destruct (string_dec v u) as [-> | Hne].
  - unfold social_of. rewrite Ht. simpl. now rewrite String.eqb_refl.
  - unfold social_of. destruct (social_type_of v); simpl; [| reflexivity].
    apply String.eqb_neq in Hne. now rewrite Hne.
Qed.

Lemma social_entry_url us s :
  In s (flat_map social_of us) -> social_type_of (url s) = Some (type s).
Proof.
  intros Hin. apply in_flat_map in Hin. destruct Hin as [v [_ Hs]].
  unfold social_of in Hs. destruct (social_type_of v) eqn:Hv; simpl in Hs.
  - destruct Hs as [<- | []]. simpl. exact Hv.
  - contradiction.
Qed.

(** *** Properties of the classification *)

(** C3. When the extracted host name of a URL is a key of
    [SOCIAL_DOMAINS], the URL is classified with that key's type, the
    entries [search_business] records for the URL are exactly one entry
    of that type per occurrence of the URL in the results, and the URL
    is not the website. *)
Theorem social_domain_is_social (name locality : string) (out : found)
    (u social_domain social_type : string) :
  search_business name locality = Ret out ->
  In (social_domain, social_type) SOCIAL_DOMAINS ->
  _extract_domain u = social_domain ->
  social_type_of u = Some social_type
  /\ filter (fun s => String.eqb (url s) u) (social_urls out)
     = repeat {| type := social_type; url := u |}
         (count_occ string_dec (urls_of (results_seen name locality)) u)
  /\ website out <> Some u.
Proof.
  intros Hout Hkey Hdom.
  apply search_business_returns in Hout. subst out.
  rewrite classify_results_closed. cbn [website social_urls].
  assert (Ht : social_type_of u = Some social_type).
  { unfold social_type_of. rewrite Hdom. now apply first_social_key. }
  split; [exact Ht |]. split.
  - now apply social_entries_of_url.
  - apply find_not_candidate. unfold website_candidate. now rewrite Ht.
Qed.

(** C4. The website is the first non-empty URL, in result order, that is
    neither social nor deny-listed; for the results [deny-listed, social,
    A, B] with A such a URL, it is A. *)
Theorem website_is_first_candidate (name locality : string) (out : found) :
  search_business name locality = Ret out ->
  website out
  = find website_candidate (urls_of (results_seen name locality))
  /\ (forall d s a b t : string,
        results_seen name locality
        = [ {| result_url := Some d |}; {| result_url := Some s |};
            {| result_url := Some a |}; {| result_url := Some b |} ] ->
        deny_listed d = true ->
        social_type_of s = Some t ->
        Str.truthy a = true ->
        website_candidate a = true ->
        website out = Some a).
Proof.
  intros Hout. apply search_business_returns in Hout. subst out.
  rewrite classify_results_closed. cbn [website].
  split; [reflexivity |].
  intros d s a b t Hrs Hd Hs Ha Hca. rewrite Hrs.
  rewrite !urls_of_cons. cbn [result_url]. rewrite Ha.
  assert (Hcd : website_candidate d = false).
  { unfold website_candidate. rewrite Hd. now destruct (social_type_of d). }
  assert (Hcs : website_candidate s = false).
  { unfold website_candidate. now rewrite Hs. }
  destruct (Str.truthy d), (Str.truthy s); cbn [find];
    rewrite ?Hcd, ?Hcs, Hca; reflexivity.
Qed.

(** C5. [all_urls] lists every non-empty result URL in result order, and
    a URL whose extracted host name is in [SKIP_DOMAINS] is neither the
    website nor the URL of an entry of [social_urls]. *)
Theorem deny_listed_only_in_all_urls (name locality : string) (out : found) :
  search_business name locality = Ret out ->
  all_urls out = urls_of (results_seen name locality)
  /\ (forall u : string,
        Str.mem (_extract_domain u) SKIP_DOMAINS = true ->
        website out <> Some u
        /\ (forall s : social, In s (social_urls out) -> url s <> u)
        /\ (In u (urls_of (results_seen name locality)) -> In u (all_urls out))).
Proof.
  intros Hout. apply search_business_returns in Hout. subst out.
  rewrite classify_results_closed. cbn [website social_urls all_urls].
  split; [reflexivity |].
  intros u Hskip. split; [| split].
  - apply find_not_candidate. unfold website_candidate, deny_listed.
    rewrite Hskip. now destruct (social_type_of u).
  - intros s Hs Heq. apply social_entry_url in Hs. rewrite Heq in Hs.
    unfold social_type_of in Hs. rewrite (skip_not_social _ Hskip) in Hs.
    discriminate Hs.
  - trivial.
Qed.

(** *** More on _extract_domain and search_business *)

Lemma lower_char_idem (c : ascii) : Str.lower_char (Str.lower_char c) = Str.lower_char c.
Proof.
  destruct c as [[] [] [] [] [] [] [] []]; reflexivity.
Qed.

Lemma lower_idem (s : string) : Str.lower (Str.lower s) = Str.lower s.
Proof.
  induction s as [| c s IH]; [reflexivity |]. simpl.
  now rewrite lower_char_idem, IH.
Qed.

(** X3. [_extract_domain] always gives a lower-case string; it gives the
    empty string when the URL does not parse or has no host; and it drops
    one leading [www.] of the host. *)
Theorem extract_domain_shape (u : string) :
  Str.lower (_extract_domain u) = _extract_domain u
  /\ (urlparse u = ValueError -> _extract_domain u = "")
  /\ (urlparse u = Hostname None -> _extract_domain u = "")
  /\ (forall d : string,
        urlparse u = Hostname (Some (String.append "www." d)) ->
        _extract_domain u = Str.lower d)
  /\ (forall d : string,
        urlparse u = Hostname (Some d) ->
        Str.startswith "www." d = false ->
        _extract_domain u = Str.lower d).
Proof.
  unfold _extract_domain. repeat split.
  - destruct (urlparse u) as [| [d |]]; [reflexivity | | reflexivity].
    apply lower_idem.
  - now intros ->.
  - now intros ->.
  - intros d ->. reflexivity.
  - intros d -> Hd. now rewrite Hd.
Qed.

(** [f"{name} {locality}"] *)
Definition query (name locality : string) : string :=
  String.append name (String.append " " locality).

(** X4. On a payload of the shape the code reads (["web"] absent or an
    object, ["results"] absent or a list of objects) [search_business]
    never raises an [Exception]: a failure of the request or of the
    decoding gives the empty result, and so does a payload without
    ["web"] or without ["results"]; only an exception that
    [except Exception] does not catch comes out, unchanged. *)
Theorem search_business_degrades_to_empty (name locality : string) :
  (forall e, search_business name locality = Raise e ->
             is_Exception e = false /\ brave_get (query name locality) = Raise e)
  /\ (forall e, brave_get (query name locality) = Raise e ->
                is_Exception e = true ->
                search_business name locality = Ret no_results)
  /\ (brave_get (query name locality) = Ret {| web := None |} ->
      search_business name locality = Ret no_results)
  /\ (brave_get (query name locality)
      = Ret {| web := Some {| results := None |} |} ->
      search_business name locality = Ret no_results)
  /\ (brave_get (query name locality)
      = Ret {| web := Some {| results := Some [] |} |} ->
      search_business name locality = Ret no_results).
Proof.
  unfold search_business, query.
  split; [| split; [| split; [| split]]].
  - intros e. destruct (brave_get _) as [data | e']; [discriminate |].
    destruct (is_Exception e') eqn:Hcls; [discriminate |].
    intros H. inversion H. subst. now split.
  - intros e -> ->. reflexivity.
  - intros ->. reflexivity.
  - intros ->. reflexivity.
  - intros ->. reflexivity.
Qed.

Definition social_types : list string :=
  ["instagram"; "facebook"; "linkedin"; "twitter"].

Lemma first_social_type items domain t :
  first_social items domain = Some t -> In t (map snd items).
Proof.
  induction items as [| [k ty] items IH]; simpl; [discriminate |].
  destruct (Str.contains k domain).
  - intros H. inversion H. now left.
  - intros H. right. now apply IH.
Qed.

Lemma social_type_known u t :
  social_type_of u = Some t -> In t social_types.
Proof.
  intros H. apply first_social_type in H. simpl in H. unfold social_types.
  simpl. tauto.
Qed.

Lemma urls_of_truthy rs u : In u (urls_of rs) -> Str.truthy u = true.
Proof. unfold urls_of. intros H. now apply filter_In in H. Qed.

Lemma urls_of_length rs : List.length (urls_of rs) <= List.length rs.
Proof.
  unfold urls_of. rewrite <- (length_map (fun r => match result_url r with
                                                   | Some u => u
                                                   | None => ""
                                                   end) rs).
  apply filter_length_le.
Qed.

Lemma social_entries_fit us :
  List.length (flat_map social_of us) <= List.length us.
Proof.
  induction us as [| u us IH]; [simpl; lia |].
  cbn [flat_map List.length]. rewrite length_app. unfold social_of at 1.
  destruct (social_type_of u); cbn [List.length]; lia.
Qed.

Lemma sources_fit us :
  List.length (flat_map social_of us)
  + (match find website_candidate us with Some _ => 1 | None => 0 end)
  <= List.length us.
Proof.
  induction us as [| u us IH]; [simpl; lia |].
  cbn [flat_map find List.length]. rewrite length_app.
  unfold social_of at 1, website_candidate at 1.
  destruct (social_type_of u); cbn [List.length].
  - lia.
  - destruct (negb (deny_listed u)); [| lia].
    pose proof (social_entries_fit us) as Hs. lia.
Qed.

(** X5. What [search_business] returns hangs together: the website and
    the URL of every social entry are non-empty members of [all_urls],
    every social type is one of the four known ones, no URL is both the
    website and social, [all_urls] has at most one entry per result, and
    the website and the social entries together are no more than
    [all_urls]. *)
Theorem search_result_is_consistent (name locality : string) (out : found) :
  search_business name locality = Ret out ->
  (forall w, website out = Some w ->
             In w (all_urls out) /\ Str.truthy w = true
             /\ forall s, In s (social_urls out) -> url s <> w)
  /\ (forall s, In s (social_urls out) ->
                In (url s) (all_urls out) /\ In (type s) social_types)
  /\ Forall (fun u => Str.truthy u = true) (all_urls out)
  /\ List.length (all_urls out) <= List.length (results_seen name locality)
  /\ List.length (social_urls out)
     + (match website out with Some _ => 1 | None => 0 end)
     <= List.length (all_urls out).
Proof.
  intros Hout. apply search_business_returns in Hout. subst out.
  rewrite classify_results_closed. cbn [website social_urls all_urls].
  split; [| split; [| split; [| split]]].
  - intros w Hw. pose proof (find_some _ _ Hw) as [Hin Hcand].
    split; [exact Hin |]. split; [now apply urls_of_truthy with (rs := results_seen name locality) |].
    intros s Hs Heq. apply social_entry_url in Hs. rewrite Heq in Hs.
    unfold website_candidate in Hcand. now rewrite Hs in Hcand.
  - intros s Hs. split.
    + apply in_flat_map in Hs. destruct Hs as [v [Hv Hs]].
      unfold social_of in Hs. destruct (social_type_of v); simpl in Hs;
        [destruct Hs as [<- | []]; exact Hv | contradiction].
    + apply social_entry_url in Hs. now apply social_type_known in Hs.
  - apply Forall_forall. intros u Hu. now apply urls_of_truthy in Hu.
  - apply urls_of_length.
  - pose proof (sources_fit (urls_of (results_seen name locality))) as H.
    now destruct (find website_candidate _).
Qed.

Lemma first_social_none items domain :
  first_social items domain = None ->
  forall k t, In (k, t) items -> Str.contains k domain = false.
Proof.
  induction items as [| [k0 t0] items IH]; simpl; [contradiction |].
  destruct (Str.contains k0 domain) eqn:Hk; [discriminate |].
  intros Hnone k t [Heq | Hin]; [inversion Heq; now subst | now apply (IH Hnone k t)].
Qed.

(** X6. The social test is a substring test: a URL whose host merely
    contains a social domain (as [netflix.com] contains [x.com]) is
    recorded as a social profile and is never the website. *)
Theorem host_containing_social_domain (name locality : string) (out : found)
    (u social_domain social_type : string) :
  search_business name locality = Ret out ->
  In (social_domain, social_type) SOCIAL_DOMAINS ->
  Str.contains social_domain (_extract_domain u) = true ->
  (exists t, social_type_of u = Some t /\ In t social_types)
  /\ website_candidate u = false
  /\ website out <> Some u
  /\ (In u (urls_of (results_seen name locality)) ->
      exists s, In s (social_urls out) /\ url s = u).
Proof.
  intros Hout Hkey Hsub.
  assert (Hsome : exists t, social_type_of u = Some t).
  { destruct (social_type_of u) as [t |] eqn:Ht; [now exists t |].
    unfold social_type_of in Ht.
    rewrite (first_social_none _ _ Ht _ _ Hkey) in Hsub. discriminate Hsub. }
  destruct Hsome as [t Ht].
  assert (Hcand : website_candidate u = false).
  { unfold website_candidate. now rewrite Ht. }
  apply search_business_returns in Hout. subst out.
  rewrite classify_results_closed. cbn [website social_urls].
  split; [exists t; split; [exact Ht | now apply social_type_known in Ht] |].
  split; [exact Hcand |]. split; [now apply find_not_candidate |].
  intros Hin. exists {| type := t; url := u |}. split; [| reflexivity].
  apply in_flat_map. exists u. split; [exact Hin |].
  unfold social_of. rewrite Ht. now left.
Qed.

Lemma urls_of_app rs1 rs2 : urls_of (rs1 ++ rs2) = urls_of rs1 ++ urls_of rs2.
Proof. unfold urls_of. now rewrite map_app, filter_app. Qed.

Lemma find_app {A : Type} (f : A -> bool) (l1 l2 : list A) :
  find f (l1 ++ l2)
  = match find f l1 with Some x => Some x | None => find f l2 end.
Proof.
  induction l1 as [| a l1 IH]; [reflexivity |]. simpl.
  now destruct (f a).
Qed.

(** X7. Classification goes result by result: for two lists of results
    one after the other, [all_urls] and [social_urls] are the two parts
    joined, and the website is that of the first part when it has one,
    else that of the second. *)
Theorem classify_results_app (rs1 rs2 : list result) :
  all_urls (classify_results (rs1 ++ rs2))
  = all_urls (classify_results rs1) ++ all_urls (classify_results rs2)
  /\ social_urls (classify_results (rs1 ++ rs2))
     = social_urls (classify_results rs1) ++ social_urls (classify_results rs2)
  /\ website (classify_results (rs1 ++ rs2))
     = match website (classify_results rs1) with
       | Some w => Some w
       | None => website (classify_results rs2)
       end.
Proof.
  rewrite !classify_results_closed. cbn [website social_urls all_urls].
  rewrite urls_of_app, flat_map_app, find_app. repeat split.
Qed.

End Search.

(** A stand-in for [urlparse]: the host name is what stands between ["://"]
    and the next slash.  Enough for plain [https://host/path] URLs. *)
Fixpoint after_scheme (s : string) : option string :=
  match s with
  | EmptyString => None
  | String _ s' =>
      if Str.startswith "://" s then Some (drop 3 s) else after_scheme s'
  end.

Definition toy_urlparse (u : string) : parsed_url :=
  match after_scheme u with
  | Some rest => Hostname (Some (Str.lower (Str.before_first "/" rest)))
  | None => Hostname None
  end.

Definition hit (u : string) : result := {| result_url := Some u |}.

(** A payload in the order deny-listed, social, website A, website B, with
    an entry that has no URL. *)
Definition toy_payload : payload :=
  {| web := Some {| results := Some
       [ hit "https://www.yelp.com/biz/la-farola";
         hit "https://www.instagram.com/lafarola";
         {| result_url := None |};
         hit "https://lafarola.com.ar/";
         hit "https://lafarola-delivery.com.ar/" ] |} |}.

Definition toy_brave_get (query : string) : outcome payload := Ret toy_payload.

Definition toy_found : found :=
  {| website := Some "https://lafarola.com.ar/";
     social_urls :=
       [ {| type := "instagram"; url := "https://www.instagram.com/lafarola" |} ];
     all_urls :=
       [ "https://www.yelp.com/biz/la-farola";
         "https://www.instagram.com/lafarola";
         "https://lafarola.com.ar/";
         "https://lafarola-delivery.com.ar/" ] |}.

Example search_business_toy :
  search_business toy_urlparse toy_brave_get "La Farola" "Belgrano" = Ret toy_found.
Proof. reflexivity. Qed.

Example search_business_failure :
  search_business toy_urlparse (fun _ => Raise (Exception_ "ConnectError"))
    "La Farola" "Belgrano"
  = Ret no_results.
Proof. reflexivity. Qed.

(** The test is a substring test: a host name that merely contains a social
    domain is classified social as well. *)
Example substring_match :
  social_type_of toy_urlparse "https://netflix.com/ar" = Some "twitter".
Proof. reflexivity. Qed.

Lemma social_domain_is_social_witness :
  social_type_of toy_urlparse "https://www.instagram.com/lafarola" = Some "instagram"
  /\ filter (fun s => String.eqb (url s) "https://www.instagram.com/lafarola")
       (social_urls toy_found)
     = repeat {| type := "instagram"; url := "https://www.instagram.com/lafarola" |}
         (count_occ string_dec
            (urls_of (results_seen toy_brave_get "La Farola" "Belgrano"))
            "https://www.instagram.com/lafarola")
  /\ website toy_found <> Some "https://www.instagram.com/lafarola".
Proof.
  apply (@social_domain_is_social toy_urlparse toy_brave_get
           "La Farola" "Belgrano" toy_found
           "https://www.instagram.com/lafarola" "instagram.com" "instagram").
  - reflexivity.
  - simpl. tauto.
  - reflexivity.
Defined.

Definition four_hits : payload :=
  {| web := Some {| results := Some
       [ hit "https://www.tripadvisor.com.ar/Restaurant-la-farola";
         hit "https://facebook.com/lafarola";
         hit "https://lafarola.com.ar/";
         hit "https://lafarola-delivery.com.ar/" ] |} |}.

Lemma website_is_first_candidate_witness :
  exists out : found,
    search_business toy_urlparse (fun _ => Ret four_hits) "La Farola" "Belgrano"
    = Ret out
    /\ website out = Some "https://lafarola.com.ar/".
Proof.
  eexists. split; [reflexivity |].
  refine (proj2 (@website_is_first_candidate toy_urlparse (fun _ => Ret four_hits)
                   "La Farola" "Belgrano" _ eq_refl)
            "https://www.tripadvisor.com.ar/Restaurant-la-farola"
            "https://facebook.com/lafarola"
            "https://lafarola.com.ar/"
            "https://lafarola-delivery.com.ar/"
            "facebook" eq_refl eq_refl eq_refl eq_refl eq_refl).
Defined.

Lemma deny_listed_only_in_all_urls_witness :
  all_urls toy_found
  = urls_of (results_seen toy_brave_get "La Farola" "Belgrano")
  /\ website toy_found <> Some "https://www.yelp.com/biz/la-farola"
  /\ (forall s : social,
        In s (social_urls toy_found) ->
        url s <> "https://www.yelp.com/biz/la-farola")
  /\ In "https://www.yelp.com/biz/la-farola" (all_urls toy_found).
Proof.
  destruct (@deny_listed_only_in_all_urls toy_urlparse toy_brave_get
              "La Farola" "Belgrano" toy_found eq_refl) as [Hall Hskip].
  destruct (Hskip "https://www.yelp.com/biz/la-farola" eq_refl)
    as [Hweb [Hsoc Hin]].
  repeat split; try assumption.
  apply Hin. simpl. tauto.
Defined.

Lemma search_result_is_consistent_witness :
  In "https://lafarola.com.ar/" (all_urls toy_found)
  /\ Str.truthy "https://lafarola.com.ar/" = true
  /\ List.length (all_urls toy_found)
     <= List.length (results_seen toy_brave_get "La Farola" "Belgrano")
  /\ List.length (social_urls toy_found) + 1 <= List.length (all_urls toy_found).
Proof.
  destruct (@search_result_is_consistent toy_urlparse toy_brave_get
              "La Farola" "Belgrano" toy_found eq_refl)
    as [Hweb [_ [_ [Hlen Hfit]]]].
  destruct (Hweb "https://lafarola.com.ar/" eq_refl) as [Hin [Htruthy _]].
  repeat split; assumption.
Defined.

(** A streaming site ahead of the business's own site. *)
Definition netflix_hits : payload :=
  {| web := Some {| results := Some
       [ hit "https://www.netflix.com/ar/title/81040344";
         hit "https://lafarola.com.ar/" ] |} |}.

Definition netflix_found : found :=
  {| website := Some "https://lafarola.com.ar/";
     social_urls :=
       [ {| type := "twitter";
            url := "https://www.netflix.com/ar/title/81040344" |} ];
     all_urls :=
       [ "https://www.netflix.com/ar/title/81040344";
         "https://lafarola.com.ar/" ] |}.

Lemma host_containing_social_domain_witness :
  search_business toy_urlparse (fun _ => Ret netflix_hits) "La Farola" "Belgrano"
  = Ret netflix_found
  /\ website_candidate toy_urlparse "https://www.netflix.com/ar/title/81040344"
     = false
  /\ exists s, In s (social_urls netflix_found)
               /\ url s = "https://www.netflix.com/ar/title/81040344".
Proof.
  destruct (@host_containing_social_domain toy_urlparse
              (fun _ => Ret netflix_hits) "La Farola" "Belgrano" netflix_found
              "https://www.netflix.com/ar/title/81040344" "x.com" "twitter"
              eq_refl)
    as [_ [Hcand [_ Hsocial]]].
  - simpl. tauto.
  - reflexivity.
  - split; [reflexivity |]. split; [exact Hcand |].
    apply Hsocial. simpl. tauto.
Defined.

End BraveSearch.

(** ** scraper.py *)

Module Scraper.
Import Py.

(** Common junk emails to filter. *)
Definition JUNK_EMAIL_DOMAINS : list string :=
  [ "example.com"; "sentry.io"; "wixpress.com"; "w3.org";
    "schema.org"; "googleapis.com"; "googletagmanager.com" ].

Definition _is_junk_email (email : string) : bool :=
  let domain := Str.lower (Str.after_last "@" email) in
  Str.mem domain JUNK_EMAIL_DOMAINS.

(** The dict [scrape_url] returns. *)
Record contacts : Type := {
  emails : list string;
  phones : list string;
  whatsapps : list string
}.

Definition nothing : contacts := {| emails := []; phones := []; whatsapps := [] |}.

(** What [scrape_url] reads of the HTTP response. *)
Record response : Type := {
  status_code : Z;
  content_type : option string;
  text : string
}.

(** What [scrape_url] reads of the parsed document: its visible text
    ([get_text(separator=" ")]) and the [href] of every [a] tag that has
    one, in document order. *)
Record soup : Type := {
  get_text : string;
  hrefs : list string
}.

(** [re.compile(r"^mailto:", re.I)] and [re.compile(r"^tel:", re.I)] as
    attribute filters: a case-insensitive prefix test. *)
Definition starts_ci (prefix s : string) : bool :=
  Str.startswith prefix (Str.lower (substring 0 (String.length prefix) s)).

(** [re.sub(r"[^\d+]", "", s)] *)
Fixpoint digits_and_plus (s : string) : string :=
  match s with
  | EmptyString => EmptyString
  | String c s' =>
      if Str.is_digit c || Ascii.eqb c "+"
      then String c (digits_and_plus s')
      else digits_and_plus s'
  end.

(** The [mailto:] loop: the addresses it adds to [raw_emails]. *)
Definition mailto_emails (hs : list string) : list string :=
  filter (Str.has_char "@")
    (map (fun h => Str.strip (Str.before_first "?" (Str.remove_all "mailto:" h)))
       (filter (starts_ci "mailto:") hs)).

(** Line 79: the listed candidates are cut to five, and the cut is then
    filtered. *)
Definition select_emails (listed_emails : list string) : list string :=
  filter (fun e => negb (_is_junk_email e)) (firstn 5 listed_emails).

(** The [tel:] loop: the members of [tel_phones]. *)
Definition tel_phones (hs : list string) : list string :=
  filter (fun phone => Str.truthy phone && Nat.leb 8 (String.length phone))
    (map (fun h => digits_and_plus (Str.strip (Str.remove_all "tel:" h)))
       (filter (starts_ci "tel:") hs)).

(** The clean-up loop: the members of [cleaned_phones]. *)
Definition cleaned_phones (text_phones : list string) : list string :=
  filter (fun clean => Nat.leb 8 (String.length clean))
    (map digits_and_plus text_phones).

(** [content_type] is an HTML-family type. *)
Definition html_family (content_type : string) : bool :=
  Str.contains "text/html" content_type
  || Str.contains "application/xhtml" content_type.

Fixpoint somes {A : Type} (l : list (option A)) : list A :=
  match l with
  | [] => []
  | Some a :: l' => a :: somes l'
  | None :: l' => somes l'
  end.

(** *** The phone pattern *)

(** The fragment of regular expressions [PHONE_REGEX_AR] is written in. *)
Inductive regex : Type :=
| Lit (c : ascii)
| Digit
| Space
| OneOf (chars : string)
| Cat (r1 r2 : regex)
| Opt (r : regex).

(** The ways of cutting a string in two. *)
Fixpoint splits (s : string) : list (string * string) :=
  (EmptyString, s)
  :: match s with
     | EmptyString => []
     | String c s' => map (fun xy => (String c (fst xy), snd xy)) (splits s')
     end.

(** The whole of [s] matches [r]. *)
Fixpoint fullmatch (r : regex) (s : string) : bool :=
  match r with
  | Lit c => String.eqb s (String c EmptyString)
  | Digit =>
      match s with String c EmptyString => Str.is_digit c | _ => false end
  | Space =>
      match s with String c EmptyString => Str.is_space c | _ => false end
  | OneOf chars =>
      match s with String c EmptyString => Str.has_char c chars | _ => false end
  | Cat r1 r2 =>
      existsb
        (fun xy => if fullmatch r1 (fst xy) then fullmatch r2 (snd xy) else false)
        (splits s)
  | Opt r' => if String.eqb s EmptyString then true else fullmatch r' s
  end.

Fixpoint seq_of (rs : list regex) (last : regex) : regex :=
  match rs with
  | [] => last
  | r :: rs' => Cat r (seq_of rs' last)
  end.

Definition digits4 : list regex := [Digit; Digit; Digit; Digit].

(** [(?:\+?54\s?9?\s?)?(?:\(?\d{2,4}\)?\s?[\-.]?\s?)?\d{4}\s?[\-.]?\s?\d{4}] *)
Definition PHONE_REGEX_AR : regex :=
  seq_of
    ([ Opt (seq_of [Opt (Lit "+"); Lit "5"; Lit "4"; Opt Space; Opt (Lit "9")]
              (Opt Space));
       Opt (seq_of [Opt (Lit "("); Digit; Digit; Opt Digit; Opt Digit;
                    Opt (Lit ")"); Opt Space; Opt (OneOf "-.")]
              (Opt Space)) ]
     ++ digits4
     ++ [Opt Space; Opt (OneOf "-."); Opt Space; Digit; Digit; Digit])
    Digit.

Fixpoint count_digits (s : string) : nat :=
  match s with
  | EmptyString => 0
  | String c s' => (if Str.is_digit c then 1 else 0) + count_digits s'
  end.

(** The fewest digits a match of [r] can have. *)
Fixpoint min_digits (r : regex) : nat :=
  match r with
  | Digit => 1
  | Cat r1 r2 => min_digits r1 + min_digits r2
  | _ => 0
  end.

Example phone_shape_plain : fullmatch PHONE_REGEX_AR "4567-8900" = true.
Proof. vm_compute. reflexivity. Qed.

Example phone_shape_full : fullmatch PHONE_REGEX_AR "+54 9 (011) 4567 8900" = true.
Proof. vm_compute. reflexivity. Qed.

Example phone_shape_short : fullmatch PHONE_REGEX_AR "4567-890" = false.
Proof. vm_compute. reflexivity. Qed.

Lemma splits_append s : forall x y,
  In (x, y) (splits s) -> s = String.append x y.
Proof.
  induction s as [| c s IH]; intros x y Hin; simpl in Hin.
  - destruct Hin as [H | []]. now inversion H.
  - destruct Hin as [H | Hin].
    + now inversion H.
    + apply in_map_iff in Hin. destruct Hin as [[x' y'] [Heq Hin]].
      simpl in Heq. inversion Heq; subst. simpl. f_equal. now apply IH.
Qed.

Lemma count_digits_append x y :
  count_digits (String.append x y) = count_digits x + count_digits y.
Proof.
  induction x as [| c x IH]; simpl; [reflexivity |]. rewrite IH. lia.
Qed.

Lemma min_digits_sound r : forall s,
  fullmatch r s = true -> min_digits r <= count_digits s.
Proof.
  induction r as [c | | | chars | r1 IH1 r2 IH2 | r IH]; intros s Hm;
    simpl in *; try lia.
  - destruct s as [| c [| d s]]; try discriminate Hm. simpl. now rewrite Hm.
  - apply existsb_exists in Hm. destruct Hm as [[x y] [Hin Hxy]].
    simpl in Hxy. destruct (fullmatch r1 x) eqn:Hx; [| discriminate Hxy].
    rewrite (splits_append _ _ _ Hin), count_digits_append.
    specialize (IH1 _ Hx). specialize (IH2 _ Hxy). lia.
Qed.

(** Every match of the phone pattern has at least eight digits. *)
Lemma phone_shape_eight_digits s :
  fullmatch PHONE_REGEX_AR s = true -> 8 <= count_digits s.
Proof. intros Hm. exact (min_digits_sound PHONE_REGEX_AR s Hm). Qed.

(** *** The sanitiser *)

Definition allowed (c : ascii) : bool := Str.is_digit c || Ascii.eqb c "+".

Fixpoint all_allowed (s : string) : bool :=
  match s with
  | EmptyString => true
  | String c s' => allowed c && all_allowed s'
  end.

Lemma digits_and_plus_allowed s : all_allowed (digits_and_plus s) = true.
Proof.
  induction s as [| c s IH]; simpl; [reflexivity |].
  fold (allowed c). destruct (allowed c) eqn:Hc; simpl; [| exact IH].
  now rewrite Hc.
Qed.

Lemma count_digits_sanitised s :
  count_digits (digits_and_plus s) = count_digits s.
Proof.
  induction s as [| c s IH]; simpl; [reflexivity |].
  destruct (Str.is_digit c) eqn:Hd; simpl.
  - now rewrite Hd, IH.
  - destruct (Ascii.eqb c "+"); simpl; [rewrite Hd |]; exact IH.
Qed.

Lemma tel_phones_sound hs p :
  In p (tel_phones hs) -> all_allowed p = true /\ 8 <= String.length p.
Proof.
  unfold tel_phones. intros Hin. apply filter_In in Hin.
  destruct Hin as [Hin Hlen]. apply in_map_iff in Hin.
  destruct Hin as [h [<- _]]. split; [apply digits_and_plus_allowed |].
  apply andb_true_iff in Hlen. now apply Nat.leb_le.
Qed.

Lemma cleaned_phones_sound ms p :
  In p (cleaned_phones ms) ->
  all_allowed p = true /\ 8 <= String.length p
  /\ exists m, In m ms /\ p = digits_and_plus m.
Proof.
  unfold cleaned_phones. intros Hin. apply filter_In in Hin.
  destruct Hin as [Hin Hlen]. apply in_map_iff in Hin.
  destruct Hin as [m [<- Hm]]. split; [apply digits_and_plus_allowed |].
  split; [now apply Nat.leb_le | now exists m].
Qed.

Lemma In_firstn {A : Type} (n : nat) (l : list A) (x : A) :
  In x (firstn n l) -> In x l.
Proof.
  intros Hin. rewrite <- (firstn_skipn n l). apply in_or_app. now left.
Qed.

(** *** The email cut *)

Definition not_junk (e : string) : bool := negb (_is_junk_email e).

(** The list the claim describes: filter first, then keep five. *)
Definition first_five_survivors (listed_emails : list string) : list string :=
  firstn 5 (filter not_junk listed_emails).

Lemma filter_firstn_prefix {A : Type} (f : A -> bool) (l : list A) : forall n,
  filter f (firstn n l)
  = firstn (List.length (filter f (firstn n l))) (filter f l).
Proof.
  induction l as [| a l IH]; intros [| n]; simpl; try reflexivity.
  destruct (f a); simpl; [f_equal |]; apply IH.
Qed.

Lemma filter_drops_one {A : Type} (f : A -> bool) (l : list A) (x : A) :
  In x l -> f x = false -> List.length (filter f l) < List.length l.
Proof.
  induction l as [| a l IH]; intros Hin Hx; [contradiction |].
  simpl. destruct Hin as [-> | Hin].
  - rewrite Hx. pose proof (filter_length_le f l). lia.
  - specialize (IH Hin Hx). destruct (f a); simpl; lia.
Qed.

(** What line 79 returns is always a prefix of the filtered candidates. *)
Lemma select_emails_prefix l :
  select_emails l = firstn (List.length (select_emails l)) (filter not_junk l).
Proof. unfold select_emails. apply (filter_firstn_prefix not_junk l 5). Qed.

(** One junk address among the first five listed candidates costs a place,
    however many good candidates follow. *)
Lemma select_emails_short l e :
  In e (firstn 5 l) -> _is_junk_email e = true -> List.length (select_emails l) < 5.
Proof.
  intros Hin Hjunk. unfold select_emails.
  assert (Hlt : List.length (filter not_junk (firstn 5 l)) < List.length (firstn 5 l)).
  { apply filter_drops_one with (x := e); [exact Hin |].
    unfold not_junk. now rewrite Hjunk. }
  change (fun e0 => negb (_is_junk_email e0)) with not_junk.
  pose proof (firstn_le_length 5 l). lia.
Qed.

(** With no junk among the first five, the two orders agree. *)
Lemma select_emails_clean_prefix l :
  forallb not_junk (firstn 5 l) = true ->
  select_emails l = first_five_survivors l.
Proof.
  unfold select_emails, first_five_survivors.
  change (fun e0 => negb (_is_junk_email e0)) with not_junk.
  generalize 5. induction l as [| a l IH]; intros [| n] Hall; simpl in *;
    try reflexivity.
  apply andb_true_iff in Hall. destruct Hall as [Ha Hall].
  rewrite Ha. simpl. f_equal. now apply IH.
Qed.

(** Six candidates as a set may be listed: a tracker address first. *)
Definition six_candidates : list string :=
  [ "o123@sentry.io"; "ventas@acme.com.ar"; "info@acme.com.ar";
    "rrhh@acme.com.ar"; "compras@acme.com.ar"; "soporte@acme.com.ar" ].

(** C1. On six listed candidates, one of them junk and listed among the
    first five, line 79 returns four addresses, although five candidates
    survive the filter and the first five survivors are five addresses. *)
Theorem select_emails_cuts_before_filtering :
  select_emails six_candidates
  = [ "ventas@acme.com.ar"; "info@acme.com.ar"; "rrhh@acme.com.ar";
      "compras@acme.com.ar" ]
  /\ List.length (filter not_junk six_candidates) = 5
  /\ first_five_survivors six_candidates
     = [ "ventas@acme.com.ar"; "info@acme.com.ar"; "rrhh@acme.com.ar";
         "compras@acme.com.ar"; "soporte@acme.com.ar" ].
Proof. repeat split. Qed.
(** *** More on _is_junk_email and the mailto loop *)

Lemma has_char_append (c : ascii) (l r : string) :
  Str.has_char c (String.append l r) = Str.has_char c l || Str.has_char c r.
Proof.
  induction l as [| a l IH]; [reflexivity |]. simpl. now rewrite IH, orb_assoc.
Qed.

Lemma after_last_absent (sep : ascii) (s : string) :
  Str.has_char sep s = false -> Str.after_last sep s = s.
Proof.
  destruct s as [| c s]; [reflexivity |]. simpl.
  rewrite (Ascii.eqb_sym c sep).
  destruct (Ascii.eqb sep c); simpl; [discriminate |]. now intros ->.
Qed.

Lemma after_last_append (sep : ascii) (local domain : string) :
  Str.has_char sep domain = false ->
  Str.after_last sep (String.append local (String sep domain)) = domain.
Proof.
  intros Hd. induction local as [| c l IH].
  - simpl. now rewrite Hd, Ascii.eqb_refl.
  - cbn [String.append Str.after_last].
    rewrite has_char_append. cbn [Str.has_char]. rewrite Ascii.eqb_refl.
    cbn [orb]. rewrite orb_true_r. exact IH.
Qed.

Lemma at_survives_lower (c : ascii) :
  Ascii.eqb "@" (Str.lower_char c) = Ascii.eqb "@" c.
Proof. destruct c as [[] [] [] [] [] [] [] []]; reflexivity. Qed.

Lemma has_at_lower (s : string) :
  Str.has_char "@" (Str.lower s) = Str.has_char "@" s.
Proof.
  induction s as [| c s IH]; [reflexivity |]. cbn [Str.lower Str.has_char].
  now rewrite at_survives_lower, IH.
Qed.

Lemma lower_twice (s : string) : Str.lower (Str.lower s) = Str.lower s.
Proof.
  induction s as [| c s IH]; [reflexivity |]. simpl. rewrite IH. f_equal.
  destruct c as [[] [] [] [] [] [] [] []]; reflexivity.
Qed.

(** X8. The junk test reads the part after the last [@] and nothing
    else, without regard to case: an address is junk exactly when that
    part, lower-cased, is one of the listed domains; a string without [@]
    is tested whole. *)
Theorem junk_test_reads_domain (local domain : string) :
  Str.has_char "@" domain = false ->
  _is_junk_email (String.append local (String "@" domain))
  = Str.mem (Str.lower domain) JUNK_EMAIL_DOMAINS
  /\ _is_junk_email domain = Str.mem (Str.lower domain) JUNK_EMAIL_DOMAINS
  /\ _is_junk_email (String.append local (String "@" (Str.lower domain)))
     = _is_junk_email (String.append local (String "@" domain)).
Proof.
  intros Hd. unfold _is_junk_email. cbv zeta.
  rewrite !after_last_append, after_last_absent, lower_twice;
    try assumption; [repeat split |].
  now rewrite has_at_lower.
Qed.

Lemma junk_test_reads_domain_witness :
  Str.has_char "@" "Sentry.IO" = false
  /\ _is_junk_email "Alerts+42@Sentry.IO" = true
  /\ _is_junk_email "Sentry.IO" = true
  /\ _is_junk_email "Alerts+42@sentry.io" = _is_junk_email "Alerts+42@Sentry.IO".
Proof.
  split; [reflexivity |].
  exact (@junk_test_reads_domain "Alerts+42" "Sentry.IO" eq_refl).
Defined.

Lemma has_char_lstrip (c : ascii) (s : string) :
  Str.has_char c (Str.lstrip s) = true -> Str.has_char c s = true.
Proof.
  induction s as [| a s IH]; [discriminate |]. simpl.
  destruct (Str.is_space a); [| trivial].
  intros H. rewrite (IH H). apply orb_true_r.
Qed.

Lemma has_char_rstrip (c : ascii) (s : string) :
  Str.has_char c (Str.rstrip s) = true -> Str.has_char c s = true.
Proof.
  induction s as [| a s IH]; [discriminate |]. simpl.
  destruct (Str.rstrip s) as [| b r].
  - destruct (Str.is_space a); [discriminate |]. simpl.
    rewrite orb_false_r. intros ->. reflexivity.
  - simpl. intros H. apply orb_true_iff in H. destruct H as [-> | H];
      [reflexivity |].
    rewrite IH; [apply orb_true_r | exact H].
Qed.

Lemma has_char_strip (c : ascii) (s : string) :
  Str.has_char c (Str.strip s) = true -> Str.has_char c s = true.
Proof.
  unfold Str.strip. intros H. apply has_char_lstrip. now apply has_char_rstrip.
Qed.

Lemma before_first_cut (sep : ascii) (s : string) :
  Str.has_char sep (Str.before_first sep s) = false.
Proof.
  induction s as [| a s IH]; [reflexivity |]. simpl.
  destruct (Ascii.eqb a sep) eqn:Ha; [reflexivity |]. simpl.
  now rewrite (Ascii.eqb_sym sep a), Ha, IH.
Qed.

(** X9. Every address the [mailto:] loop adds has an [@] and no [?]: it
    is the trimmed target, cut at the first [?], of a link whose [href]
    begins with [mailto:] in any case. *)
Theorem mailto_emails_shape (hs : list string) (e : string) :
  In e (mailto_emails hs) ->
  Str.has_char "@" e = true
  /\ Str.has_char "?" e = false
  /\ exists h, In h hs /\ starts_ci "mailto:" h = true
               /\ e = Str.strip (Str.before_first "?" (Str.remove_all "mailto:" h)).
Proof.
  unfold mailto_emails. intros Hin. apply filter_In in Hin.
  destruct Hin as [Hin Hat]. apply in_map_iff in Hin.
  destruct Hin as [h [<- Hh]]. apply filter_In in Hh. destruct Hh as [Hh Hci].
  split; [exact Hat |]. split; [| now exists h].
  destruct (Str.has_char "?" (Str.strip _)) eqn:Hq; [| reflexivity].
  apply has_char_strip in Hq. now rewrite before_first_cut in Hq.
Qed.

Lemma mailto_emails_shape_witness :
  mailto_emails
    [ "MailTo:x@acme.io"; "mailto: ventas@acme.com.ar ?subject=Hola";
      "mailto:sin-arroba"; "https://acme.com.ar/" ]
  = [ "MailTo:x@acme.io"; "ventas@acme.com.ar" ]
  /\ Str.has_char "@" "ventas@acme.com.ar" = true
  /\ Str.has_char "?" "ventas@acme.com.ar" = false.
Proof.
  split; [reflexivity |].
  destruct (@mailto_emails_shape
              [ "MailTo:x@acme.io"; "mailto: ventas@acme.com.ar ?subject=Hola";
                "mailto:sin-arroba"; "https://acme.com.ar/" ]
              "ventas@acme.com.ar") as [Hat [Hq _]].
  - simpl. tauto.
  - split; assumption.
Defined.

(** *** More on the phone pattern *)

(** The most characters of a match of [r] that the sanitiser keeps, and
    the most digits a match of [r] can have. *)
Fixpoint any_char (p : ascii -> bool) (chars : string) : bool :=
  match chars with
  | EmptyString => false
  | String c chars' => p c || any_char p chars'
  end.

Fixpoint max_kept (r : regex) : nat :=
  match r with
  | Lit c => if allowed c then 1 else 0
  | Digit => 1
  | Space => 0
  | OneOf chars => if any_char allowed chars then 1 else 0
  | Cat r1 r2 => max_kept r1 + max_kept r2
  | Opt r' => max_kept r'
  end.

Fixpoint max_digits (r : regex) : nat :=
  match r with
  | Lit c => if Str.is_digit c then 1 else 0
  | Digit => 1
  | Space => 0
  | OneOf chars => if any_char Str.is_digit chars then 1 else 0
  | Cat r1 r2 => max_digits r1 + max_digits r2
  | Opt r' => max_digits r'
  end.

Lemma space_not_allowed (c : ascii) : Str.is_space c = true -> allowed c = false.
Proof. destruct c as [[] [] [] [] [] [] [] []]; vm_compute; congruence. Qed.

Lemma space_not_digit (c : ascii) : Str.is_space c = true -> Str.is_digit c = false.
Proof. destruct c as [[] [] [] [] [] [] [] []]; vm_compute; congruence. Qed.

Lemma has_char_any (p : ascii -> bool) (c : ascii) (chars : string) :
  Str.has_char c chars = true -> p c = true -> any_char p chars = true.
Proof.
  induction chars as [| a chars IH]; [discriminate |]. simpl.
  destruct (Ascii.eqb c a) eqn:Heq; simpl.
  - apply Ascii.eqb_eq in Heq. subst a. now intros _ ->.
  - intros H Hc. rewrite (IH H Hc). apply orb_true_r.
Qed.

Lemma digits_and_plus_append (x y : string) :
  digits_and_plus (String.append x y)
  = String.append (digits_and_plus x) (digits_and_plus y).
Proof.
  induction x as [| c x IH]; [reflexivity |]. simpl.
  destruct (Str.is_digit c || Ascii.eqb c "+"); simpl; now rewrite IH.
Qed.

Lemma length_append (x y : string) :
  String.length (String.append x y) = String.length x + String.length y.
Proof. induction x as [| c x IH]; simpl; [reflexivity | now rewrite IH]. Qed.

Lemma max_kept_sound r : forall s,
  fullmatch r s = true -> String.length (digits_and_plus s) <= max_kept r.
Proof.
  induction r as [c | | | chars | r1 IH1 r2 IH2 | r IH]; intros s Hm;
    cbn [fullmatch max_kept] in *.
  - apply String.eqb_eq in Hm. subst s. cbn [digits_and_plus].
    fold (allowed c). destruct (allowed c); simpl; lia.
  - destruct s as [| c [| d s]]; try discriminate Hm. cbn [digits_and_plus].
    destruct (Str.is_digit c || Ascii.eqb c "+"); simpl; lia.
  - destruct s as [| c [| d s]]; try discriminate Hm. cbn [digits_and_plus].
    fold (allowed c). rewrite (space_not_allowed c Hm). simpl. lia.
  - destruct s as [| c [| d s]]; try discriminate Hm. cbn [digits_and_plus].
    fold (allowed c). destruct (allowed c) eqn:Hc; [| simpl; lia].
    rewrite (has_char_any allowed c chars Hm Hc). simpl. lia.
  - apply existsb_exists in Hm. destruct Hm as [[x y] [Hin Hxy]].
    simpl in Hxy. destruct (fullmatch r1 x) eqn:Hx; [| discriminate Hxy].
    rewrite (splits_append _ _ _ Hin), digits_and_plus_append, length_append.
    specialize (IH1 _ Hx). specialize (IH2 _ Hxy). lia.
  - destruct (String.eqb s EmptyString) eqn:He.
    + apply String.eqb_eq in He. subst s. simpl. lia.
    + now apply IH.
Qed.

Lemma count_digits_le_length (s : string) : count_digits s <= String.length s.
Proof.
  induction s as [| c s IH]; simpl; [lia |]. destruct (Str.is_digit c); lia.
Qed.

Lemma max_digits_sound r : forall s,
  fullmatch r s = true -> count_digits s <= max_digits r.
Proof.
  induction r as [c | | | chars | r1 IH1 r2 IH2 | r IH]; intros s Hm;
    cbn [fullmatch max_digits] in *.
  - apply String.eqb_eq in Hm. subst s. simpl. destruct (Str.is_digit c); lia.
  - destruct s as [| c [| d s]]; try discriminate Hm. simpl.
    destruct (Str.is_digit c); lia.
  - destruct s as [| c [| d s]]; try discriminate Hm. simpl.
    rewrite (space_not_digit c Hm). lia.
  - destruct s as [| c [| d s]]; try discriminate Hm. simpl.
    destruct (Str.is_digit c) eqn:Hc; [| lia].
    rewrite (has_char_any Str.is_digit c chars Hm Hc). lia.
  - apply existsb_exists in Hm. destruct Hm as [[x y] [Hin Hxy]].
    simpl in Hxy. destruct (fullmatch r1 x) eqn:Hx; [| discriminate Hxy].
    rewrite (splits_append _ _ _ Hin), count_digits_append.
    specialize (IH1 _ Hx). specialize (IH2 _ Hxy). lia.
  - destruct (String.eqb s EmptyString) eqn:He.
    + apply String.eqb_eq in He. subst s. simpl. lia.
    + now apply IH.
Qed.

Section Scrape.

(** httpx: the [async with] block up to [client.get]. *)
Variable http_get : string -> outcome response.

(** BeautifulSoup with the lxml parser and with html.parser. *)
Variable lxml : string -> outcome soup.
Variable html_parser : string -> outcome soup.

(** re: [findall] of the email and phone patterns, and group 1 of
    [search] and of every [finditer] match of the WhatsApp pattern. *)
Variable EMAIL_REGEX_findall : string -> list string.
Variable PHONE_REGEX_AR_findall : string -> list string.
Variable WHATSAPP_LINK_REGEX_search : string -> option string.
Variable WHATSAPP_LINK_REGEX_finditer : string -> list string.

(** [list(s)] for the set [s] of the strings given. *)
Variable listed : list string -> list string.

(** Lines 64-114: extraction from the parsed document. *)
Definition extract (html : string) (page : soup) : contacts :=
  let raw_emails :=
    EMAIL_REGEX_findall (get_text page) ++ mailto_emails (hrefs page) in
  let phone_set :=
    tel_phones (hrefs page)
    ++ cleaned_phones (PHONE_REGEX_AR_findall (get_text page)) in
  let whatsapp_set :=
    somes (map WHATSAPP_LINK_REGEX_search (hrefs page))
    ++ WHATSAPP_LINK_REGEX_finditer html in
  {| emails := select_emails (listed raw_emails);
     phones := firstn 5 (listed phone_set);
     whatsapps := firstn 3 (listed whatsapp_set) |}.

(** Lines 41-62: the fetch; [None] stands for the early [return result]. *)
Definition fetch (u : string) : outcome (option string) :=
  try_except
    (response <- http_get u ;;
     if negb (Z.eqb (status_code response) 200) then Ret None
     else
       let content_type :=
         match content_type response with Some c => c | None => "" end in
       if negb (html_family content_type) then Ret None
       else Ret (Some (text response)))
    is_Exception
    (fun _ => Ret None).

(** Lines 64-67: lxml first, html.parser when that raises. *)
Definition parse (html : string) : outcome soup :=
  try_except (lxml html) is_Exception (fun _ => html_parser html).

Definition scrape_url (u : string) : outcome contacts :=
  fetched <- fetch u ;;
  match fetched with
  | None => Ret nothing
  | Some html =>
      page <- parse html ;;
      Ret (extract html page)
  end.

(** *** How [scrape_url] ends *)

Lemma scrape_url_returns u out :
  scrape_url u = Ret out ->
  out = nothing
  \/ exists html page,
       fetch u = Ret (Some html) /\ parse html = Ret page
       /\ out = extract html page.
Proof.
  unfold scrape_url. destruct (fetch u) as [[html |] | e]; simpl.
  - destruct (parse html) as [page | e] eqn:Hparse; simpl;
      intros H; inversion H.
    right. exists html, page. repeat split. exact Hparse.
  - intros H. inversion H. now left.
  - discriminate.
Qed.



(** A failure of html.parser, the second parser, is not absorbed. *)
Lemma parse_propagates html e e' :
  lxml html = Raise e -> is_Exception e = true ->
  html_parser html = Raise e' ->
  parse html = Raise e'.
Proof. intros Hl Hcls Hp. unfold parse. rewrite Hl. simpl. now rewrite Hcls. Qed.


(** *** The phones *)

(** [list(s)] lists members of [s] only. *)
Definition listed_sound : Prop :=
  forall (l : list string) (x : string), In x (listed l) -> In x l.

(** [findall] returns matches of the phone pattern. *)
Definition findall_sound : Prop :=
  forall (t m : string),
    In m (PHONE_REGEX_AR_findall t) -> fullmatch PHONE_REGEX_AR m = true.

Lemma extract_phones html page p :
  listed_sound ->
  In p (phones (extract html page)) ->
  In p (tel_phones (hrefs page))
  \/ In p (cleaned_phones (PHONE_REGEX_AR_findall (get_text page))).
Proof.
  intros Hlisted Hin. unfold extract in Hin. cbn [phones] in Hin.
  apply In_firstn in Hin. apply Hlisted in Hin. now apply in_app_or.
Qed.

(** C6, as the code has it.  Every phone string [scrape_url] returns is
    made of digits and plus signs only and has at least eight of these
    characters; it is the sanitised target of a [tel:] link of the page or
    a sanitised match of the phone pattern in its text, and in the second
    case it has at least eight digits; and there are at most five. *)
Theorem phones_sanitised_and_capped (u : string) (out : contacts) :
  listed_sound ->
  findall_sound ->
  scrape_url u = Ret out ->
  List.length (phones out) <= 5
  /\ (forall p : string,
        In p (phones out) ->
        all_allowed p = true
        /\ 8 <= String.length p
        /\ exists html page,
             fetch u = Ret (Some html) /\ parse html = Ret page
             /\ (In p (tel_phones (hrefs page))
                 \/ In p (cleaned_phones
                            (PHONE_REGEX_AR_findall (get_text page))))
             /\ (In p (cleaned_phones
                         (PHONE_REGEX_AR_findall (get_text page))) ->
                 8 <= count_digits p)).
Proof.
  intros Hlisted Hfindall Hout.
  apply scrape_url_returns in Hout.
  destruct Hout as [-> | [html [page [Hfetch [Hparse ->]]]]].
  - split; [simpl; lia | intros p []].
  - split; [unfold extract; cbn [phones]; apply firstn_le_length |].
    intros p Hin. apply (extract_phones html page p Hlisted) in Hin.
    assert (Htext8 : In p (cleaned_phones
                             (PHONE_REGEX_AR_findall (get_text page))) ->
                     8 <= count_digits p).
    { intros Htext.
      destruct (cleaned_phones_sound _ _ Htext) as [_ [_ [m [Hm ->]]]].
      rewrite count_digits_sanitised. apply phone_shape_eight_digits.
      now apply (Hfindall (get_text page)). }
    assert (Hshape : all_allowed p = true /\ 8 <= String.length p).
    { destruct Hin as [Htel | Htext].
      - exact (tel_phones_sound _ _ Htel).
      - destruct (cleaned_phones_sound _ _ Htext) as [Hall [Hlen _]].
        now split. }
    destruct Hshape as [Hall Hlen].
    split; [exact Hall |]. split; [exact Hlen |].
    exists html, page. repeat split; assumption.
Qed.
(** *** More on what [scrape_url] returns *)

Lemma fetch_some u html :
  fetch u = Ret (Some html) ->
  exists r,
    http_get u = Ret r /\ status_code r = 200%Z
    /\ html_family (match content_type r with Some c => c | None => "" end)
       = true
    /\ html = text r.
Proof.
  unfold fetch. destruct (http_get u) as [r | e] eqn:Hget; simpl.
  - destruct (Z.eqb (status_code r) 200) eqn:Hs; simpl; [| discriminate].
    destruct (html_family _) eqn:Hct; simpl; [| discriminate].
    intros H. inversion H. exists r. apply Z.eqb_eq in Hs. now repeat split.
  - destruct (is_Exception e); discriminate.
Qed.

Lemma fetch_raises u e :
  fetch u = Raise e -> http_get u = Raise e /\ is_Exception e = false.
Proof.
  unfold fetch. destruct (http_get u) as [r | e0] eqn:Hget; simpl.
  - destruct (negb (Z.eqb (status_code r) 200)); simpl; [discriminate |].
    destruct (negb (html_family _)); discriminate.
  - destruct (is_Exception e0) eqn:Hcls; [discriminate |].
    intros H. inversion H. subst. now split.
Qed.

Lemma parse_raises html e :
  parse html = Raise e ->
  (lxml html = Raise e /\ is_Exception e = false)
  \/ exists e0, lxml html = Raise e0 /\ is_Exception e0 = true
                /\ html_parser html = Raise e.
Proof.
  unfold parse. destruct (lxml html) as [page | e0]; simpl; [discriminate |].
  destruct (is_Exception e0) eqn:Hcls.
  - intros Hp. right. now exists e0.
  - intros H. inversion H. subst. now left.
Qed.

(** X10. Contacts come from HTML pages only: when [scrape_url] returns
    anything but the all-empty result, the request was answered with
    status 200 and a content type holding [text/html] or
    [application/xhtml], and the result is the extraction from the parse
    of the response body. *)
Theorem contacts_need_html_page (u : string) (out : contacts) :
  scrape_url u = Ret out ->
  out <> nothing ->
  exists r page,
    http_get u = Ret r /\ status_code r = 200%Z
    /\ html_family (match content_type r with Some c => c | None => "" end)
       = true
    /\ parse (text r) = Ret page
    /\ out = extract (text r) page.
Proof.
  intros Hout Hne. apply scrape_url_returns in Hout.
  destruct Hout as [-> | [html [page [Hfetch [Hparse ->]]]]]; [now elim Hne |].
  destruct (fetch_some _ Hfetch) as [r [Hget [Hs [Hct ->]]]].
  now exists r, page.
Qed.

(** X11. What [scrape_url] can raise: an exception of the request that
    is not an [Exception], an exception of the lxml parser that is not an
    [Exception], or, after the lxml parser raised an [Exception], whatever
    html.parser raises; the last two only on a fetched HTML page. *)
Theorem scrape_url_raises (u : string) (e : exn) :
  scrape_url u = Raise e ->
  (http_get u = Raise e /\ is_Exception e = false)
  \/ exists r,
       http_get u = Ret r /\ status_code r = 200%Z
       /\ html_family (match content_type r with Some c => c | None => "" end)
          = true
       /\ ((lxml (text r) = Raise e /\ is_Exception e = false)
           \/ exists e0, lxml (text r) = Raise e0 /\ is_Exception e0 = true
                         /\ html_parser (text r) = Raise e).
Proof.
  unfold scrape_url. destruct (fetch u) as [[html |] | e0] eqn:Hfetch; simpl.
  - destruct (parse html) as [page | e1] eqn:Hparse; simpl; [discriminate |].
    intros H. inversion H. subst e1. right.
    destruct (fetch_some _ Hfetch) as [r [Hget [Hs [Hct ->]]]].
    exists r. repeat split; try assumption. now apply parse_raises.
  - discriminate.
  - intros H. inversion H. subst e0. left. now apply fetch_raises.
Qed.

Lemma In_somes {A : Type} (l : list (option A)) (x : A) :
  In x (somes l) -> In (Some x) l.
Proof.
  induction l as [| [a |] l IH]; simpl; [tauto | | now right; apply IH].
  intros [-> | H]; [now left | right; now apply IH].
Qed.

(** X12. The emails [scrape_url] returns: at most five, none on a junk
    domain, and each a match of the email pattern in the page text or the
    target of a [mailto:] link of the page. *)
Theorem emails_filtered_and_capped (u : string) (out : contacts) :
  listed_sound ->
  scrape_url u = Ret out ->
  List.length (emails out) <= 5
  /\ (forall e : string,
        In e (emails out) ->
        _is_junk_email e = false
        /\ exists html page,
             fetch u = Ret (Some html) /\ parse html = Ret page
             /\ (In e (EMAIL_REGEX_findall (get_text page))
                 \/ In e (mailto_emails (hrefs page)))).
Proof.
  intros Hlisted Hout. apply scrape_url_returns in Hout.
  destruct Hout as [-> | [html [page [Hfetch [Hparse ->]]]]].
  - split; [simpl; lia | intros e []].
  - unfold extract. cbn [emails]. unfold select_emails. split.
    + etransitivity; [apply filter_length_le | apply firstn_le_length].
    + intros e Hin. apply filter_In in Hin. destruct Hin as [Hin Hjunk].
      split; [now apply negb_true_iff |].
      exists html, page. split; [exact Hfetch |]. split; [exact Hparse |].
      apply In_firstn, Hlisted in Hin. now apply in_app_or.
Qed.

(** X13. The WhatsApp numbers [scrape_url] returns: at most three, each
    the captured number of the WhatsApp pattern in the [href] of a link of
    the page or in the raw HTML. *)
Theorem whatsapps_capped (u : string) (out : contacts) :
  listed_sound ->
  scrape_url u = Ret out ->
  List.length (whatsapps out) <= 3
  /\ (forall w : string,
        In w (whatsapps out) ->
        exists html page,
          fetch u = Ret (Some html) /\ parse html = Ret page
          /\ ((exists h, In h (hrefs page)
                         /\ WHATSAPP_LINK_REGEX_search h = Some w)
              \/ In w (WHATSAPP_LINK_REGEX_finditer html))).
Proof.
  intros Hlisted Hout. apply scrape_url_returns in Hout.
  destruct Hout as [-> | [html [page [Hfetch [Hparse ->]]]]].
  - split; [simpl; lia | intros w []].
  - unfold extract. cbn [whatsapps]. split; [apply firstn_le_length |].
    intros w Hin. exists html, page.
    split; [exact Hfetch |]. split; [exact Hparse |].
    apply In_firstn, Hlisted, in_app_or in Hin. destruct Hin as [Hin | Hin].
    + left. apply In_somes, in_map_iff in Hin.
      destruct Hin as [h [Hh Hin]]. now exists h.
    + now right.
Qed.

(** [list(s)] lists no member of [s] twice. *)
Definition listed_once : Prop := forall l : list string, NoDup (listed l).

Lemma NoDup_firstn' {A : Type} (n : nat) (l : list A) :
  NoDup l -> NoDup (firstn n l).
Proof.
  revert n. induction l as [| a l IH]; intros [| n] Hnd; simpl;
    try constructor.
  - inversion Hnd; subst. intros Hin. now apply In_firstn in Hin.
  - inversion Hnd; subst. now apply IH.
Qed.

(** X14. No contact is returned twice: the three lists of the result
    have no duplicates. *)
Theorem scrape_url_no_duplicates (u : string) (out : contacts) :
  listed_once ->
  scrape_url u = Ret out ->
  NoDup (emails out) /\ NoDup (phones out) /\ NoDup (whatsapps out).
Proof.
  intros Honce Hout. apply scrape_url_returns in Hout.
  destruct Hout as [-> | [html [page [_ [_ ->]]]]].
  - simpl. repeat split; constructor.
  - unfold extract. cbn [emails phones whatsapps]. unfold select_emails.
    split; [| split].
    + apply NoDup_filter, NoDup_firstn', Honce.
    + apply NoDup_firstn', Honce.
    + apply NoDup_firstn', Honce.
Qed.

Lemma filter_all {A : Type} (f : A -> bool) (l : list A) :
  (forall x, In x l -> f x = true) -> filter f l = l.
Proof.
  induction l as [| a l IH]; intros Hall; [reflexivity |]. simpl.
  rewrite (Hall a (or_introl eq_refl)). f_equal.
  apply IH. intros x Hx. apply Hall. now right.
Qed.

(** X15. The length test of the clean-up loop drops no match of the phone
    pattern: a match has 8 to 15 digits, and its sanitised form 8 to 16
    characters. *)
Theorem text_phones_all_kept (t : string) :
  findall_sound ->
  cleaned_phones (PHONE_REGEX_AR_findall t)
  = map digits_and_plus (PHONE_REGEX_AR_findall t)
  /\ (forall m : string,
        In m (PHONE_REGEX_AR_findall t) ->
        8 <= count_digits m <= 15
        /\ 8 <= String.length (digits_and_plus m) <= 16).
Proof.
  intros Hfindall.
  assert (Hm : forall m, In m (PHONE_REGEX_AR_findall t) ->
                 8 <= count_digits m <= 15
                 /\ 8 <= String.length (digits_and_plus m) <= 16).
  { intros m Hin. apply Hfindall in Hin.
    pose proof (phone_shape_eight_digits m Hin) as Hlo.
    pose proof (max_digits_sound PHONE_REGEX_AR m Hin) as Hhi.
    pose proof (max_kept_sound PHONE_REGEX_AR m Hin) as Hkept.
    pose proof (count_digits_le_length (digits_and_plus m)) as Hle.
    rewrite count_digits_sanitised in Hle.
    change (max_digits PHONE_REGEX_AR) with 15 in Hhi.
    change (max_kept PHONE_REGEX_AR) with 16 in Hkept. lia. }
  split.
  - unfold cleaned_phones. apply filter_all. intros p Hin.
    apply in_map_iff in Hin. destruct Hin as [m [<- Hin]].
    apply Nat.leb_le. apply Hm in Hin. lia.
  - exact Hm.
Qed.

End Scrape.

(** *** Runs on small pages *)

(** A stand-in for [list(set)]: first occurrences, in order. *)
Definition toy_listed : list string -> list string := nodup string_dec.

Lemma toy_listed_sound : listed_sound toy_listed.
Proof. intros l x Hin. exact (proj1 (nodup_In string_dec l x) Hin). Defined.

Definition html_page (body : string) : response :=
  {| status_code := 200;
     content_type := Some "text/html; charset=utf-8";
     text := body |}.

(** A page whose only contact is a seven-digit [tel:] link.  The regular
    expressions find nothing in its text and markup. *)
Definition short_tel_html : string := "<a href='tel:+1234567'>Llamar</a>".

Definition short_tel_soup : soup :=
  {| get_text := "Llamar"; hrefs := ["tel:+1234567"] |}.

Definition scrape_short_tel : outcome contacts :=
  scrape_url
    (fun _ => Ret (html_page short_tel_html))
    (fun _ => Ret short_tel_soup)
    (fun _ => Ret short_tel_soup)
    (fun _ => []) (fun _ => []) (fun _ => None) (fun _ => [])
    toy_listed
    "https://acme.com.ar/contacto".

(** C6 fails as stated: the phone [+1234567] is returned, and it has seven
    digits; the plus sign counts towards the length of eight. *)
Lemma short_tel_phone_returned :
  scrape_short_tel
  = Ret {| emails := []; phones := ["+1234567"]; whatsapps := [] |}
  /\ count_digits (digits_and_plus "+1234567") = 7
  /\ String.length (digits_and_plus "+1234567") = 8.
Proof. repeat split. Qed.

(** A page with a [tel:] link and a number in its text, parsed by
    html.parser because lxml is not installed. *)
Definition contact_html : string :=
  "<p>Tel 4567-8900</p><a href='tel:+54 11 4567-8900'>Llamar</a>".

Definition contact_soup : soup :=
  {| get_text := "Tel 4567-8900 Llamar"; hrefs := ["tel:+54 11 4567-8900"] |}.

Definition no_lxml (html : string) : outcome soup :=
  Raise (Exception_ "FeatureNotFound").

Definition scrape_contact (html_parser : string -> outcome soup) : outcome contacts :=
  scrape_url
    (fun _ => Ret (html_page contact_html))
    no_lxml
    html_parser
    (fun _ => []) (fun _ => ["4567-8900"]) (fun _ => None) (fun _ => [])
    toy_listed
    "https://acme.com.ar/contacto".




Lemma toy_findall_sound : findall_sound (fun _ : string => ["4567-8900"]).
Proof.
  intros t m [<- | []]. vm_compute. reflexivity.
Defined.

Lemma phones_sanitised_and_capped_witness :
  List.length ["+541145678900"; "45678900"] <= 5
  /\ (forall p : string,
        In p ["+541145678900"; "45678900"] ->
        all_allowed p = true
        /\ 8 <= String.length p
        /\ exists html page,
             fetch (fun _ => Ret (html_page contact_html))
               "https://acme.com.ar/contacto" = Ret (Some html)
             /\ parse no_lxml (fun _ => Ret contact_soup) html = Ret page
             /\ (In p (tel_phones (hrefs page))
                 \/ In p (cleaned_phones ["4567-8900"]))
             /\ (In p (cleaned_phones ["4567-8900"]) -> 8 <= count_digits p)).
Proof.
  exact (@phones_sanitised_and_capped
           (fun _ => Ret (html_page contact_html)) no_lxml
           (fun _ => Ret contact_soup)
           (fun _ => []) (fun _ => ["4567-8900"]) (fun _ => None) (fun _ => [])
           toy_listed "https://acme.com.ar/contacto"
           {| emails := []; phones := ["+541145678900"; "45678900"];
              whatsapps := [] |}
           toy_listed_sound toy_findall_sound eq_refl).
Defined.

(** The email cut on a whole page: six addresses in the text, the tracker
    address listed first. *)
Example scrape_six_emails :
  scrape_url
    (fun _ => Ret (html_page "<p>Escribinos</p>"))
    (fun _ => Ret {| get_text := "Escribinos"; hrefs := [] |})
    (fun _ => Ret {| get_text := "Escribinos"; hrefs := [] |})
    (fun _ => six_candidates) (fun _ => []) (fun _ => None) (fun _ => [])
    toy_listed "https://acme.com.ar/"
  = Ret {| emails := [ "ventas@acme.com.ar"; "info@acme.com.ar";
                       "rrhh@acme.com.ar"; "compras@acme.com.ar" ];
           phones := []; whatsapps := [] |}.
Proof. reflexivity. Qed.
(** *** Runs for the further properties *)

Lemma contacts_need_html_page_witness :
  scrape_contact (fun _ => Ret contact_soup)
  = Ret {| emails := []; phones := ["+541145678900"; "45678900"];
           whatsapps := [] |}
  /\ exists r page,
       Ret (html_page contact_html) = Ret r /\ status_code r = 200%Z
       /\ html_family (match content_type r with Some c => c | None => "" end)
          = true
       /\ parse no_lxml (fun _ => Ret contact_soup) (text r) = Ret page
       /\ {| emails := []; phones := ["+541145678900"; "45678900"];
             whatsapps := [] |}
          = extract (fun _ => []) (fun _ => ["4567-8900"]) (fun _ => None)
              (fun _ => []) toy_listed (text r) page.
Proof.
  split; [reflexivity |].
  apply (@contacts_need_html_page
           (fun _ => Ret (html_page contact_html)) no_lxml
           (fun _ => Ret contact_soup)
           (fun _ => []) (fun _ => ["4567-8900"]) (fun _ => None) (fun _ => [])
           toy_listed "https://acme.com.ar/contacto");
    [reflexivity | discriminate].
Defined.

Lemma scrape_url_raises_witness :
  scrape_contact (fun _ => Raise (Exception_ "ParserRejectedMarkup"))
  = Raise (Exception_ "ParserRejectedMarkup")
  /\ ((Ret (html_page contact_html) = Raise (Exception_ "ParserRejectedMarkup")
       /\ is_Exception (Exception_ "ParserRejectedMarkup") = false)
      \/ exists r,
           Ret (html_page contact_html) = Ret r /\ status_code r = 200%Z
           /\ html_family
                (match content_type r with Some c => c | None => "" end)
              = true
           /\ ((no_lxml (text r) = Raise (Exception_ "ParserRejectedMarkup")
                /\ is_Exception (Exception_ "ParserRejectedMarkup") = false)
               \/ exists e0,
                    no_lxml (text r) = Raise e0 /\ is_Exception e0 = true
                    /\ Raise (Exception_ "ParserRejectedMarkup")
                       = Raise (A := soup) (Exception_ "ParserRejectedMarkup"))).
Proof.
  split; [reflexivity |].
  apply (@scrape_url_raises
           (fun _ => Ret (html_page contact_html)) no_lxml
           (fun _ => Raise (Exception_ "ParserRejectedMarkup"))
           (fun _ => []) (fun _ => ["4567-8900"]) (fun _ => None) (fun _ => [])
           toy_listed "https://acme.com.ar/contacto").
  reflexivity.
Defined.

Lemma emails_filtered_and_capped_witness :
  List.length [ "ventas@acme.com.ar"; "info@acme.com.ar";
                "rrhh@acme.com.ar"; "compras@acme.com.ar" ] <= 5
  /\ (forall e : string,
        In e [ "ventas@acme.com.ar"; "info@acme.com.ar";
               "rrhh@acme.com.ar"; "compras@acme.com.ar" ] ->
        _is_junk_email e = false
        /\ exists html page,
             fetch (fun _ => Ret (html_page "<p>Escribinos</p>"))
               "https://acme.com.ar/" = Ret (Some html)
             /\ parse (fun _ => Ret {| get_text := "Escribinos"; hrefs := [] |})
                  (fun _ => Ret {| get_text := "Escribinos"; hrefs := [] |})
                  html = Ret page
             /\ (In e six_candidates \/ In e (mailto_emails (hrefs page)))).
Proof.
  exact (@emails_filtered_and_capped
           (fun _ => Ret (html_page "<p>Escribinos</p>"))
           (fun _ => Ret {| get_text := "Escribinos"; hrefs := [] |})
           (fun _ => Ret {| get_text := "Escribinos"; hrefs := [] |})
           (fun _ => six_candidates) (fun _ => []) (fun _ => None) (fun _ => [])
           toy_listed "https://acme.com.ar/"
           {| emails := [ "ventas@acme.com.ar"; "info@acme.com.ar";
                          "rrhh@acme.com.ar"; "compras@acme.com.ar" ];
              phones := []; whatsapps := [] |}
           toy_listed_sound eq_refl).
Defined.

(** A page with the same WhatsApp link twice and a second number in a
    script of the raw HTML. *)
Definition wa_html : string :=
  "<a href='https://wa.me/5491145678900'>WhatsApp</a><a href='https://wa.me/5491145678900'>Chat</a><script>open('https://api.whatsapp.com/send?phone=5491122223333')</script>".

Definition wa_soup : soup :=
  {| get_text := "WhatsApp Chat";
     hrefs := ["https://wa.me/5491145678900"; "https://wa.me/5491145678900"] |}.

Definition wa_search (href : string) : option string :=
  if String.eqb href "https://wa.me/5491145678900"
  then Some "5491145678900" else None.

Definition wa_finditer (html : string) : list string :=
  ["5491145678900"; "5491145678900"; "5491122223333"].

Definition scrape_wa : outcome contacts :=
  scrape_url
    (fun _ => Ret (html_page wa_html))
    (fun _ => Ret wa_soup) (fun _ => Ret wa_soup)
    (fun _ => []) (fun _ => []) wa_search wa_finditer
    toy_listed "https://acme.com.ar/".

Lemma whatsapps_capped_witness :
  scrape_wa
  = Ret {| emails := []; phones := [];
           whatsapps := ["5491145678900"; "5491122223333"] |}
  /\ List.length ["5491145678900"; "5491122223333"] <= 3
  /\ (forall w : string,
        In w ["5491145678900"; "5491122223333"] ->
        exists html page,
          fetch (fun _ => Ret (html_page wa_html)) "https://acme.com.ar/"
          = Ret (Some html)
          /\ parse (fun _ => Ret wa_soup) (fun _ => Ret wa_soup) html = Ret page
          /\ ((exists h, In h (hrefs page) /\ wa_search h = Some w)
              \/ In w (wa_finditer html))).
Proof.
  split; [reflexivity |].
  exact (@whatsapps_capped
           (fun _ => Ret (html_page wa_html))
           (fun _ => Ret wa_soup) (fun _ => Ret wa_soup)
           (fun _ => []) (fun _ => []) wa_search wa_finditer
           toy_listed "https://acme.com.ar/"
           {| emails := []; phones := [];
              whatsapps := ["5491145678900"; "5491122223333"] |}
           toy_listed_sound eq_refl).
Defined.

Lemma toy_listed_once : listed_once toy_listed.
Proof. intros l. apply NoDup_nodup. Defined.

Lemma scrape_url_no_duplicates_witness :
  NoDup (@nil string) /\ NoDup (@nil string)
  /\ NoDup ["5491145678900"; "5491122223333"].
Proof.
  exact (@scrape_url_no_duplicates
           (fun _ => Ret (html_page wa_html))
           (fun _ => Ret wa_soup) (fun _ => Ret wa_soup)
           (fun _ => []) (fun _ => []) wa_search wa_finditer
           toy_listed "https://acme.com.ar/"
           {| emails := []; phones := [];
              whatsapps := ["5491145678900"; "5491122223333"] |}
           toy_listed_once eq_refl).
Defined.

Lemma text_phones_all_kept_witness :
  cleaned_phones ["4567-8900"] = map digits_and_plus ["4567-8900"]
  /\ (forall m : string,
        In m ["4567-8900"] ->
        8 <= count_digits m <= 15
        /\ 8 <= String.length (digits_and_plus m) <= 16).
Proof.
  exact (@text_phones_all_kept (fun _ : string => ["4567-8900"])
           "Tel 4567-8900 Llamar" toy_findall_sound).
Defined.

End Scraper.

(** ** main.py *)

Module Main.
Import Py.

Record Business : Type := {
  id : string;
  name : string;
  locality : string;
  provincia : option string;
  existing_website : option string;
  existing_phone : option string;
  existing_email : option string
}.

Record EnrichRequest : Type := {
  job_id : Z;
  search_id : string;
  businesses : list Business
}.

(** The row of [enrichment_jobs] whose id is the job's. *)
Record job_row : Type := {
  status : string;
  processed_businesses : nat;
  error : option string;
  finished_at : option string
}.

(** The dict passed to [.update(...)]: the columns it sets. *)
Record job_update : Type := {
  set_status : option string;
  set_processed_businesses : option nat;
  set_error : option string;
  set_finished_at : option string
}.

Definition or_else {A : Type} (new : option A) (old : A) : A :=
  match new with Some a => a | None => old end.

Definition apply_update (upd : job_update) (row : job_row) : job_row :=
  {| status := or_else (set_status upd) (status row);
     processed_businesses :=
       or_else (set_processed_businesses upd) (processed_businesses row);
     error :=
       match set_error upd with Some e => Some e | None => error row end;
     finished_at :=
       match set_finished_at upd with Some t => Some t | None => finished_at row end |}.

(** The JSON body of the callback. *)
Record callback : Type := {
  cb_job_id : Z;
  cb_search_id : string;
  cb_status : string;
  cb_processed : nat;
  cb_total : nat;
  cb_error : option string
}.

(** [type(e).__name__] and [str(e)]. *)
Definition exn_name (e : exn) : string :=
  match e with
  | NumberParseException => "NumberParseException"
  | EmailNotValidError => "EmailNotValidError"
  | Exception_ _ => "Exception"
  | BaseException_ _ => "BaseException"
  end.

Definition exn_message (e : exn) : string :=
  match e with
  | Exception_ m | BaseException_ m => m
  | _ => ""
  end.

Section Worker.

(** Everything outside the worker: the network, the store, the clock. *)
Variable World : Type.

(** The module-level [supabase] client: configured or [None]. *)
Variable supabase : bool.

(** One call of [enrich_single_business]. *)
Variable enrich_single_business :
  string -> Business -> World -> outcome unit * World.

(** [.execute()] of an update of the job's row: does the store accept it. *)
Variable execute : Z -> job_update -> World -> outcome unit * World.

(** The POST of [send_callback]. *)
Variable post : callback -> World -> outcome unit * World.

Variable now_iso : World -> string.

(** The worker's view: the world, the job's row, the callbacks posted so
    far, and the local variable [processed]. *)
Record state : Type := {
  world : World;
  job : job_row;
  posted : list callback;
  processed : nat
}.

Definition M (A : Type) : Type := state -> outcome A * state.

Definition ret {A : Type} (a : A) : M A := fun s => (Ret a, s).

Definition seq {A B : Type} (m : M A) (k : M B) : M B :=
  fun s =>
    match m s with
    | (Ret _, s') => k s'
    | (Raise e, s') => (Raise e, s')
    end.

(** [try: body / except Exception as e: handler] *)
Definition try_M {A : Type} (body : M A) (handler : exn -> M A) : M A :=
  fun s =>
    match body s with
    | (Ret a, s') => (Ret a, s')
    | (Raise e, s') =>
        if is_Exception e then handler e s' else (Raise e, s')
    end.

Definition with_world (s : state) (w : World) : state :=
  {| world := w; job := job s; posted := posted s; processed := processed s |}.

Definition call_enrich (sid : string) (business : Business) : M unit :=
  fun s =>
    let (r, w) := enrich_single_business sid business (world s) in
    (r, with_world s w).

(** [supabase.table("enrichment_jobs").update(upd).eq("id", jid).execute()] *)
Definition update_job (jid : Z) (upd : state -> job_update) : M unit :=
  fun s =>
    let (r, w) := execute jid (upd s) (world s) in
    match r with
    | Ret _ =>
        (Ret tt,
         {| world := w; job := apply_update (upd s) (job s);
            posted := posted s; processed := processed s |})
    | Raise e => (Raise e, with_world s w)
    end.

Definition if_supabase (m : M unit) : M unit :=
  if supabase then m else ret tt.

Definition set_processed (n : nat) : M unit :=
  fun s =>
    (Ret tt,
     {| world := world s; job := job s; posted := posted s; processed := n |}).

Definition incr_processed : M unit :=
  fun s => set_processed (processed s + 1) s.

(** [send_callback]: the payload, then the POST inside its own [try]. *)
Definition send_callback (jid : Z) (sid st : string) (total : nat)
    (err : option string) : M unit :=
  fun s =>
    let payload :=
      {| cb_job_id := jid; cb_search_id := sid; cb_status := st;
         cb_processed := processed s; cb_total := total;
         cb_error :=
           match err with
           | Some e => if Str.truthy e then Some (substring 0 500 e) else None
           | None => None
           end |} in
    let (r, w) := post payload (world s) in
    let s' :=
      {| world := w; job := job s; posted := posted s ++ [payload];
         processed := processed s |} in
    match r with
    | Ret _ => (Ret tt, s')
    | Raise e => if is_Exception e then (Ret tt, s') else (Raise e, s')
    end.

Definition progress (s : state) : job_update :=
  {| set_status := None;
     set_processed_businesses := Some (processed s);
     set_error := None;
     set_finished_at := None |}.

Definition done (s : state) : job_update :=
  {| set_status := Some "done";
     set_processed_businesses := Some (processed s);
     set_error := None;
     set_finished_at := Some (now_iso (world s)) |}.

Definition failed (error_msg : string) (s : state) : job_update :=
  {| set_status := Some "failed";
     set_processed_businesses := Some (processed s);
     set_error := Some (substring 0 500 error_msg);
     set_finished_at := Some (now_iso (world s)) |}.

(** Lines 95-108: the loop over the businesses. *)
Fixpoint for_businesses (jid : Z) (sid : string) (bs : list Business) : M unit :=
  match bs with
  | [] => ret tt
  | business :: rest =>
      seq (try_M (call_enrich sid business) (fun _ => ret tt))
        (seq incr_processed
           (seq (if_supabase (update_job jid progress))
              (for_businesses jid sid rest)))
  end.

(** Lines 94-120: the body of the outer [try]. *)
Definition attempt (request : EnrichRequest) : M unit :=
  let total := List.length (businesses request) in
  seq (for_businesses (job_id request) (search_id request) (businesses request))
    (seq (if_supabase (update_job (job_id request) done))
       (send_callback (job_id request) (search_id request) "done" total None)).

Definition process_enrichment (request : EnrichRequest) : M unit :=
  let total := List.length (businesses request) in
  seq (set_processed 0)
    (try_M (attempt request)
       (fun e =>
          let error_msg :=
            String.append (exn_name e) (String.append ": " (exn_message e)) in
          seq (if_supabase (update_job (job_id request) (failed error_msg)))
            (send_callback (job_id request) (search_id request) "failed"
               total (Some error_msg)))).

(** *** The batch *)

(** What the claim assumes of a run: enrichment raises nothing beyond
    [Exception], the store accepts the updates of the job's row, and the
    POST raises nothing beyond [Exception]. *)
Definition enrich_raises_exceptions_only : Prop :=
  forall sid business w e,
    fst (enrich_single_business sid business w) = Raise e ->
    is_Exception e = true.

Definition store_accepts_updates : Prop :=
  forall jid upd w, fst (execute jid upd w) = Ret tt.

Definition post_raises_exceptions_only : Prop :=
  forall payload w e, fst (post payload w) = Raise e -> is_Exception e = true.

(** The rest of the loop body, after the inner [try]. *)
Definition after_business (jid : Z) (sid : string) (rest : list Business) : M unit :=
  seq incr_processed
    (seq (if_supabase (update_job jid progress)) (for_businesses jid sid rest)).

(** A business whose enrichment raises an [Exception] is passed over
    like one whose enrichment returns. *)
Lemma failed_business_is_counted jid sid business rest s e :
  fst (enrich_single_business sid business (world s)) = Raise e ->
  is_Exception e = true ->
  for_businesses jid sid (business :: rest) s
  = after_business jid sid rest
      (with_world s (snd (enrich_single_business sid business (world s)))).
Proof.
  intros Hraise Hcls. cbn [for_businesses]. unfold seq at 1, try_M, call_enrich.
  destruct (enrich_single_business sid business (world s)) as [r w].
  simpl in Hraise. subst r. now rewrite Hcls.
Qed.

Lemma enriched_business_is_counted jid sid business rest s :
  fst (enrich_single_business sid business (world s)) = Ret tt ->
  for_businesses jid sid (business :: rest) s
  = after_business jid sid rest
      (with_world s (snd (enrich_single_business sid business (world s)))).
Proof.
  intros Hret. cbn [for_businesses]. unfold seq at 1, try_M, call_enrich.
  destruct (enrich_single_business sid business (world s)) as [r w].
  simpl in Hret. now subst r.
Qed.

Lemma update_job_accepted jid upd s :
  store_accepts_updates ->
  update_job jid upd s
  = (Ret tt,
     {| world := snd (execute jid (upd s) (world s));
        job := apply_update (upd s) (job s);
        posted := posted s; processed := processed s |}).
Proof.
  intros Hstore. unfold update_job. specialize (Hstore jid (upd s) (world s)).
  destruct (execute jid (upd s) (world s)) as [r w]. simpl in Hstore.
  now subst r.
Qed.

Lemma seq_ret {A B : Type} (m : M A) (k : M B) s a s' :
  m s = (Ret a, s') -> seq m k s = k s'.
Proof. intros Hm. unfold seq. now rewrite Hm. Qed.

Lemma if_supabase_update_accepted jid upd s :
  store_accepts_updates ->
  exists s',
    if_supabase (update_job jid upd) s = (Ret tt, s')
    /\ processed s' = processed s
    /\ posted s' = posted s
    /\ job s' = if supabase then apply_update (upd s) (job s) else job s.
Proof.
  intros Hstore. unfold if_supabase. destruct supabase.
  - rewrite (update_job_accepted _ _ _ Hstore). eexists. repeat split.
  - exists s. repeat split.
Qed.

(** The loop invariant: nothing escapes, [processed] advances by one per
    business, no callback is posted and the status is not touched. *)
Lemma for_businesses_runs jid sid bs :
  enrich_raises_exceptions_only ->
  store_accepts_updates ->
  forall s,
  exists s',
    for_businesses jid sid bs s = (Ret tt, s')
    /\ processed s' = processed s + List.length bs
    /\ posted s' = posted s
    /\ status (job s') = status (job s).
Proof.
  intros Henrich Hstore. induction bs as [| business rest IH]; intros s.
  - exists s. cbn. repeat split. lia.
  - assert (Hstep : for_businesses jid sid (business :: rest) s
                    = after_business jid sid rest
                        (with_world s
                           (snd (enrich_single_business sid business (world s))))).
    { destruct (fst (enrich_single_business sid business (world s)))
        as [[] | e] eqn:Hr.
      - now apply enriched_business_is_counted.
      - apply failed_business_is_counted with (e := e); [exact Hr |].
        exact (Henrich _ _ _ _ Hr). }
    rewrite Hstep. unfold after_business.
    erewrite seq_ret by reflexivity.
    match goal with |- context [seq (if_supabase ?m) _ ?s0] =>
      destruct (if_supabase_update_accepted jid progress s0 Hstore)
        as [s1 [Hupd [Hproc1 [Hposted1 Hjob1]]]] end.
    erewrite seq_ret by exact Hupd.
    destruct (IH s1) as [s2 [Hrest [Hproc2 [Hposted2 Hstatus2]]]].
    exists s2. split; [exact Hrest |].
    rewrite Hproc2, Hposted2, Hstatus2, Hproc1, Hposted1, Hjob1.
    cbn. repeat split; [lia |]. now destruct supabase.
Qed.

Definition done_callback (request : EnrichRequest) : callback :=
  {| cb_job_id := job_id request; cb_search_id := search_id request;
     cb_status := "done";
     cb_processed := List.length (businesses request);
     cb_total := List.length (businesses request);
     cb_error := None |}.

(** With nothing else failing, the body of the outer [try] returns. *)
Lemma attempt_done (request : EnrichRequest) (s : state) :
  enrich_raises_exceptions_only ->
  store_accepts_updates ->
  post_raises_exceptions_only ->
  processed s = 0 ->
  exists s',
    attempt request s = (Ret tt, s')
    /\ processed s' = List.length (businesses request)
    /\ posted s' = posted s ++ [done_callback request]
    /\ (supabase = true ->
        status (job s') = "done"
        /\ processed_businesses (job s') = List.length (businesses request)).
Proof.
  intros Henrich Hstore Hpost Hzero. unfold attempt.
  destruct (for_businesses_runs (job_id request) (search_id request)
              (businesses request) Henrich Hstore s)
    as [s1 [Hloop [Hproc1 [Hposted1 Hstatus1]]]].
  erewrite seq_ret by exact Hloop.
  destruct (if_supabase_update_accepted (job_id request) done s1 Hstore)
    as [s2 [Hupd [Hproc2 [Hposted2 Hjob2]]]].
  erewrite seq_ret by exact Hupd.
  assert (Hp2 : processed s2 = List.length (businesses request)) by lia.
  assert (Hp1 : processed s1 = List.length (businesses request)) by lia.
  unfold send_callback. rewrite Hp2. fold (done_callback request).
  pose proof (Hpost (done_callback request) (world s2)) as Hcls.
  destruct (post (done_callback request) (world s2)) as [r w].
  eexists. split.
  - destruct r as [[] | e]; [reflexivity |].
    now rewrite (Hcls e eq_refl).
  - cbn [processed posted job]. rewrite Hposted2, Hposted1.
    split; [reflexivity |]. split; [reflexivity |].
    intros Hsup. rewrite Hjob2, Hsup. cbn. split; [reflexivity | exact Hp1].
Qed.

(** C9, as the code has it.  An [Exception] raised while one business
    is enriched is caught in the loop, which goes on with the next
    business after counting the failed one; and when enrichment raises
    nothing beyond [Exception], the store accepts every update of the
    job's row, the final [done] update included, and the POST of the
    callback raises nothing beyond [Exception], the job ends [done] with
    [processed] equal to the number of businesses, whether or not some
    of them raised: [process_enrichment] returns, one callback is posted
    and it says so, and so does the job's row when the store is
    configured. *)
Theorem batch_survives_business_failures (request : EnrichRequest) (s : state) :
  enrich_raises_exceptions_only ->
  store_accepts_updates ->
  post_raises_exceptions_only ->
  (forall business rest s0 e,
      fst (enrich_single_business (search_id request) business (world s0))
      = Raise e ->
      for_businesses (job_id request) (search_id request) (business :: rest) s0
      = after_business (job_id request) (search_id request) rest
          (with_world s0
             (snd (enrich_single_business (search_id request) business
                     (world s0)))))
  /\ fst (process_enrichment request s) = Ret tt
  /\ processed (snd (process_enrichment request s))
     = List.length (businesses request)
  /\ posted (snd (process_enrichment request s))
     = posted s ++ [done_callback request]
  /\ (supabase = true ->
      status (job (snd (process_enrichment request s))) = "done"
      /\ processed_businesses (job (snd (process_enrichment request s)))
         = List.length (businesses request)).
Proof.
  intros Henrich Hstore Hpost. split.
  { intros business rest s0 e Hraise.
    apply failed_business_is_counted with (e := e); [exact Hraise |].
    exact (Henrich _ _ _ _ Hraise). }
  unfold process_enrichment. erewrite seq_ret by reflexivity.
  unfold try_M.
  match goal with |- context [attempt request ?s0] =>
    destruct (attempt_done request s0 Henrich Hstore Hpost eq_refl)
      as [s1 [Hattempt Hfacts]] end.
  rewrite Hattempt. cbn [fst snd]. split; [reflexivity | exact Hfacts].
Qed.
(** *** Runs in any world *)

(** The lemmas below assume nothing of the network, the store or the
    clock. *)

Lemma substring_length_le (n : nat) : forall s : string,
  String.length (substring 0 n s) <= n.
Proof.
  induction n as [| n IH]; intros [| c s]; simpl; try lia.
  specialize (IH s). lia.
Qed.

Lemma substring_nonempty (n : nat) (c : ascii) (s : string) :
  1 <= String.length (substring 0 (S n) (String c s)).
Proof. simpl. lia. Qed.

Lemma error_msg_nonempty (e : exn) :
  exists c s,
    String.append (exn_name e) (String.append ": " (exn_message e)) = String c s.
Proof. destruct e; simpl; eauto. Qed.

(** The payload [send_callback] builds. *)
Definition payload_of (jid : Z) (sid st : string) (total : nat)
    (err : option string) (s : state) : callback :=
  {| cb_job_id := jid; cb_search_id := sid; cb_status := st;
     cb_processed := processed s; cb_total := total;
     cb_error :=
       match err with
       | Some e => if Str.truthy e then Some (substring 0 500 e) else None
       | None => None
       end |}.

Lemma seq_inv {A B : Type} (m : M A) (k : M B) s r s' :
  seq m k s = (r, s') ->
  (exists a s1, m s = (Ret a, s1) /\ k s1 = (r, s'))
  \/ (exists e, m s = (Raise e, s') /\ r = Raise e).
Proof.
  unfold seq. destruct (m s) as [[a | e] s1].
  - intros Hk. left. now exists a, s1.
  - intros H. inversion H; subst. right. now exists e.
Qed.

Lemma try_M_inv {A : Type} (body : M A) (handler : exn -> M A) s r s' :
  try_M body handler s = (r, s') ->
  (exists a, body s = (Ret a, s') /\ r = Ret a)
  \/ (exists e s1, body s = (Raise e, s1) /\ is_Exception e = true
                   /\ handler e s1 = (r, s'))
  \/ (exists e, body s = (Raise e, s') /\ is_Exception e = false
                /\ r = Raise e).
Proof.
  unfold try_M. destruct (body s) as [[a | e] s1].
  - intros H. inversion H; subst. left. now exists a.
  - destruct (is_Exception e) eqn:Hcls.
    + intros Hh. right. left. now exists e, s1.
    + intros H. inversion H; subst. right. right. now exists e.
Qed.

Lemma call_enrich_inv sid business s r s' :
  call_enrich sid business s = (r, s') ->
  posted s' = posted s /\ job s' = job s /\ processed s' = processed s.
Proof.
  unfold call_enrich.
  destruct (enrich_single_business sid business (world s)) as [r0 w].
  intros H. inversion H; subst. now repeat split.
Qed.

Lemma update_job_inv jid upd s r s' :
  update_job jid upd s = (r, s') ->
  posted s' = posted s /\ processed s' = processed s
  /\ ((r = Ret tt /\ job s' = apply_update (upd s) (job s))
      \/ ((exists e, r = Raise e) /\ job s' = job s)).
Proof.
  unfold update_job. destruct (execute jid (upd s) (world s)) as [[a | e] w];
    intros H; inversion H; subst; cbn; repeat split.
  - now left.
  - right. split; [now exists e | reflexivity].
Qed.

Lemma if_supabase_inv jid upd s r s' :
  if_supabase (update_job jid upd) s = (r, s') ->
  posted s' = posted s /\ processed s' = processed s
  /\ ((r = Ret tt
       /\ job s' = if supabase then apply_update (upd s) (job s) else job s)
      \/ (supabase = true /\ (exists e, r = Raise e) /\ job s' = job s)).
Proof.
  unfold if_supabase. destruct supabase.
  - intros H. apply update_job_inv in H.
    destruct H as [Hposted [Hproc [[Hr Hjob] | [Hr Hjob]]]];
      repeat split; auto.
  - intros H. inversion H; subst. repeat split. now left.
Qed.

Lemma send_callback_inv jid sid st total err s r s' :
  send_callback jid sid st total err s = (r, s') ->
  posted s' = posted s ++ [payload_of jid sid st total err s]
  /\ job s' = job s /\ processed s' = processed s
  /\ (r = Ret tt \/ exists e, r = Raise e /\ is_Exception e = false).
Proof.
  unfold send_callback. cbv zeta. fold (payload_of jid sid st total err s).
  destruct (post (payload_of jid sid st total err s) (world s)) as [[[] | e] w].
  - intros H. inversion H; subst. cbn. repeat split. now left.
  - destruct (is_Exception e) eqn:Hcls; intros H; inversion H; subst; cbn;
      repeat split; [now left | right; now exists e].
Qed.

(** What the loop keeps, however it ends: no callback, the status, error
    and finish time of the row, and [processed] within the number of
    businesses; it raises an [Exception] only out of the store. *)
Lemma for_businesses_inv jid sid bs : forall s r s',
  for_businesses jid sid bs s = (r, s') ->
  posted s' = posted s
  /\ status (job s') = status (job s)
  /\ error (job s') = error (job s)
  /\ finished_at (job s') = finished_at (job s)
  /\ (supabase = false -> job s' = job s)
  /\ processed s <= processed s' <= processed s + List.length bs
  /\ (r = Ret tt -> processed s' = processed s + List.length bs)
  /\ (forall e, r = Raise e -> is_Exception e = true -> supabase = true).
Proof.
  induction bs as [| business rest IH]; intros s r s' Hrun.
  - inversion Hrun; subst. cbn. repeat split; try lia. discriminate.
  - cbn [for_businesses] in Hrun. apply seq_inv in Hrun.
    destruct Hrun as [[a [s1 [Htry Hrun]]] | [e [Htry ->]]].
    + assert (H1 : posted s1 = posted s /\ job s1 = job s
                   /\ processed s1 = processed s).
      { apply try_M_inv in Htry.
        destruct Htry as [[a' [Hb _]] | [[e [s0 [Hb [_ Hh]]]] | [e [_ [_ Hr]]]]].
        - exact (call_enrich_inv _ _ _ Hb).
        - inversion Hh; subst. exact (call_enrich_inv _ _ _ Hb).
        - discriminate Hr. }
      destruct H1 as [Hposted1 [Hjob1 Hproc1]].
      apply seq_inv in Hrun.
      destruct Hrun as [[a2 [s2 [Hincr Hrun]]] | [e [Hincr _]]];
        [| discriminate Hincr].
      inversion Hincr; subst s2. clear Hincr.
      apply seq_inv in Hrun.
      destruct Hrun as [[a3 [s3 [Hupd Hrun]]] | [e [Hupd ->]]].
      * apply if_supabase_inv in Hupd. cbn in Hupd.
        destruct Hupd as [Hposted3 [Hproc3 [[_ Hjob3] | [_ [[e He] _]]]]];
          [| discriminate He].
        apply IH in Hrun.
        destruct Hrun as [Hp [Hs [He [Hf [Hno [Hle [Hret Hexn]]]]]]].
        rewrite Hp, Hs, He, Hf, Hposted3, Hjob3, Hjob1, Hposted1.
        rewrite Hproc3, Hproc1 in Hle, Hret. cbn [List.length].
        split; [reflexivity |].
        split; [now destruct supabase |].
        split; [now destruct supabase |].
        split; [now destruct supabase |].
        split; [intros Hsup; rewrite (Hno Hsup), Hjob3, Hsup; exact Hjob1 |].
        split; [lia |]. split; [intros Hr; specialize (Hret Hr); lia |].
        exact Hexn.
      * apply if_supabase_inv in Hupd. cbn in Hupd.
        destruct Hupd as [Hposted3 [Hproc3 [[Hr _] | [Hsup [_ Hjob3]]]]];
          [discriminate Hr |].
        rewrite Hposted3, Hjob3, Hjob1, Hposted1, Hproc3, Hproc1.
        cbn [List.length].
        split; [reflexivity |]. split; [reflexivity |].
        split; [reflexivity |]. split; [reflexivity |].
        split; [intros Hc; congruence |]. split; [lia |].
        split; [discriminate |]. intros e0 _ _. exact Hsup.
    + apply try_M_inv in Htry.
      destruct Htry as [[a' [_ Hr]] | [[e0 [s0 [_ [_ Hh]]]] | [e0 [Hb [Hcls Hr]]]]].
      * discriminate Hr.
      * inversion Hh.
      * inversion Hr; subst e0.
        destruct (call_enrich_inv _ _ _ Hb) as [Hposted1 [Hjob1 Hproc1]].
        rewrite Hposted1, Hjob1, Hproc1. cbn [List.length].
        split; [reflexivity |]. split; [reflexivity |].
        split; [reflexivity |]. split; [reflexivity |].
        split; [reflexivity |]. split; [lia |].
        split; [discriminate |].
        intros e1 He1 Hcls1. inversion He1; subst e1. congruence.
Qed.

(** How the body of the outer [try] ends: before any callback, with the
    row's status as it was; or after the [done] update and the [done]
    callback. *)
Lemma attempt_inv (request : EnrichRequest) s r s' :
  attempt request s = (r, s') ->
  (supabase = false -> job s' = job s)
  /\ processed s <= processed s' <= processed s + List.length (businesses request)
  /\ ((posted s' = posted s
       /\ (exists e, r = Raise e)
       /\ (forall e, r = Raise e -> is_Exception e = true -> supabase = true)
       /\ status (job s') = status (job s)
       /\ error (job s') = error (job s)
       /\ finished_at (job s') = finished_at (job s))
      \/ (processed s' = processed s + List.length (businesses request)
          /\ posted s'
             = posted s
               ++ [payload_of (job_id request) (search_id request) "done"
                     (List.length (businesses request)) None s']
          /\ (r = Ret tt \/ exists e, r = Raise e /\ is_Exception e = false)
          /\ (supabase = true ->
              status (job s') = "done"
              /\ processed_businesses (job s') = processed s'
              /\ error (job s') = error (job s)
              /\ exists w, finished_at (job s') = Some (now_iso w)))).
Proof.
  unfold attempt. cbv zeta. intros Hrun. apply seq_inv in Hrun.
  destruct Hrun as [[a [s1 [Hloop Hrun]]] | [e [Hloop ->]]].
  - apply for_businesses_inv in Hloop.
    destruct Hloop as [Hp1 [Hs1 [He1 [Hf1 [Hno1 [Hle1 [Hret1 _]]]]]]].
    specialize (Hret1 ltac:(now destruct a)).
    apply seq_inv in Hrun.
    destruct Hrun as [[a2 [s2 [Hupd Hrun]]] | [e [Hupd ->]]].
    + apply if_supabase_inv in Hupd.
      destruct Hupd as [Hp2 [Hproc2 [[_ Hjob2] | [_ [[e He] _]]]]];
        [| discriminate He].
      apply send_callback_inv in Hrun.
      destruct Hrun as [Hp3 [Hjob3 [Hproc3 Hr]]].
      split; [intros Hsup; rewrite Hjob3, Hjob2, Hsup; now apply Hno1 |].
      split; [lia |]. right.
      split; [lia |].
      split; [rewrite Hp3, Hp2, Hp1; unfold payload_of; now rewrite Hproc3 |].
      split; [exact Hr |].
      intros Hsup. rewrite Hjob3, Hjob2, Hsup. cbn.
      split; [reflexivity |]. split; [lia |]. split; [exact He1 |].
      now exists (world s1).
    + apply if_supabase_inv in Hupd.
      destruct Hupd as [Hp2 [Hproc2 [[Hr _] | [Hsup [_ Hjob2]]]]];
        [discriminate Hr |].
      split; [rewrite Hsup; discriminate |]. split; [lia |]. left.
      rewrite Hp2, Hjob2.
      split; [exact Hp1 |]. split; [now exists e |].
      split; [intros e0 _ _; exact Hsup |].
      split; [exact Hs1 |]. split; [exact He1 | exact Hf1].
  - apply for_businesses_inv in Hloop.
    destruct Hloop as [Hp1 [Hs1 [He1 [Hf1 [Hno1 [Hle1 [_ Hexn1]]]]]]].
    split; [exact Hno1 |]. split; [exact Hle1 |]. left.
    split; [exact Hp1 |]. split; [now exists e |].
    split; [exact Hexn1 |].
    split; [exact Hs1 |]. split; [exact He1 | exact Hf1].
Qed.

(** The message the outer [except] builds. *)
Definition error_msg_of (e : exn) : string :=
  String.append (exn_name e) (String.append ": " (exn_message e)).

(** How a run ends. *)
Inductive ending (request : EnrichRequest) (s : state) (r : outcome unit)
    (s' : state) : Prop :=
| ended_done :
    (r = Ret tt \/ exists e, r = Raise e /\ is_Exception e = false) ->
    processed s' = List.length (businesses request) ->
    posted s'
    = posted s
      ++ [payload_of (job_id request) (search_id request) "done"
            (List.length (businesses request)) None s'] ->
    (supabase = false -> job s' = job s) ->
    (supabase = true ->
     status (job s') = "done" /\ processed_businesses (job s') = processed s'
     /\ error (job s') = error (job s)
     /\ exists w, finished_at (job s') = Some (now_iso w)) ->
    ending request s r s'
| ended_failed (e : exn) :
    (r = Ret tt \/ exists e', r = Raise e' /\ is_Exception e' = false) ->
    is_Exception e = true ->
    supabase = true ->
    processed s' <= List.length (businesses request) ->
    posted s'
    = posted s
      ++ [payload_of (job_id request) (search_id request) "failed"
            (List.length (businesses request)) (Some (error_msg_of e)) s'] ->
    status (job s') = "failed" ->
    processed_businesses (job s') = processed s' ->
    error (job s') = Some (substring 0 500 (error_msg_of e)) ->
    (exists w, finished_at (job s') = Some (now_iso w)) ->
    ending request s r s'
| ended_open (e : exn) :
    r = Raise e ->
    (is_Exception e = true -> supabase = true) ->
    (supabase = false -> job s' = job s) ->
    processed s' <= List.length (businesses request) ->
    posted s' = posted s ->
    status (job s') = status (job s) ->
    error (job s') = error (job s) ->
    finished_at (job s') = finished_at (job s) ->
    ending request s r s'.

Lemma process_enrichment_ending (request : EnrichRequest) s r s' :
  process_enrichment request s = (r, s') -> ending request s r s'.
Proof.
  unfold process_enrichment. cbv zeta. intros Hrun. apply seq_inv in Hrun.
  destruct Hrun as [[a [s0 [Hset Hrun]]] | [e [Hset _]]];
    [| discriminate Hset].
  inversion Hset; subst s0. clear Hset. apply try_M_inv in Hrun.
  destruct Hrun as [[a' [Hb ->]] | [[e [s1 [Hb [Hcls Hh]]]] | [e [Hb [Hcls ->]]]]].
  - apply attempt_inv in Hb. cbn [posted job processed] in Hb.
    destruct Hb as [Hno [Hle [[_ [[e He] _]] | [Hproc [Hposted [Hr Hjob]]]]]];
      [discriminate He |].
    apply ended_done; solve [assumption | lia].
  - apply attempt_inv in Hb. cbn [posted job processed] in Hb.
    destruct Hb as [Hno [Hle [[Hposted [_ [Hsup [Hs [He Hf]]]]]
                              | [_ [_ [[Hr | [e' [Hr Hcls']]] _]]]]]];
      [| discriminate Hr | inversion Hr; congruence].
    specialize (Hsup e eq_refl Hcls).
    fold (error_msg_of e) in Hh. apply seq_inv in Hh.
    destruct Hh as [[a2 [s2 [Hupd Hh]]] | [e2 [Hupd ->]]].
    + apply if_supabase_inv in Hupd.
      destruct Hupd as [Hp2 [Hproc2 [[_ Hjob2] | [_ [[e2 He2] _]]]]];
        [| discriminate He2].
      apply send_callback_inv in Hh.
      destruct Hh as [Hp3 [Hjob3 [Hproc3 Hr]]].
      apply ended_failed with (e := e);
        [ exact Hr | exact Hcls | exact Hsup | lia
        | rewrite Hp3, Hp2, Hposted; unfold payload_of; now rewrite Hproc3
        | rewrite Hjob3, Hjob2, Hsup; reflexivity
        | rewrite Hjob3, Hjob2, Hsup; cbn; lia
        | rewrite Hjob3, Hjob2, Hsup; reflexivity
        | rewrite Hjob3, Hjob2, Hsup; cbn; now exists (world s1) ].
    + apply if_supabase_inv in Hupd.
      destruct Hupd as [Hp2 [Hproc2 [[Hr _] | [_ [_ Hjob2]]]]];
        [discriminate Hr |].
      apply ended_open with (e := e2);
        [ reflexivity | now intros _ | rewrite Hsup; discriminate | lia
        | now rewrite Hp2 | now rewrite Hjob2 | now rewrite Hjob2
        | now rewrite Hjob2 ].
  - apply attempt_inv in Hb. cbn [posted job processed] in Hb.
    destruct Hb as [Hno [Hle [[Hposted [_ [Hsup [Hs [He Hf]]]]]
                              | [Hproc [Hposted [Hr Hjob]]]]]].
    + apply ended_open with (e := e);
        [ reflexivity | intros Hc; congruence | exact Hno | lia
        | exact Hposted | exact Hs | exact He | exact Hf ].
    + apply ended_done;
        [ right; now exists e | lia | exact Hposted | exact Hno | exact Hjob ].
Qed.
(** X16. A run posts at most one callback, and exactly one when it
    returns.  The callback carries the job's ids, the number of
    businesses as [total] and the final [processed], which is at most
    [total]; it says [done] with [processed] equal to [total] and no
    error, or [failed] with an error of 1 to 500 characters, the latter
    only when the store is configured. *)
Theorem one_callback_per_run (request : EnrichRequest) (s : state)
    (r : outcome unit) (s' : state) :
  process_enrichment request s = (r, s') ->
  exists cbs : list callback,
    posted s' = posted s ++ cbs
    /\ List.length cbs <= 1
    /\ (r = Ret tt -> List.length cbs = 1)
    /\ (forall cb : callback,
          In cb cbs ->
          cb_job_id cb = job_id request
          /\ cb_search_id cb = search_id request
          /\ cb_total cb = List.length (businesses request)
          /\ cb_processed cb = processed s'
          /\ cb_processed cb <= cb_total cb
          /\ ((cb_status cb = "done" /\ cb_processed cb = cb_total cb
               /\ cb_error cb = None)
              \/ (cb_status cb = "failed" /\ supabase = true
                  /\ exists msg : string,
                       cb_error cb = Some msg
                       /\ 1 <= String.length msg <= 500))).
Proof.
  intros Hrun. apply process_enrichment_ending in Hrun.
  destruct Hrun as [Hr Hproc Hposted Hno Hjob
                   | e Hr Hcls Hsup Hproc Hposted Hs Hpb Herr Hfin
                   | e Hr Hcls Hno Hproc Hposted Hs Herr Hfin].
  - eexists. split; [exact Hposted |]. split; [simpl; lia |].
    split; [reflexivity |].
    intros cb [<- | []]. cbn. rewrite Hproc.
    split; [reflexivity |]. split; [reflexivity |]. split; [reflexivity |].
    split; [reflexivity |]. split; [lia |]. left. now repeat split.
  - eexists. split; [exact Hposted |]. split; [simpl; lia |].
    split; [reflexivity |].
    intros cb [<- | []]. cbn [payload_of cb_job_id cb_search_id cb_total
                               cb_processed cb_status cb_error].
    split; [reflexivity |]. split; [reflexivity |]. split; [reflexivity |].
    split; [reflexivity |]. split; [exact Hproc |]. right.
    split; [reflexivity |]. split; [exact Hsup |].
    destruct (error_msg_nonempty e) as [c [rest Hmsg]].
    unfold error_msg_of. rewrite Hmsg. cbn [Str.truthy].
    eexists. split; [reflexivity |].
    split; [apply substring_nonempty | apply substring_length_le].
  - exists []. rewrite app_nil_r. split; [exact Hposted |].
    split; [simpl; lia |]. split; [subst r; discriminate |].
    intros cb [].
Qed.

(** X17. Without a store the job's row is never written, nothing the run
    raises is an [Exception], and the only callback a run can add is the
    [done] callback with [processed] equal to [total]: such a run never
    reports a failure. *)
Theorem without_store_never_failed (request : EnrichRequest) (s : state)
    (r : outcome unit) (s' : state) :
  supabase = false ->
  process_enrichment request s = (r, s') ->
  job s' = job s
  /\ (forall e : exn, r = Raise e -> is_Exception e = false)
  /\ (posted s' = posted s \/ posted s' = posted s ++ [done_callback request])
  /\ (r = Ret tt -> posted s' = posted s ++ [done_callback request]).
Proof.
  intros Hsup Hrun. apply process_enrichment_ending in Hrun.
  destruct Hrun as [Hr Hproc Hposted Hno Hjob
                   | e Hr Hcls Hsup' Hproc Hposted Hs Hpb Herr Hfin
                   | e Hr Hcls Hno Hproc Hposted Hs Herr Hfin].
  - assert (Hcb : posted s' = posted s ++ [done_callback request]).
    { rewrite Hposted at 1. unfold payload_of, done_callback.
      now rewrite Hproc. }
    split; [exact (Hno Hsup) |].
    split; [| split; [now right | now intros _]].
    intros e He. destruct Hr as [Hr | [e' [Hr Hcls]]]; [congruence |].
    rewrite Hr in He. inversion He; subst. exact Hcls.
  - congruence.
  - split; [exact (Hno Hsup) |].
    split; [| split; [now left | subst r; discriminate]].
    intros e' He'. rewrite Hr in He'. inversion He'; subst e'.
    destruct (is_Exception e) eqn:Hc; [| reflexivity].
    specialize (Hcls eq_refl). congruence.
Qed.

(** X18. With a store, a run that returns leaves the job finished: the
    row has a finish time and the final [processed], its status is
    [done] or [failed], and the one callback posted says the same; a
    [done] row counts every business, a [failed] row holds the first 500
    characters of the message built from an [Exception], which the
    callback repeats. *)
Theorem returned_run_is_terminal (request : EnrichRequest) (s s' : state) :
  supabase = true ->
  process_enrichment request s = (Ret tt, s') ->
  (exists w : World, finished_at (job s') = Some (now_iso w))
  /\ processed_businesses (job s') = processed s'
  /\ processed s' <= List.length (businesses request)
  /\ exists cb : callback,
       posted s' = posted s ++ [cb]
       /\ cb_status cb = status (job s')
       /\ cb_processed cb = processed s'
       /\ ((status (job s') = "done"
            /\ processed s' = List.length (businesses request)
            /\ error (job s') = error (job s)
            /\ cb_error cb = None)
           \/ (status (job s') = "failed"
               /\ exists e : exn,
                    is_Exception e = true
                    /\ error (job s') = Some (substring 0 500 (error_msg_of e))
                    /\ cb_error cb = error (job s'))).
Proof.
  intros Hsup Hrun. apply process_enrichment_ending in Hrun.
  destruct Hrun as [Hr Hproc Hposted Hno Hjob
                   | e Hr Hcls _ Hproc Hposted Hs Hpb Herr Hfin
                   | e Hr Hcls Hno Hproc Hposted Hs Herr Hfin].
  - destruct (Hjob Hsup) as [Hs [Hpb [Herr Hfin]]].
    split; [exact Hfin |]. split; [exact Hpb |]. split; [lia |].
    eexists. split; [exact Hposted |]. cbn. rewrite Hs.
    split; [reflexivity |]. split; [reflexivity |]. left.
    split; [reflexivity |]. split; [exact Hproc |].
    split; [exact Herr | reflexivity].
  - split; [exact Hfin |]. split; [exact Hpb |]. split; [exact Hproc |].
    eexists. split; [exact Hposted |].
    cbn [payload_of cb_status cb_processed cb_error]. rewrite Hs.
    split; [reflexivity |]. split; [reflexivity |]. right.
    split; [reflexivity |]. exists e. split; [exact Hcls |].
    split; [exact Herr |]. rewrite Herr.
    destruct (error_msg_nonempty e) as [c [rest Hmsg]].
    unfold error_msg_of. now rewrite Hmsg.
  - discriminate Hr.
Qed.

(** X19. When an [Exception] leaves [process_enrichment], which only a
    store that rejects the [failed] update brings about, no callback was
    posted and the row keeps its status, error and finish time: the job
    is left unfinished. *)
Theorem escaping_exception_leaves_job_open (request : EnrichRequest)
    (s : state) (e : exn) (s' : state) :
  process_enrichment request s = (Raise e, s') ->
  is_Exception e = true ->
  supabase = true
  /\ posted s' = posted s
  /\ status (job s') = status (job s)
  /\ error (job s') = error (job s)
  /\ finished_at (job s') = finished_at (job s).
Proof.
  intros Hrun Hexn. apply process_enrichment_ending in Hrun.
  destruct Hrun as [Hr Hproc Hposted Hno Hjob
                   | e0 Hr Hcls Hsup Hproc Hposted Hs Hpb Herr Hfin
                   | e0 Hr Hcls Hno Hproc Hposted Hs Herr Hfin].
  - destruct Hr as [Hr | [e' [Hr Hcls]]]; [discriminate Hr |].
    inversion Hr; subst e'. congruence.
  - destruct Hr as [Hr | [e' [Hr Hcls']]]; [discriminate Hr |].
    inversion Hr; subst e'. congruence.
  - inversion Hr; subst e0.
    split; [exact (Hcls Hexn) |]. split; [exact Hposted |].
    split; [exact Hs |]. split; [exact Herr | exact Hfin].
Qed.

End Worker.

(** *** A batch of three, the second of which fails *)

Definition business (i n : string) : Business :=
  {| id := i; name := n; locality := "Belgrano"; provincia := None;
     existing_website := None; existing_phone := None; existing_email := None |}.

Definition three : EnrichRequest :=
  {| job_id := 7; search_id := "run-1";
     businesses := [ business "b1" "La Farola"; business "b2" "El Cuartito";
                     business "b3" "Guerrin" ] |}.

(** The world is the list of the businesses whose contacts were stored. *)
Definition toy_enrich (sid : string) (b : Business) (w : list string)
  : outcome unit * list string :=
  if String.eqb (id b) "b2" then (Raise (Exception_ "extraction failed"), w)
  else (Ret tt, w ++ [id b]).

Definition toy_execute (jid : Z) (upd : job_update) (w : list string)
  : outcome unit * list string := (Ret tt, w).

Definition toy_post (payload : callback) (w : list string)
  : outcome unit * list string := (Ret tt, w).

Definition toy_now (w : list string) : string := "2024-05-01T12:00:00+00:00".

Definition pending : state (list string) :=
  {| world := [];
     job := {| status := "pending"; processed_businesses := 0;
               error := None; finished_at := None |};
     posted := [];
     processed := 0 |}.

Definition run_three : outcome unit * state (list string) :=
  process_enrichment true toy_enrich toy_execute toy_post toy_now three pending.

Example three_businesses_second_fails :
  run_three
  = (Ret tt,
     {| world := ["b1"; "b3"];
        job := {| status := "done"; processed_businesses := 3;
                  error := None;
                  finished_at := Some "2024-05-01T12:00:00+00:00" |};
        posted := [ {| cb_job_id := 7; cb_search_id := "run-1";
                       cb_status := "done"; cb_processed := 3; cb_total := 3;
                       cb_error := None |} ];
        processed := 3 |}).
Proof. reflexivity. Qed.

(** When the store rejects the progress updates, the loop is left at the
    first business and the job ends [failed]. *)
Definition reject_progress (jid : Z) (upd : job_update) (w : list string)
  : outcome unit * list string :=
  match set_status upd with
  | None => (Raise (Exception_ "APIError"), w)
  | Some _ => (Ret tt, w)
  end.

Example progress_update_rejected :
  let out := process_enrichment true toy_enrich reject_progress toy_post toy_now
               three pending in
  fst out = Ret tt
  /\ status (job (snd out)) = "failed"
  /\ processed (snd out) = 1
  /\ error (job (snd out)) = Some "Exception: APIError"
  /\ map cb_status (posted (snd out)) = ["failed"].
Proof. repeat split. Qed.

(** The store accepts the progress updates and rejects the final [done]
    update. *)
Definition reject_done (jid : Z) (upd : job_update) (w : list string)
  : outcome unit * list string :=
  match set_status upd with
  | Some st =>
      if String.eqb st "done" then (Raise (Exception_ "APIError"), w)
      else (Ret tt, w)
  | None => (Ret tt, w)
  end.

(** Every business is enriched without raising. *)
Definition all_enriched (sid : string) (b : Business) (w : list string)
  : outcome unit * list string := (Ret tt, w ++ [id b]).

Definition run_done_rejected
    (enrich : string -> Business -> list string -> outcome unit * list string)
  : outcome unit * state (list string) :=
  process_enrichment true enrich reject_done toy_post toy_now three pending.

(** C9 fails as stated: no exception leaves the loop over the businesses,
    which counts all three, whether none of them raises or the second
    does; yet the job ends [failed], because the [done] update is made
    inside the outer [try] and the store rejects it. *)
Lemma done_update_rejected :
  for_businesses true all_enriched reject_done 7 "run-1" (businesses three)
    pending
  = (Ret tt,
     {| world := ["b1"; "b2"; "b3"];
        job := {| status := "pending"; processed_businesses := 3;
                  error := None; finished_at := None |};
        posted := [];
        processed := 3 |})
  /\ run_done_rejected all_enriched
     = (Ret tt,
        {| world := ["b1"; "b2"; "b3"];
           job := {| status := "failed"; processed_businesses := 3;
                     error := Some "Exception: APIError";
                     finished_at := Some "2024-05-01T12:00:00+00:00" |};
           posted := [ {| cb_job_id := 7; cb_search_id := "run-1";
                          cb_status := "failed"; cb_processed := 3;
                          cb_total := 3;
                          cb_error := Some "Exception: APIError" |} ];
           processed := 3 |})
  /\ fst (for_businesses true toy_enrich reject_done 7 "run-1"
            (businesses three) pending)
     = Ret tt
  /\ fst (run_done_rejected toy_enrich) = Ret tt
  /\ status (job (snd (run_done_rejected toy_enrich))) = "failed"
  /\ processed (snd (run_done_rejected toy_enrich)) = 3
  /\ world (snd (run_done_rejected toy_enrich)) = ["b1"; "b3"]
  /\ map cb_status (posted (snd (run_done_rejected toy_enrich))) = ["failed"].
Proof. repeat split. Qed.

(** A cancellation is not an [Exception]: it leaves [process_enrichment]. *)
Example cancellation_escapes :
  fst (process_enrichment true
         (fun _ _ w => (Raise (BaseException_ "CancelledError"), w))
         toy_execute toy_post toy_now three pending)
  = Raise (BaseException_ "CancelledError").
Proof. reflexivity. Qed.

Lemma toy_enrich_raises_exceptions_only :
  enrich_raises_exceptions_only toy_enrich.
Proof.
  intros sid b w e. unfold toy_enrich.
  destruct (String.eqb (id b) "b2"); simpl; intros H; inversion H; reflexivity.
Defined.

Lemma toy_store_accepts_updates : store_accepts_updates toy_execute.
Proof. intros jid upd w. reflexivity. Defined.

Lemma toy_post_raises_exceptions_only : post_raises_exceptions_only toy_post.
Proof. intros payload w e H. discriminate H. Defined.

Lemma batch_survives_business_failures_witness :
  fst run_three = Ret tt
  /\ processed (snd run_three) = 3
  /\ posted (snd run_three) = [done_callback three]
  /\ status (job (snd run_three)) = "done"
  /\ processed_businesses (job (snd run_three)) = 3.
Proof.
  destruct (@batch_survives_business_failures (list string) true
              toy_enrich toy_execute toy_post toy_now three pending
              toy_enrich_raises_exceptions_only toy_store_accepts_updates
              toy_post_raises_exceptions_only)
    as [_ [Hret [Hproc [Hposted Hjob]]]].
  destruct (Hjob eq_refl) as [Hstatus Hstored].
  repeat split; assumption.
Defined.
(** *** Runs for the properties of any world *)

Lemma one_callback_per_run_witness :
  run_three
  = (fst run_three, snd run_three)
  /\ exists cbs : list callback,
       posted (snd run_three) = posted pending ++ cbs
       /\ List.length cbs <= 1
       /\ (fst run_three = Ret tt -> List.length cbs = 1)
       /\ (forall cb : callback,
             In cb cbs ->
             cb_job_id cb = job_id three
             /\ cb_search_id cb = search_id three
             /\ cb_total cb = List.length (businesses three)
             /\ cb_processed cb = processed (snd run_three)
             /\ cb_processed cb <= cb_total cb
             /\ ((cb_status cb = "done" /\ cb_processed cb = cb_total cb
                  /\ cb_error cb = None)
                 \/ (cb_status cb = "failed" /\ true = true
                     /\ exists msg : string,
                          cb_error cb = Some msg
                          /\ 1 <= String.length msg <= 500))).
Proof.
  split; [reflexivity |].
  exact (@one_callback_per_run (list string) true toy_enrich toy_execute
           toy_post toy_now three pending (fst run_three) (snd run_three)
           eq_refl).
Defined.

(** The same batch without a store. *)
Definition run_without_store : outcome unit * state (list string) :=
  process_enrichment false toy_enrich toy_execute toy_post toy_now three pending.

Lemma without_store_never_failed_witness :
  run_without_store = (fst run_without_store, snd run_without_store)
  /\ job (snd run_without_store) = job pending
  /\ (forall e : exn, fst run_without_store = Raise e -> is_Exception e = false)
  /\ (posted (snd run_without_store) = posted pending
      \/ posted (snd run_without_store) = posted pending ++ [done_callback three])
  /\ (fst run_without_store = Ret tt ->
      posted (snd run_without_store) = posted pending ++ [done_callback three]).
Proof.
  split; [reflexivity |].
  exact (@without_store_never_failed (list string) false toy_enrich toy_execute
           toy_post toy_now three pending (fst run_without_store)
           (snd run_without_store) eq_refl eq_refl).
Defined.

(** The batch against a store that rejects the progress updates. *)
Definition run_rejected : outcome unit * state (list string) :=
  process_enrichment true toy_enrich reject_progress toy_post toy_now three pending.

Lemma returned_run_is_terminal_witness :
  run_rejected = (Ret tt, snd run_rejected)
  /\ status (job (snd run_rejected)) = "failed"
  /\ (exists w : list string,
        finished_at (job (snd run_rejected)) = Some (toy_now w))
  /\ processed_businesses (job (snd run_rejected)) = processed (snd run_rejected)
  /\ processed (snd run_rejected) <= List.length (businesses three)
  /\ exists cb : callback,
       posted (snd run_rejected) = posted pending ++ [cb]
       /\ cb_status cb = status (job (snd run_rejected))
       /\ cb_processed cb = processed (snd run_rejected)
       /\ ((status (job (snd run_rejected)) = "done"
            /\ processed (snd run_rejected) = List.length (businesses three)
            /\ error (job (snd run_rejected)) = error (job pending)
            /\ cb_error cb = None)
           \/ (status (job (snd run_rejected)) = "failed"
               /\ exists e : exn,
                    is_Exception e = true
                    /\ error (job (snd run_rejected))
                       = Some (substring 0 500 (error_msg_of e))
                    /\ cb_error cb = error (job (snd run_rejected)))).
Proof.
  split; [reflexivity |]. split; [reflexivity |].
  exact (@returned_run_is_terminal (list string) true toy_enrich reject_progress
           toy_post toy_now three pending (snd run_rejected) eq_refl eq_refl).
Defined.

(** The batch against a store that rejects every update. *)
Definition reject_all (jid : Z) (upd : job_update) (w : list string)
  : outcome unit * list string := (Raise (Exception_ "APIError"), w).

Definition run_store_down : outcome unit * state (list string) :=
  process_enrichment true toy_enrich reject_all toy_post toy_now three pending.

Lemma escaping_exception_leaves_job_open_witness :
  run_store_down = (Raise (Exception_ "APIError"), snd run_store_down)
  /\ is_Exception (Exception_ "APIError") = true
  /\ true = true
  /\ posted (snd run_store_down) = posted pending
  /\ status (job (snd run_store_down)) = status (job pending)
  /\ error (job (snd run_store_down)) = error (job pending)
  /\ finished_at (job (snd run_store_down)) = finished_at (job pending).
Proof.
  split; [reflexivity |]. split; [reflexivity |].
  exact (@escaping_exception_leaves_job_open (list string) true toy_enrich
           reject_all toy_post toy_now three pending (Exception_ "APIError")
           (snd run_store_down) eq_refl eq_refl).
Defined.

(** *** The contact rows of one scraped URL *)

(** The dict [_store_contact] upserts into [lead_contacts]. *)
Record lead_contact : Type := {
  lc_search_id : string;
  lc_business_id : string;
  contact_type : string;
  raw_value : string;
  normalized_value : string;
  is_valid : bool;
  confidence : float;
  source_url : string
}.

Section Contacts.

(** The three normalisers with their default region. *)
Variable normalize_email : string -> outcome (string * bool).
Variable normalize_phone : string -> outcome (string * bool).
Variable normalize_whatsapp : string -> outcome (string * bool).

(** One of the three [for raw in contacts[...]] loops of lines 170-195:
    the rows handed to [_store_contact], and whether a normaliser raised
    and cut the loop short. *)
Fixpoint store_each (normalize : string -> outcome (string * bool))
    (ctype sid bid url : string) (raws : list string)
  : list lead_contact * outcome unit :=
  match raws with
  | [] => ([], Ret tt)
  | raw :: rest =>
      match normalize raw with
      | Raise e => ([], Raise e)
      | Ret (normalized, valid) =>
          let row :=
            {| lc_search_id := sid; lc_business_id := bid;
               contact_type := ctype; raw_value := raw;
               normalized_value := normalized; is_valid := valid;
               confidence := Normalizer.compute_confidence ctype valid url;
               source_url := url |} in
          let (rows, r) := store_each normalize ctype sid bid url rest in
          (row :: rows, r)
      end
  end.

(** Lines 170-195 for one URL: emails, then phones, then WhatsApp
    numbers, up to the first exception. *)
Definition contact_rows (sid bid url : string) (c : Scraper.contacts)
  : list lead_contact :=
  let (es, r1) := store_each normalize_email "email" sid bid url (Scraper.emails c) in
  match r1 with
  | Raise _ => es
  | Ret _ =>
      let (ps, r2) :=
        store_each normalize_phone "phone" sid bid url (Scraper.phones c) in
      match r2 with
      | Raise _ => es ++ ps
      | Ret _ =>
          es ++ ps
          ++ fst (store_each normalize_whatsapp "whatsapp" sid bid url
                    (Scraper.whatsapps c))
      end
  end.

Lemma store_each_confidence normalize ctype sid bid url raws row :
  In row (fst (store_each normalize ctype sid bid url raws)) ->
  confidence row
  = Normalizer.compute_confidence (contact_type row) (is_valid row)
      (source_url row).
Proof.
  induction raws as [| raw rest IH]; simpl; [contradiction |].
  destruct (normalize raw) as [[normalized valid] | e]; simpl; [| contradiction].
  destruct (store_each normalize ctype sid bid url rest) as [rows r].
  simpl in *. intros [<- | Hin]; [reflexivity | now apply IH].
Qed.

Lemma contact_rows_confidence sid bid url c row :
  In row (contact_rows sid bid url c) ->
  confidence row
  = Normalizer.compute_confidence (contact_type row) (is_valid row)
      (source_url row).
Proof.
  unfold contact_rows.
  pose proof (store_each_confidence normalize_email "email" sid bid url
                (Scraper.emails c) row) as He.
  pose proof (store_each_confidence normalize_phone "phone" sid bid url
                (Scraper.phones c) row) as Hp.
  pose proof (store_each_confidence normalize_whatsapp "whatsapp" sid bid url
                (Scraper.whatsapps c) row) as Hw.
  destruct (store_each normalize_email _ _ _ _ _) as [es r1].
  destruct (store_each normalize_phone _ _ _ _ _) as [ps r2].
  simpl in He, Hp.
  destruct r1 as [[] | e1]; [destruct r2 as [[] | e2] |]; intros Hin;
    repeat (apply in_app_or in Hin; destruct Hin as [Hin | Hin]); auto.
Qed.

(** C10. [compute_confidence] is never under 0.5, whatever the contact
    type, the validity and the source; hence every row handed to the
    store for a scraped URL has a confidence of at least 0.5. *)
Theorem confidence_at_least_half :
  (forall (ctype : string) (valid : bool) (source : string),
      PrimFloat.leb 0.5%float (Normalizer.compute_confidence ctype valid source)
      = true)
  /\ (forall (sid bid url : string) (c : Scraper.contacts) (row : lead_contact),
        In row (contact_rows sid bid url c) ->
        PrimFloat.leb 0.5%float (confidence row) = true).
Proof.
  split.
  - apply Normalizer.compute_confidence_at_least_base.
  - intros sid bid url c row Hin.
    rewrite (contact_rows_confidence _ _ _ _ _ Hin).
    apply Normalizer.compute_confidence_at_least_base.
Qed.

End Contacts.

Example invalid_free_text_contact :
  map (fun r => (normalized_value r, confidence r))
    (contact_rows
       (fun raw => Ret (Str.lower raw, false))
       (fun raw => Ret (raw, false))
       (fun raw => Raise (Exception_ "unexpected"))
       "run-1" "b1" "https://acme.com.ar/contacto"
       {| Scraper.emails := ["Ventas@Acme"]; Scraper.phones := ["45678900"];
          Scraper.whatsapps := ["5491145678900"] |})
  = [("ventas@acme", 0.5%float); ("45678900", 0.5%float)].
Proof. reflexivity. Qed.

Lemma confidence_at_least_half_witness :
  PrimFloat.leb 0.5%float
    (Normalizer.compute_confidence "email" false "https://acme.com.ar/contacto")
  = true
  /\ Forall (fun row => PrimFloat.leb 0.5%float (confidence row) = true)
       (contact_rows
          (fun raw => Ret (Str.lower raw, false))
          (fun raw => Ret (raw, false))
          (fun raw => Ret (raw, true))
          "run-1" "b1" "https://acme.com.ar/contacto"
          {| Scraper.emails := ["Ventas@Acme"]; Scraper.phones := ["45678900"];
             Scraper.whatsapps := ["5491145678900"] |}).
Proof.
  destruct (@confidence_at_least_half
              (fun raw => Ret (Str.lower raw, false))
              (fun raw => Ret (raw, false))
              (fun raw => Ret (raw, true))) as [Hscore Hrows].
  split; [apply Hscore |].
  apply Forall_forall. intros row Hin.
  exact (Hrows "run-1" "b1" "https://acme.com.ar/contacto" _ row Hin).
Defined.
(** *** One business *)

(** The dict [_store_source] inserts into [lead_sources]. *)
Record lead_source : Type := {
  ls_search_id : string;
  ls_business_id : string;
  source_type : string;
  ls_url : string;
  ls_domain : string
}.

(** The calls [enrich_single_business] makes outside the worker. *)
Inductive event : Type :=
| Searched (business_name business_locality : string)
| SourceInserted (row : lead_source)
| Scraped (url : string)
| ContactUpserted (row : lead_contact)
| Slept.

Definition scraped (evs : list event) : list string :=
  flat_map (fun ev => match ev with Scraped u => [u] | _ => [] end) evs.

Definition upserted (evs : list event) : list lead_contact :=
  flat_map (fun ev => match ev with ContactUpserted row => [row] | _ => [] end) evs.

Definition inserted (evs : list event) : list lead_source :=
  flat_map (fun ev => match ev with SourceInserted row => [row] | _ => [] end) evs.

Definition searched (evs : list event) : list (string * string) :=
  flat_map (fun ev => match ev with Searched n l => [(n, l)] | _ => [] end) evs.

Section Enrich.

(** Everything outside the worker: the network and the store. *)
Variable World : Type.

(** The module-level [supabase] client: configured or [None]. *)
Variable supabase : bool.

Variable urlparse : string -> BraveSearch.parsed_url.

(** [search_business], [scrape_url] and [asyncio.sleep]. *)
Variable search_business :
  string -> string -> World -> outcome BraveSearch.found * World.
Variable scrape_url : string -> World -> outcome Scraper.contacts * World.
Variable sleep : World -> outcome unit * World.

(** [.execute()] of the insert into [lead_sources] and of the upsert into
    [lead_contacts]. *)
Variable insert_source : lead_source -> World -> outcome unit * World.
Variable upsert_contact : lead_contact -> World -> outcome unit * World.

(** The three normalisers with their default region. *)
Variable normalize_email : string -> outcome (string * bool).
Variable normalize_phone : string -> outcome (string * bool).
Variable normalize_whatsapp : string -> outcome (string * bool).

(** The world and the calls made so far. *)
Record effects : Type := {
  outside : World;
  calls : list event
}.

Definition E (A : Type) : Type := effects -> outcome A * effects.

Definition retE {A : Type} (a : A) : E A := fun s => (Ret a, s).

Definition bindE {A B : Type} (m : E A) (k : A -> E B) : E B :=
  fun s =>
    match m s with
    | (Ret a, s') => k a s'
    | (Raise e, s') => (Raise e, s')
    end.

(** [try: body / except Exception as e: handler] *)
Definition tryE {A : Type} (body : E A) (handler : exn -> E A) : E A :=
  fun s =>
    match body s with
    | (Ret a, s') => (Ret a, s')
    | (Raise e, s') =>
        if is_Exception e then handler e s' else (Raise e, s')
    end.

(** A call outside the worker, recorded whatever its outcome. *)
Definition call {A : Type} (ev : event) (f : World -> outcome A * World) : E A :=
  fun s =>
    let (r, w) := f (outside s) in
    (r, {| outside := w; calls := calls s ++ [ev] |}).

(** A computation inside the worker. *)
Definition lift {A : Type} (o : outcome A) : E A := fun s => (o, s).

Fixpoint forE {A : Type} (body : A -> E unit) (l : list A) : E unit :=
  match l with
  | [] => retE tt
  | a :: l' => bindE (body a) (fun _ => forE body l')
  end.

(** Lines 253-261, the copy of [_extract_domain] in main.py. *)
Definition _extract_domain (url : string) : string :=
  match urlparse url with
  | BraveSearch.ValueError => ""
  | BraveSearch.Hostname h =>
      let domain := match h with Some d => d | None => "" end in
      let domain :=
        if Str.startswith "www." domain then BraveSearch.drop 4 domain
        else domain in
      Str.lower domain
  end.

(** Lines 204-218. *)
Definition _store_source (sid bid stype url : string) : E unit :=
  if negb supabase then retE tt
  else
    tryE
      (let domain := _extract_domain url in
       let row :=
         {| ls_search_id := sid; ls_business_id := bid; source_type := stype;
            ls_url := url; ls_domain := domain |} in
       call (SourceInserted row) (insert_source row))
      (fun _ => retE tt).

(** Lines 221-250. *)
Definition _store_contact (sid bid ctype raw normalized : string)
    (valid : bool) (score : float) (url : string) : E unit :=
  if negb supabase then retE tt
  else
    tryE
      (let row :=
         {| lc_search_id := sid; lc_business_id := bid; contact_type := ctype;
            raw_value := raw; normalized_value := normalized;
            is_valid := valid; confidence := score; source_url := url |} in
       call (ContactUpserted row) (upsert_contact row))
      (fun _ => retE tt).

(** One of the three [for raw in contacts[...]] loops of lines 170-195. *)
Definition store_contacts (normalize : string -> outcome (string * bool))
    (ctype sid bid url : string) (raws : list string) : E unit :=
  forE
    (fun raw =>
       bindE (lift (normalize raw))
         (fun nv =>
            let (normalized, valid) := nv in
            let score := Normalizer.compute_confidence ctype valid url in
            _store_contact sid bid ctype raw normalized valid score url))
    raws.

(** Lines 167-198: the body of [for url in urls_to_scrape[:3]]. *)
Definition scrape_one (sid bid url : string) : E unit :=
  tryE
    (bindE (call (Scraped url) (scrape_url url))
       (fun contacts =>
          bindE (store_contacts normalize_email "email" sid bid url
                   (Scraper.emails contacts))
            (fun _ =>
               bindE (store_contacts normalize_phone "phone" sid bid url
                        (Scraper.phones contacts))
                 (fun _ =>
                    store_contacts normalize_whatsapp "whatsapp" sid bid url
                      (Scraper.whatsapps contacts)))))
    (fun _ => retE tt).

(** [brave_results["website"]] when it is truthy. *)
Definition website_of (brave_results : BraveSearch.found) : option string :=
  match BraveSearch.website brave_results with
  | Some u => if Str.truthy u then Some u else None
  | None => None
  end.

(** Lines 147-163: the list [urls_to_scrape] when the scraping starts. *)
Definition urls_to_scrape (business : Business)
    (brave_results : BraveSearch.found) : list string :=
  match website_of brave_results with Some u => [u] | None => [] end
  ++ match existing_website business with
     | Some existing =>
         if Str.truthy existing then
           let existing_domain := _extract_domain existing in
           let brave_domain :=
             _extract_domain
               (match website_of brave_results with Some u => u | None => "" end) in
           if Str.truthy existing_domain
              && negb (String.eqb existing_domain brave_domain)
           then [existing] else []
         else []
     | None => []
     end.

(** Lines 138-201. *)
Definition enrich_single_business (sid : string) (business : Business) : E unit :=
  if negb supabase then retE tt
  else
    bindE
      (call (Searched (name business) (locality business))
         (search_business (name business) (locality business)))
      (fun brave_results =>
         bindE
           (match website_of brave_results with
            | Some u => _store_source sid (id business) "website" u
            | None => retE tt
            end)
           (fun _ =>
              bindE
                (forE
                   (fun social =>
                      _store_source sid (id business)
                        (BraveSearch.type social) (BraveSearch.url social))
                   (BraveSearch.social_urls brave_results))
                (fun _ =>
                   bindE
                     (forE (scrape_one sid (id business))
                        (firstn 3 (urls_to_scrape business brave_results)))
                     (fun _ => call Slept sleep)))).
(** *** How the calls of one business line up *)

Definition prefix {A : Type} (l1 l2 : list A) : Prop :=
  exists rest, l2 = l1 ++ rest.

Lemma prefix_refl {A : Type} (l : list A) : prefix l l.
Proof. exists []. now rewrite app_nil_r. Qed.

Lemma prefix_nil {A : Type} (l : list A) : prefix [] l.
Proof. now exists l. Qed.

Lemma prefix_app {A : Type} (l l1 l2 : list A) :
  prefix l1 l2 -> prefix (l ++ l1) (l ++ l2).
Proof. intros [rest ->]. exists rest. now rewrite app_assoc. Qed.

Lemma prefix_weaken {A : Type} (l1 l2 l3 : list A) :
  prefix l1 l2 -> prefix l1 (l2 ++ l3).
Proof. intros [rest ->]. exists (rest ++ l3). now rewrite app_assoc. Qed.

Lemma prefix_cons {A : Type} (a : A) (l1 l2 : list A) :
  prefix l1 l2 -> prefix (a :: l1) (a :: l2).
Proof. intros [rest ->]. now exists rest. Qed.

Lemma prefix_length {A : Type} (l1 l2 : list A) :
  prefix l1 l2 -> List.length l1 <= List.length l2.
Proof. intros [rest ->]. rewrite length_app. lia. Qed.

Lemma prefix_In {A : Type} (l1 l2 : list A) (x : A) :
  prefix l1 l2 -> In x l1 -> In x l2.
Proof. intros [rest ->] Hin. apply in_or_app. now left. Qed.

Lemma bindE_inv {A B : Type} (m : E A) (k : A -> E B) s r s' :
  bindE m k s = (r, s') ->
  (exists a s1, m s = (Ret a, s1) /\ k a s1 = (r, s'))
  \/ (exists e, m s = (Raise e, s') /\ r = Raise e).
Proof.
  unfold bindE. destruct (m s) as [[a | e] s1].
  - intros Hk. left. now exists a, s1.
  - intros H. inversion H; subst. right. now exists e.
Qed.

Lemma tryE_inv {A : Type} (body : E A) (handler : exn -> E A) s r s' :
  tryE body handler s = (r, s') ->
  (exists a, body s = (Ret a, s') /\ r = Ret a)
  \/ (exists e s1, body s = (Raise e, s1) /\ is_Exception e = true
                   /\ handler e s1 = (r, s'))
  \/ (exists e, body s = (Raise e, s') /\ is_Exception e = false
                /\ r = Raise e).
Proof.
  unfold tryE. destruct (body s) as [[a | e] s1].
  - intros H. inversion H; subst. left. now exists a.
  - destruct (is_Exception e) eqn:Hcls.
    + intros Hh. right. left. now exists e, s1.
    + intros H. inversion H; subst. right. right. now exists e.
Qed.

Lemma call_inv {A : Type} (ev : event) (f : World -> outcome A * World)
    s (r : outcome A) s' :
  call ev f s = (r, s') ->
  calls s' = calls s ++ [ev] /\ f (outside s) = (r, outside s').
Proof.
  unfold call. destruct (f (outside s)) as [r0 w]. intros H.
  inversion H; subst. now split.
Qed.

(** A call made under [try ... except Exception: pass]. *)
Lemma guarded_call_inv (ev : event) (f : World -> outcome unit * World) s r s' :
  tryE (call ev f) (fun _ => retE tt) s = (r, s') ->
  calls s' = calls s ++ [ev]
  /\ (r = Ret tt \/ exists e, r = Raise e /\ is_Exception e = false).
Proof.
  intros H. apply tryE_inv in H.
  destruct H as [[[] [Hb ->]] | [[e [s1 [Hb [_ Hh]]]] | [e [Hb [Hcls ->]]]]].
  - apply call_inv in Hb. split; [apply Hb | now left].
  - inversion Hh; subst. apply call_inv in Hb. split; [apply Hb | now left].
  - apply call_inv in Hb. split; [apply Hb |]. right. now exists e.
Qed.

(** The row [_store_source] builds. *)
Definition source_row (sid bid stype url : string) : lead_source :=
  {| ls_search_id := sid; ls_business_id := bid; source_type := stype;
     ls_url := url; ls_domain := _extract_domain url |}.

Lemma store_source_inv sid bid stype url s r s' :
  supabase = true ->
  _store_source sid bid stype url s = (r, s') ->
  calls s' = calls s ++ [SourceInserted (source_row sid bid stype url)]
  /\ (r = Ret tt \/ exists e, r = Raise e /\ is_Exception e = false).
Proof.
  intros Hsup. unfold _store_source. rewrite Hsup. cbn [negb]. cbv zeta.
  apply guarded_call_inv.
Qed.

Lemma store_contact_inv sid bid ctype raw normalized valid score url s r s' :
  supabase = true ->
  _store_contact sid bid ctype raw normalized valid score url s = (r, s') ->
  calls s'
  = calls s
    ++ [ContactUpserted
          {| lc_search_id := sid; lc_business_id := bid; contact_type := ctype;
             raw_value := raw; normalized_value := normalized;
             is_valid := valid; confidence := score; source_url := url |}]
  /\ (r = Ret tt \/ exists e, r = Raise e /\ is_Exception e = false).
Proof.
  intros Hsup. unfold _store_contact. rewrite Hsup. cbn [negb]. cbv zeta.
  apply guarded_call_inv.
Qed.

(** One loop over raw contacts upserts the rows of [store_each], all of
    them unless the store raises something that is not an [Exception]. *)
Lemma store_contacts_inv normalize ctype sid bid url raws :
  supabase = true ->
  forall s r s',
  store_contacts normalize ctype sid bid url raws s = (r, s') ->
  exists rows,
    calls s' = calls s ++ map ContactUpserted rows
    /\ prefix rows (fst (store_each normalize ctype sid bid url raws))
    /\ (r = Ret tt ->
        rows = fst (store_each normalize ctype sid bid url raws)
        /\ snd (store_each normalize ctype sid bid url raws) = Ret tt)
    /\ (forall e, r = Raise e -> is_Exception e = true ->
        rows = fst (store_each normalize ctype sid bid url raws)
        /\ snd (store_each normalize ctype sid bid url raws) = Raise e).
Proof.
  intros Hsup. unfold store_contacts.
  induction raws as [| raw rest IH]; intros s r s' Hrun.
  - inversion Hrun; subst. exists []. cbn. rewrite app_nil_r.
    split; [reflexivity |]. split; [apply prefix_refl |].
    split; [now intros _ | discriminate].
  - cbn [forE] in Hrun. apply bindE_inv in Hrun.
    destruct Hrun as [[[] [s1 [Hbody Hrun]]] | [e [Hbody ->]]].
    + apply bindE_inv in Hbody.
      destruct Hbody as [[[normalized valid] [s0 [Hn Hst]]] | [e [_ He]]];
        [| discriminate He].
      unfold lift in Hn. inversion Hn; subst s0. clear Hn.
      apply (store_contact_inv _ _ _ _ _ _ _ _ _ Hsup) in Hst.
      destruct Hst as [Hc1 _].
      apply IH in Hrun. destruct Hrun as [rows [Hc2 [Hpre [Hret Hexn]]]].
      cbn [store_each]. rewrite H0.
      destruct (store_each normalize ctype sid bid url rest) as [all r0].
      cbn [fst snd] in *.
      eexists (_ :: rows). split.
      { rewrite Hc2, Hc1, <- app_assoc. reflexivity. }
      split; [now apply prefix_cons |].
      split.
      * intros Hr. destruct (Hret Hr) as [-> ->]. now split.
      * intros e Hr Hcls. destruct (Hexn e Hr Hcls) as [-> ->]. now split.
    + apply bindE_inv in Hbody.
      destruct Hbody as [[[normalized valid] [s0 [Hn Hst]]] | [e0 [Hn He]]].
      * unfold lift in Hn. inversion Hn; subst s0. clear Hn.
        apply (store_contact_inv _ _ _ _ _ _ _ _ _ Hsup) in Hst.
        destruct Hst as [Hc1 [Hr | [e1 [Hr Hcls]]]]; [discriminate Hr |].
        inversion Hr; subst e1.
        cbn [store_each]. rewrite H0.
        destruct (store_each normalize ctype sid bid url rest) as [all r0].
        cbn [fst snd].
        eexists [_]. split; [exact Hc1 |].
        split; [apply prefix_cons, prefix_nil |].
        split; [discriminate |].
        intros e1 He1 Hcls1. inversion He1; subst e1. congruence.
      * unfold lift in Hn. inversion Hn; subst. inversion He; subst e0.
        cbn [store_each]. rewrite H0. cbn [fst snd].
        exists []. cbn. rewrite app_nil_r.
        split; [reflexivity |]. split; [apply prefix_refl |].
        split; [discriminate |].
        intros e1 He1 _. inversion He1; subst e1. now split.
Qed.
Lemma scraped_app evs1 evs2 : scraped (evs1 ++ evs2) = scraped evs1 ++ scraped evs2.
Proof. apply flat_map_app. Qed.

Lemma upserted_app evs1 evs2 :
  upserted (evs1 ++ evs2) = upserted evs1 ++ upserted evs2.
Proof. apply flat_map_app. Qed.

Lemma inserted_app evs1 evs2 :
  inserted (evs1 ++ evs2) = inserted evs1 ++ inserted evs2.
Proof. apply flat_map_app. Qed.

Lemma searched_app evs1 evs2 :
  searched (evs1 ++ evs2) = searched evs1 ++ searched evs2.
Proof. apply flat_map_app. Qed.

Lemma upserts_only rows :
  scraped (map ContactUpserted rows) = []
  /\ upserted (map ContactUpserted rows) = rows
  /\ inserted (map ContactUpserted rows) = []
  /\ searched (map ContactUpserted rows) = [].
Proof.
  induction rows as [| row rows [IH1 [IH2 [IH3 IH4]]]]; cbn; [now repeat split |].
  fold (scraped (map ContactUpserted rows)).
  fold (upserted (map ContactUpserted rows)).
  fold (inserted (map ContactUpserted rows)).
  fold (searched (map ContactUpserted rows)).
  now rewrite IH1, IH2, IH3, IH4.
Qed.

Lemma inserts_only rows :
  scraped (map SourceInserted rows) = []
  /\ upserted (map SourceInserted rows) = []
  /\ inserted (map SourceInserted rows) = rows
  /\ searched (map SourceInserted rows) = [].
Proof.
  induction rows as [| row rows [IH1 [IH2 [IH3 IH4]]]]; cbn; [now repeat split |].
  fold (scraped (map SourceInserted rows)).
  fold (upserted (map SourceInserted rows)).
  fold (inserted (map SourceInserted rows)).
  fold (searched (map SourceInserted rows)).
  now rewrite IH1, IH2, IH3, IH4.
Qed.

(** The rows of one scraped URL, as the three loops hand them over. *)
Definition rows_of (sid bid url : string) (c : Scraper.contacts)
  : list lead_contact :=
  contact_rows normalize_email normalize_phone normalize_whatsapp sid bid url c.

(** One URL: the scrape, then the upserts of its contact rows; nothing
    but a non-[Exception] gets out. *)
Lemma scrape_one_inv sid bid url s r s' :
  supabase = true ->
  scrape_one sid bid url s = (r, s') ->
  exists rows,
    calls s' = calls s ++ Scraped url :: map ContactUpserted rows
    /\ (r = Ret tt \/ exists e, r = Raise e /\ is_Exception e = false)
    /\ match fst (scrape_url url (outside s)) with
       | Ret contacts =>
           prefix rows (rows_of sid bid url contacts)
           /\ (r = Ret tt -> rows = rows_of sid bid url contacts)
       | Raise _ => rows = []
       end.
Proof.
  intros Hsup Hrun. unfold scrape_one in Hrun.
  assert (Hbody : forall r0 s0,
    bindE (call (Scraped url) (scrape_url url))
      (fun contacts =>
         bindE (store_contacts normalize_email "email" sid bid url
                  (Scraper.emails contacts))
           (fun _ =>
              bindE (store_contacts normalize_phone "phone" sid bid url
                       (Scraper.phones contacts))
                (fun _ =>
                   store_contacts normalize_whatsapp "whatsapp" sid bid url
                     (Scraper.whatsapps contacts)))) s = (r0, s0) ->
    exists rows,
      calls s0 = calls s ++ Scraped url :: map ContactUpserted rows
      /\ match fst (scrape_url url (outside s)) with
         | Ret contacts =>
             prefix rows (rows_of sid bid url contacts)
             /\ (r0 = Ret tt -> rows = rows_of sid bid url contacts)
             /\ (forall e, r0 = Raise e -> is_Exception e = true ->
                 rows = rows_of sid bid url contacts)
         | Raise _ => rows = []
         end).
  { clear Hrun. intros r0 s0 Hb. apply bindE_inv in Hb.
    destruct Hb as [[contacts [s1 [Hcall Hb]]] | [e [Hcall ->]]].
    - apply call_inv in Hcall. destruct Hcall as [Hc1 Hscr]. rewrite Hscr.
      cbn [fst]. unfold rows_of, contact_rows.
      apply bindE_inv in Hb.
      destruct Hb as [[[] [s2 [Hem Hb]]] | [e [Hem ->]]].
      + apply (store_contacts_inv _ _ _ _ _ _ Hsup) in Hem.
        destruct Hem as [es [Hc2 [_ [Hret2 _]]]].
        destruct (Hret2 eq_refl) as [Hes Hr1]. clear Hret2.
        destruct (store_each normalize_email "email" sid bid url
                    (Scraper.emails contacts)) as [es' r1].
        cbn [fst snd] in Hes, Hr1. subst es' r1.
        apply bindE_inv in Hb.
        destruct Hb as [[[] [s3 [Hph Hb]]] | [e [Hph ->]]].
        * apply (store_contacts_inv _ _ _ _ _ _ Hsup) in Hph.
          destruct Hph as [ps [Hc3 [_ [Hret3 _]]]].
          destruct (Hret3 eq_refl) as [Hps Hr2]. clear Hret3.
          destruct (store_each normalize_phone "phone" sid bid url
                      (Scraper.phones contacts)) as [ps' r2].
          cbn [fst snd] in Hps, Hr2. subst ps' r2.
          apply (store_contacts_inv _ _ _ _ _ _ Hsup) in Hb.
          destruct Hb as [ws [Hc4 [Hpre4 [Hret4 Hexn4]]]].
          exists (es ++ ps ++ ws). split.
          { rewrite Hc4, Hc3, Hc2, Hc1, !map_app, <- !app_assoc. reflexivity. }
          split; [now apply prefix_app, prefix_app |].
          split.
          -- intros Hr. now destruct (Hret4 Hr) as [-> _].
          -- intros e Hr Hcls. now destruct (Hexn4 e Hr Hcls) as [-> _].
        * apply (store_contacts_inv _ _ _ _ _ _ Hsup) in Hph.
          destruct Hph as [ps [Hc3 [Hpre3 [_ Hexn3]]]].
          destruct (store_each normalize_phone "phone" sid bid url
                      (Scraper.phones contacts)) as [ps' r2].
          cbn [fst snd] in Hpre3, Hexn3.
          exists (es ++ ps). split.
          { rewrite Hc3, Hc2, Hc1, !map_app, <- !app_assoc. reflexivity. }
          split.
          { destruct r2 as [[] | e2].
            - rewrite app_assoc. apply prefix_weaken. now apply prefix_app.
            - now apply prefix_app. }
          split; [discriminate |].
          intros e0 He0 Hcls. inversion He0; subst e0.
          destruct (Hexn3 e eq_refl Hcls) as [-> ->]. reflexivity.
      + apply (store_contacts_inv _ _ _ _ _ _ Hsup) in Hem.
        destruct Hem as [es [Hc2 [Hpre2 [_ Hexn2]]]].
        destruct (store_each normalize_email "email" sid bid url
                    (Scraper.emails contacts)) as [es' r1].
        cbn [fst snd] in Hpre2, Hexn2.
        exists es. split.
        { rewrite Hc2, Hc1, <- app_assoc. reflexivity. }
        split.
        { destruct r1 as [[] | e1]; [| exact Hpre2].
          destruct (store_each normalize_phone "phone" sid bid url
                      (Scraper.phones contacts)) as [ps' r2].
          destruct r2; now apply prefix_weaken. }
        split; [discriminate |].
        intros e0 He0 Hcls. inversion He0; subst e0.
        destruct (Hexn2 e eq_refl Hcls) as [-> ->]. reflexivity.
    - apply call_inv in Hcall. destruct Hcall as [Hc1 Hscr]. rewrite Hscr.
      cbn [fst]. exists []. split; [exact Hc1 | reflexivity]. }
  apply tryE_inv in Hrun.
  destruct Hrun as [[[] [Hb ->]] | [[e [s1 [Hb [Hcls Hh]]]] | [e [Hb [Hcls ->]]]]].
  - destruct (Hbody _ _ Hb) as [rows [Hc Hrows]]. exists rows.
    split; [exact Hc |]. split; [now left |].
    destruct (fst (scrape_url url (outside s))); [| exact Hrows].
    destruct Hrows as [Hpre [Hret _]]. now split.
  - inversion Hh; subst. destruct (Hbody _ _ Hb) as [rows [Hc Hrows]].
    exists rows. split; [exact Hc |]. split; [now left |].
    destruct (fst (scrape_url url (outside s))); [| exact Hrows].
    destruct Hrows as [Hpre [_ Hexn]]. split; [exact Hpre |].
    intros _. exact (Hexn e eq_refl Hcls).
  - destruct (Hbody _ _ Hb) as [rows [Hc Hrows]]. exists rows.
    split; [exact Hc |]. split; [right; now exists e |].
    destruct (fst (scrape_url url (outside s))); [| exact Hrows].
    destruct Hrows as [Hpre _]. split; [exact Hpre | discriminate].
Qed.
(** A row comes from the scrape of one of [urls]. *)
Definition from_scraped_url (sid bid : string) (urls : list string)
    (row : lead_contact) : Prop :=
  exists url contacts w,
    In url urls /\ fst (scrape_url url w) = Ret contacts
    /\ In row (rows_of sid bid url contacts).

Lemma from_scraped_url_mono sid bid urls1 urls2 row :
  (forall u, In u urls1 -> In u urls2) ->
  from_scraped_url sid bid urls1 row -> from_scraped_url sid bid urls2 row.
Proof.
  intros Hsub [u [contacts [w [Hin Hrest]]]]. exists u, contacts, w.
  split; [now apply Hsub | exact Hrest].
Qed.

Lemma scrape_loop_inv sid bid urls :
  supabase = true ->
  forall s r s',
  forE (scrape_one sid bid) urls s = (r, s') ->
  exists evs,
    calls s' = calls s ++ evs
    /\ prefix (scraped evs) urls
    /\ (r = Ret tt -> scraped evs = urls)
    /\ inserted evs = [] /\ searched evs = []
    /\ Forall (from_scraped_url sid bid (scraped evs)) (upserted evs)
    /\ (r = Ret tt \/ exists e, r = Raise e /\ is_Exception e = false).
Proof.
  intros Hsup. induction urls as [| url rest IH]; intros s r s' Hrun.
  - inversion Hrun; subst. exists []. rewrite app_nil_r. cbn.
    split; [reflexivity |]. split; [apply prefix_refl |].
    split; [now intros _ |]. split; [reflexivity |]. split; [reflexivity |].
    split; [constructor | now left].
  - cbn [forE] in Hrun. apply bindE_inv in Hrun.
    assert (Hone : forall r1 s1,
      scrape_one sid bid url s = (r1, s1) ->
      exists rows,
        calls s1 = calls s ++ Scraped url :: map ContactUpserted rows
        /\ (r1 = Ret tt \/ exists e, r1 = Raise e /\ is_Exception e = false)
        /\ Forall (from_scraped_url sid bid [url]) rows).
    { intros r1 s1 H1. apply scrape_one_inv in H1; try exact Hsup.
      destruct H1 as [rows [Hc [Hr Hrows]]]. exists rows.
      split; [exact Hc |]. split; [exact Hr |].
      destruct (fst (scrape_url url (outside s))) as [contacts | e] eqn:Hscr.
      - destruct Hrows as [Hpre _]. apply Forall_forall. intros row Hin.
        exists url, contacts, (outside s).
        split; [now left |]. split; [exact Hscr |].
        eapply prefix_In; eassumption.
      - subst rows. constructor. }
    destruct Hrun as [[[] [s1 [H1 Hrun]]] | [e [H1 ->]]].
    + destruct (Hone _ _ H1) as [rows [Hc1 [_ Hrows]]].
      apply IH in Hrun.
      destruct Hrun as [evs [Hc2 [Hpre [Hret [Hins [Hsea [Hups Hr]]]]]]].
      destruct (upserts_only rows) as [U1 [U2 [U3 U4]]].
      exists (Scraped url :: map ContactUpserted rows ++ evs).
      split; [rewrite Hc2, Hc1, <- app_assoc; reflexivity |].
      change (Scraped url :: map ContactUpserted rows ++ evs)
        with ([Scraped url] ++ map ContactUpserted rows ++ evs).
      rewrite !scraped_app, !inserted_app, !searched_app, !upserted_app.
      rewrite U1, U2, U3, U4, Hins, Hsea. cbn.
      split; [now apply prefix_cons |].
      split; [intros Hr'; now rewrite (Hret Hr') |].
      split; [reflexivity |]. split; [reflexivity |].
      split; [| exact Hr].
      apply Forall_app. split.
      * apply Forall_impl with (2 := Hrows). intros row.
        apply from_scraped_url_mono. intros u [<- | []]. now left.
      * apply Forall_impl with (2 := Hups). intros row.
        apply from_scraped_url_mono. intros u Hu. now right.
    + destruct (Hone _ _ H1) as [rows [Hc1 [Hr Hrows]]].
      destruct (upserts_only rows) as [U1 [U2 [U3 U4]]].
      exists (Scraped url :: map ContactUpserted rows).
      split; [exact Hc1 |].
      change (Scraped url :: map ContactUpserted rows)
        with ([Scraped url] ++ map ContactUpserted rows).
      rewrite !scraped_app, !inserted_app, !searched_app, !upserted_app.
      rewrite U1, U2, U3, U4. cbn.
      split; [apply prefix_cons, prefix_nil |].
      split; [discriminate |].
      split; [reflexivity |]. split; [reflexivity |].
      split; [| exact Hr].
      apply Forall_impl with (2 := Hrows). intros row.
      apply from_scraped_url_mono. intros u [<- | []]. now left.
Qed.

Lemma source_loop_inv sid bid socials :
  supabase = true ->
  forall s r s',
  forE (fun social =>
          _store_source sid bid (BraveSearch.type social) (BraveSearch.url social))
    socials s = (r, s') ->
  exists rows,
    calls s' = calls s ++ map SourceInserted rows
    /\ prefix rows
         (map (fun social =>
                 source_row sid bid (BraveSearch.type social)
                   (BraveSearch.url social)) socials)
    /\ (r = Ret tt ->
        rows = map (fun social =>
                      source_row sid bid (BraveSearch.type social)
                        (BraveSearch.url social)) socials)
    /\ (r = Ret tt \/ exists e, r = Raise e /\ is_Exception e = false).
Proof.
  intros Hsup. induction socials as [| social rest IH]; intros s r s' Hrun.
  - inversion Hrun; subst. exists []. cbn. rewrite app_nil_r.
    split; [reflexivity |]. split; [apply prefix_refl |].
    split; [now intros _ | now left].
  - cbn [forE] in Hrun. apply bindE_inv in Hrun.
    destruct Hrun as [[[] [s1 [H1 Hrun]]] | [e [H1 ->]]].
    + apply store_source_inv in H1; try exact Hsup. destruct H1 as [Hc1 _].
      apply IH in Hrun. destruct Hrun as [rows [Hc2 [Hpre [Hret Hr]]]].
      exists (source_row sid bid (BraveSearch.type social)
                (BraveSearch.url social) :: rows).
      split; [rewrite Hc2, Hc1, <- app_assoc; reflexivity |].
      split; [now apply prefix_cons |].
      split; [intros Hr'; cbn; now rewrite (Hret Hr') | exact Hr].
    + apply store_source_inv in H1; try exact Hsup. destruct H1 as [Hc1 Hr].
      exists [source_row sid bid (BraveSearch.type social)
                (BraveSearch.url social)].
      split; [exact Hc1 |].
      split; [apply prefix_cons, prefix_nil |].
      split; [discriminate | exact Hr].
Qed.

(** The rows [enrich_single_business] inserts into [lead_sources]. *)
Definition source_rows (sid : string) (business : Business)
    (brave_results : BraveSearch.found) : list lead_source :=
  match website_of brave_results with
  | Some u => [source_row sid (id business) "website" u]
  | None => []
  end
  ++ map (fun social =>
            source_row sid (id business) (BraveSearch.type social)
              (BraveSearch.url social))
       (BraveSearch.social_urls brave_results).

Lemma urls_to_scrape_short (business : Business)
    (brave_results : BraveSearch.found) :
  List.length (urls_to_scrape business brave_results) <= 2.
Proof.
  unfold urls_to_scrape. rewrite length_app.
  destruct (website_of brave_results);
    destruct (existing_website business) as [existing |]; cbn; try lia;
    destruct (Str.truthy existing); cbn; try lia;
    match goal with |- context [if ?c then _ else _] => destruct c end;
    cbn; lia.
Qed.

Lemma enrich_inv sid business s r s' :
  supabase = true ->
  enrich_single_business sid business s = (r, s') ->
  exists evs,
    calls s' = calls s ++ Searched (name business) (locality business) :: evs
    /\ searched evs = []
    /\ match fst (search_business (name business) (locality business)
                    (outside s)) with
       | Raise e => r = Raise e /\ evs = []
       | Ret brave_results =>
           prefix (inserted evs) (source_rows sid business brave_results)
           /\ prefix (scraped evs) (urls_to_scrape business brave_results)
           /\ Forall (from_scraped_url sid (id business) (scraped evs))
                (upserted evs)
           /\ (r = Ret tt ->
               inserted evs = source_rows sid business brave_results
               /\ scraped evs = urls_to_scrape business brave_results)
           /\ (forall e, r = Raise e -> is_Exception e = true ->
               exists w, fst (sleep w) = Raise e)
       end.
Proof.
  intros Hsup Hrun. unfold enrich_single_business in Hrun.
  rewrite Hsup in Hrun. cbn [negb] in Hrun. apply bindE_inv in Hrun.
  destruct Hrun as [[found [s1 [Hcall Hrun]]] | [e [Hcall ->]]].
  2:{ apply call_inv in Hcall. destruct Hcall as [Hc Hsr]. rewrite Hsr.
      exists []. cbn. split; [exact Hc |]. now repeat split. }
  apply call_inv in Hcall. destruct Hcall as [Hc1 Hsr]. rewrite Hsr. cbn [fst].
  rewrite (firstn_all2 (n := 3)) in Hrun
    by (pose proof (urls_to_scrape_short business found); lia).
  unfold source_rows.
  assert (Hweb : forall r2 s2,
    match website_of found with
    | Some u => _store_source sid (id business) "website" u
    | None => retE tt
    end s1 = (r2, s2) ->
    calls s2
    = calls s1
      ++ map SourceInserted
           match website_of found with
           | Some u => [source_row sid (id business) "website" u]
           | None => []
           end
    /\ (r2 = Ret tt \/ exists e, r2 = Raise e /\ is_Exception e = false)).
  { intros r2 s2. destruct (website_of found) as [u |].
    - intros H. apply store_source_inv in H; try exact Hsup. exact H.
    - intros H. inversion H; subst. cbn. rewrite app_nil_r.
      split; [reflexivity | now left]. }
  set (web := match website_of found with
              | Some u => [source_row sid (id business) "website" u]
              | None => []
              end) in *.
  destruct (inserts_only web) as [W1 [W2 [W3 W4]]].
  apply bindE_inv in Hrun.
  destruct Hrun as [[[] [s2 [H2 Hrun]]] | [e [H2 ->]]].
  2:{ destruct (Hweb _ _ H2) as [Hc2 Hr].
      exists (map SourceInserted web).
      split; [rewrite Hc2, Hc1, <- app_assoc; reflexivity |].
      rewrite W1, W2, W3, W4. split; [reflexivity |].
      split; [apply prefix_weaken, prefix_refl |].
      split; [apply prefix_nil |]. split; [constructor |].
      split; [discriminate |].
      intros e0 He0 Hcls0. destruct Hr as [Hr | [e1 [Hr Hcls1]]];
        [discriminate Hr | congruence]. }
  destruct (Hweb _ _ H2) as [Hc2 _]. clear Hweb.
  apply bindE_inv in Hrun.
  destruct Hrun as [[[] [s3 [H3 Hrun]]] | [e [H3 ->]]].
  2:{ apply source_loop_inv in H3; try exact Hsup.
      destruct H3 as [rows [Hc3 [Hpre [_ Hr]]]].
      destruct (inserts_only rows) as [R1 [R2 [R3 R4]]].
      exists (map SourceInserted web ++ map SourceInserted rows).
      split; [rewrite Hc3, Hc2, Hc1, <- !app_assoc; reflexivity |].
      rewrite scraped_app, inserted_app, searched_app, upserted_app.
      rewrite W1, W2, W3, W4, R1, R2, R3, R4. cbn [app].
      split; [reflexivity |]. split; [now apply prefix_app |].
      split; [apply prefix_nil |]. split; [constructor |].
      split; [discriminate |].
      intros e0 He0 Hcls0. destruct Hr as [Hr | [e1 [Hr Hcls1]]];
        [discriminate Hr | congruence]. }
  apply source_loop_inv in H3; try exact Hsup.
  destruct H3 as [rows [Hc3 [_ [Hret3 _]]]]. specialize (Hret3 eq_refl).
  destruct (inserts_only rows) as [R1 [R2 [R3 R4]]].
  apply bindE_inv in Hrun.
  destruct Hrun as [[[] [s4 [H4 Hrun]]] | [e [H4 ->]]].
  - apply scrape_loop_inv in H4; try exact Hsup.
    destruct H4 as [evs [Hc4 [_ [Hret4 [Hins [Hsea [Hups _]]]]]]].
    specialize (Hret4 eq_refl). rewrite Hret4 in Hups. apply call_inv in Hrun.
    destruct Hrun as [Hc5 Hsl].
    exists (map SourceInserted web ++ map SourceInserted rows ++ evs ++ [Slept]).
    split; [rewrite Hc5, Hc4, Hc3, Hc2, Hc1, <- !app_assoc; reflexivity |].
    rewrite !scraped_app, !inserted_app, !searched_app, !upserted_app.
    rewrite W1, W2, W3, W4, R1, R2, R3, R4, Hins, Hsea, Hret4, Hret3.
    cbn [app scraped inserted searched upserted flat_map].
    rewrite !app_nil_r.
    split; [reflexivity |]. split; [apply prefix_refl |].
    split; [apply prefix_refl |]. split; [exact Hups |].
    split; [now intros _ |].
    intros e He _. exists (outside s4). now rewrite Hsl, He.
  - apply scrape_loop_inv in H4; try exact Hsup.
    destruct H4 as [evs [Hc4 [Hpre4 [_ [Hins [Hsea [Hups Hr]]]]]]].
    exists (map SourceInserted web ++ map SourceInserted rows ++ evs).
    split; [rewrite Hc4, Hc3, Hc2, Hc1, <- !app_assoc; reflexivity |].
    rewrite !scraped_app, !inserted_app, !searched_app, !upserted_app.
    rewrite W1, W2, W3, W4, R1, R2, R3, R4, Hins, Hsea, Hret3.
    cbn [app]. rewrite !app_nil_r.
    split; [reflexivity |]. split; [apply prefix_refl |].
    split; [exact Hpre4 |]. split; [exact Hups |].
    split; [discriminate |].
    intros e0 He0 Hcls0. destruct Hr as [Hr | [e1 [Hr Hcls1]]];
      [discriminate Hr | congruence].
Qed.
Lemma enrich_no_store sid business s :
  supabase = false -> enrich_single_business sid business s = (Ret tt, s).
Proof. intros Hsup. unfold enrich_single_business. now rewrite Hsup. Qed.

Lemma urls_to_scrape_In (business : Business)
    (brave_results : BraveSearch.found) (url : string) :
  In url (urls_to_scrape business brave_results) ->
  website_of brave_results = Some url
  \/ (existing_website business = Some url
      /\ Str.truthy (_extract_domain url) = true
      /\ _extract_domain url
         <> _extract_domain
              (match website_of brave_results with Some u => u | None => "" end)).
Proof.
  unfold urls_to_scrape. intros Hin. apply in_app_or in Hin.
  destruct Hin as [Hin | Hin].
  - left. destruct (website_of brave_results) as [u |]; [| contradiction].
    destruct Hin as [-> | []]. reflexivity.
  - right. destruct (existing_website business) as [existing |];
      [| contradiction].
    destruct (Str.truthy existing); [| contradiction]. cbv zeta in Hin.
    destruct (Str.truthy (_extract_domain existing)) eqn:Hd;
      [| contradiction].
    destruct (String.eqb (_extract_domain existing) _) eqn:Hneq;
      [contradiction |].
    destruct Hin as [<- | []]. split; [reflexivity |].
    split; [exact Hd |]. now apply String.eqb_neq.
Qed.

Lemma store_each_fields normalize ctype sid bid url raws row :
  In row (fst (store_each normalize ctype sid bid url raws)) ->
  lc_search_id row = sid /\ lc_business_id row = bid
  /\ contact_type row = ctype /\ source_url row = url
  /\ In (raw_value row) raws
  /\ normalize (raw_value row) = Ret (normalized_value row, is_valid row).
Proof.
  induction raws as [| raw rest IH]; simpl; [contradiction |].
  destruct (normalize raw) as [[normalized valid] | e] eqn:Hn; simpl;
    [| contradiction].
  destruct (store_each normalize ctype sid bid url rest) as [rows r].
  simpl in *. intros [<- | Hin].
  - cbn. repeat split; try reflexivity; [now left | exact Hn].
  - destruct (IH Hin) as [H1 [H2 [H3 [H4 [H5 H6]]]]].
    repeat split; try assumption. now right.
Qed.

(** What a row of one scraped URL holds. *)
Definition row_of_contacts (sid bid url : string) (c : Scraper.contacts)
    (row : lead_contact) : Prop :=
  lc_search_id row = sid /\ lc_business_id row = bid /\ source_url row = url
  /\ ((contact_type row = "email" /\ In (raw_value row) (Scraper.emails c)
       /\ normalize_email (raw_value row)
          = Ret (normalized_value row, is_valid row))
      \/ (contact_type row = "phone" /\ In (raw_value row) (Scraper.phones c)
          /\ normalize_phone (raw_value row)
             = Ret (normalized_value row, is_valid row))
      \/ (contact_type row = "whatsapp"
          /\ In (raw_value row) (Scraper.whatsapps c)
          /\ normalize_whatsapp (raw_value row)
             = Ret (normalized_value row, is_valid row))).

Lemma rows_of_fields sid bid url c row :
  In row (rows_of sid bid url c) -> row_of_contacts sid bid url c row.
Proof.
  unfold rows_of, contact_rows, row_of_contacts.
  pose proof (@store_each_fields normalize_email "email" sid bid url
                (Scraper.emails c) row) as He.
  pose proof (@store_each_fields normalize_phone "phone" sid bid url
                (Scraper.phones c) row) as Hp.
  pose proof (@store_each_fields normalize_whatsapp "whatsapp" sid bid url
                (Scraper.whatsapps c) row) as Hw.
  destruct (store_each normalize_email _ _ _ _ _) as [es r1].
  destruct (store_each normalize_phone _ _ _ _ _) as [ps r2].
  simpl in He, Hp.
  assert (Hemail : In row es ->
    lc_search_id row = sid /\ lc_business_id row = bid /\ source_url row = url
    /\ ((contact_type row = "email" /\ In (raw_value row) (Scraper.emails c)
         /\ normalize_email (raw_value row)
            = Ret (normalized_value row, is_valid row))
        \/ (contact_type row = "phone" /\ In (raw_value row) (Scraper.phones c)
            /\ normalize_phone (raw_value row)
               = Ret (normalized_value row, is_valid row))
        \/ (contact_type row = "whatsapp"
            /\ In (raw_value row) (Scraper.whatsapps c)
            /\ normalize_whatsapp (raw_value row)
               = Ret (normalized_value row, is_valid row)))).
  { intros Hin. destruct (He Hin) as [H1 [H2 [H3 [H4 [H5 H6]]]]].
    split; [exact H1 |]. split; [exact H2 |]. split; [exact H4 |].
    left. now repeat split. }
  assert (Hphone : In row ps ->
    lc_search_id row = sid /\ lc_business_id row = bid /\ source_url row = url
    /\ ((contact_type row = "email" /\ In (raw_value row) (Scraper.emails c)
         /\ normalize_email (raw_value row)
            = Ret (normalized_value row, is_valid row))
        \/ (contact_type row = "phone" /\ In (raw_value row) (Scraper.phones c)
            /\ normalize_phone (raw_value row)
               = Ret (normalized_value row, is_valid row))
        \/ (contact_type row = "whatsapp"
            /\ In (raw_value row) (Scraper.whatsapps c)
            /\ normalize_whatsapp (raw_value row)
               = Ret (normalized_value row, is_valid row)))).
  { intros Hin. destruct (Hp Hin) as [H1 [H2 [H3 [H4 [H5 H6]]]]].
    split; [exact H1 |]. split; [exact H2 |]. split; [exact H4 |].
    right. left. now repeat split. }
  destruct r1 as [[] | e1]; [destruct r2 as [[] | e2] |]; intros Hin;
    repeat (apply in_app_or in Hin; destruct Hin as [Hin | Hin]); auto.
  destruct (Hw Hin) as [H1 [H2 [H3 [H4 [H5 H6]]]]].
  split; [exact H1 |]. split; [exact H2 |]. split; [exact H4 |].
  right. right. now repeat split.
Qed.

(** X20. One business costs at most one search and two scrapes, so the
    cap of three URLs never cuts: the URLs scraped are, in this order,
    the website the search found and the business's own website, the
    latter only when it has a host that differs from that of the former;
    all of them when the call returns.  Without a store nothing is
    called at all. *)
Theorem enrich_scrapes_at_most_two (sid : string) (business : Business)
    (s : effects) (r : outcome unit) (s' : effects) :
  enrich_single_business sid business s = (r, s') ->
  exists evs : list event,
    calls s' = calls s ++ evs
    /\ (supabase = false -> evs = [] /\ r = Ret tt)
    /\ (supabase = true ->
        searched evs = [(name business, locality business)])
    /\ List.length (scraped evs) <= 2
    /\ (forall brave_results w,
          search_business (name business) (locality business) (outside s)
          = (Ret brave_results, w) ->
          prefix (scraped evs) (urls_to_scrape business brave_results)
          /\ (supabase = true -> r = Ret tt ->
              scraped evs = urls_to_scrape business brave_results)
          /\ (forall url : string,
                In url (scraped evs) ->
                website_of brave_results = Some url
                \/ (existing_website business = Some url
                    /\ Str.truthy (_extract_domain url) = true
                    /\ _extract_domain url
                       <> _extract_domain
                            (match website_of brave_results with
                             | Some u => u
                             | None => ""
                             end)))).
Proof.
  intros Hrun. destruct supabase eqn:Hsup.
  - apply enrich_inv in Hrun; [| exact Hsup].
    destruct Hrun as [evs [Hc [Hsea Hcase]]].
    exists (Searched (name business) (locality business) :: evs).
    split; [exact Hc |]. split; [discriminate |].
    change (Searched (name business) (locality business) :: evs)
      with ([Searched (name business) (locality business)] ++ evs).
    rewrite searched_app, scraped_app, Hsea. cbn [app scraped searched flat_map].
    split; [now intros _ |].
    destruct (search_business (name business) (locality business) (outside s))
      as [[found | e] w0] eqn:Hsr; cbn [fst] in Hcase.
    + destruct Hcase as [_ [Hpre [_ [Hret _]]]].
      split.
      { apply prefix_length in Hpre.
        pose proof (urls_to_scrape_short business found). lia. }
      intros found' w Heq. inversion Heq; subst found' w0.
      split; [exact Hpre |].
      split; [intros _ Hr; now apply Hret |].
      intros url Hin. apply urls_to_scrape_In.
      eapply prefix_In; eassumption.
    + destruct Hcase as [_ ->]. cbn. split; [lia |].
      intros found' w Heq. discriminate Heq.
  - rewrite (enrich_no_store sid business s Hsup) in Hrun.
    inversion Hrun; subst. exists []. rewrite app_nil_r. cbn.
    split; [reflexivity |]. split; [now intros _ |].
    split; [discriminate |]. split; [lia |].
    intros found w _. split; [apply prefix_nil |].
    split; [discriminate | intros url []].
Qed.

(** X21. Every contact row upserted for a business carries the ids of
    the call and the URL of a page scraped in the same call; its raw
    value is one of the contacts that scrape returned, normalised by the
    normaliser of its type; and its confidence is [compute_confidence]
    of its type, validity and URL, hence at least 0.5. *)
Theorem upserted_rows_come_from_scrapes (sid : string) (business : Business)
    (s : effects) (r : outcome unit) (s' : effects) :
  enrich_single_business sid business s = (r, s') ->
  exists evs : list event,
    calls s' = calls s ++ evs
    /\ (forall row : lead_contact,
          In row (upserted evs) ->
          In (source_url row) (scraped evs)
          /\ confidence row
             = Normalizer.compute_confidence (contact_type row) (is_valid row)
                 (source_url row)
          /\ PrimFloat.leb 0.5%float (confidence row) = true
          /\ exists contacts w,
               fst (scrape_url (source_url row) w) = Ret contacts
               /\ row_of_contacts sid (id business) (source_url row)
                    contacts row).
Proof.
  intros Hrun. destruct supabase eqn:Hsup.
  - apply enrich_inv in Hrun; [| exact Hsup].
    destruct Hrun as [evs [Hc [Hsea Hcase]]].
    exists (Searched (name business) (locality business) :: evs).
    split; [exact Hc |].
    change (Searched (name business) (locality business) :: evs)
      with ([Searched (name business) (locality business)] ++ evs).
    rewrite upserted_app, scraped_app. cbn [app scraped upserted flat_map].
    destruct (fst (search_business (name business) (locality business)
                     (outside s))) as [found | e].
    + destruct Hcase as [_ [_ [Hups _]]]. intros row Hin.
      rewrite Forall_forall in Hups.
      destruct (Hups row Hin) as [url [contacts [w [Hurl [Hscr Hrow]]]]].
      pose proof (rows_of_fields _ _ _ _ _ Hrow) as Hfields.
      assert (Hsrc : source_url row = url) by apply Hfields.
      assert (Hconf : confidence row
                      = Normalizer.compute_confidence (contact_type row)
                          (is_valid row) (source_url row)).
      { exact (contact_rows_confidence _ _ _ _ _ _ _ _ Hrow). }
      rewrite Hsrc in *.
      split; [exact Hurl |]. split; [exact Hconf |].
      split; [rewrite Hconf; apply Normalizer.compute_confidence_at_least_base |].
      now exists contacts, w.
    + destruct Hcase as [_ ->]. intros row [].
  - rewrite (enrich_no_store sid business s Hsup) in Hrun.
    inversion Hrun; subst. exists []. rewrite app_nil_r.
    split; [reflexivity | intros row []].
Qed.

(** X22. What gets out of [enrich_single_business]: whatever the search
    raises, after which nothing else is called; and otherwise nothing
    that is an [Exception], unless the closing sleep raises it.  No
    failure of a scrape, a normaliser or the store that is an
    [Exception] leaves the call. *)
Theorem enrich_exception_sources (sid : string) (business : Business)
    (s : effects) (e : exn) (s' : effects) :
  enrich_single_business sid business s = (Raise e, s') ->
  supabase = true
  /\ ((fst (search_business (name business) (locality business) (outside s))
       = Raise e
       /\ calls s'
          = calls s ++ [Searched (name business) (locality business)])
      \/ is_Exception e = false
      \/ exists w, fst (sleep w) = Raise e).
Proof.
  intros Hrun. destruct supabase eqn:Hsup.
  - split; [reflexivity |].
    apply enrich_inv in Hrun; [| exact Hsup].
    destruct Hrun as [evs [Hc [Hsea Hcase]]].
    destruct (fst (search_business (name business) (locality business)
                     (outside s))) as [found | e0].
    + destruct Hcase as [_ [_ [_ [_ Hexn]]]]. right.
      destruct (is_Exception e) eqn:Hcls; [| now left].
      right. exact (Hexn e eq_refl Hcls).
    + destruct Hcase as [He ->]. inversion He; subst e0. left.
      split; [reflexivity | exact Hc].
  - rewrite (enrich_no_store sid business s Hsup) in Hrun. discriminate Hrun.
Qed.

(** X23. The source rows of a business are inserted in the order found:
    the website first, when the search found one, then one row per social
    URL, each with the domain of its own URL; a rejected insert does not
    stop the next, so a call that returns has inserted them all. *)
Theorem sources_inserted_in_order (sid : string) (business : Business)
    (s : effects) (r : outcome unit) (s' : effects)
    (brave_results : BraveSearch.found) (w : World) :
  supabase = true ->
  search_business (name business) (locality business) (outside s)
  = (Ret brave_results, w) ->
  enrich_single_business sid business s = (r, s') ->
  exists evs : list event,
    calls s' = calls s ++ evs
    /\ prefix (inserted evs) (source_rows sid business brave_results)
    /\ (r = Ret tt -> inserted evs = source_rows sid business brave_results)
    /\ (forall row : lead_source,
          In row (inserted evs) ->
          ls_search_id row = sid /\ ls_business_id row = id business
          /\ ls_domain row = _extract_domain (ls_url row)
          /\ ((source_type row = "website"
               /\ website_of brave_results = Some (ls_url row))
              \/ exists social,
                   In social (BraveSearch.social_urls brave_results)
                   /\ source_type row = BraveSearch.type social
                   /\ ls_url row = BraveSearch.url social)).
Proof.
  intros Hsup Hsr Hrun. apply enrich_inv in Hrun; [| exact Hsup].
  destruct Hrun as [evs [Hc [Hsea Hcase]]]. rewrite Hsr in Hcase.
  cbn [fst] in Hcase. destruct Hcase as [Hpre [_ [_ [Hret _]]]].
  exists (Searched (name business) (locality business) :: evs).
  split; [exact Hc |].
  change (Searched (name business) (locality business) :: evs)
    with ([Searched (name business) (locality business)] ++ evs).
  rewrite inserted_app. cbn [app inserted flat_map].
  split; [exact Hpre |]. split; [intros Hr; now apply Hret |].
  intros row Hin. apply (@prefix_In _ _ _ row Hpre) in Hin.
  unfold source_rows in Hin.
  apply in_app_or in Hin. destruct Hin as [Hin | Hin].
  - destruct (website_of brave_results) as [u |]; [| contradiction].
    destruct Hin as [<- | []]. cbn. repeat split. now left.
  - apply in_map_iff in Hin. destruct Hin as [social [<- Hin]]. cbn.
    repeat split. right. now exists social.
Qed.

End Enrich.
(** *** One business, run *)

(** A business whose own website is on another host than the one the
    search finds. *)
Definition farola : Business :=
  {| id := "b1"; name := "La Farola"; locality := "Belgrano";
     provincia := None;
     existing_website := Some "https://lafarola.negocio.site/";
     existing_phone := None; existing_email := None |}.

(** The world counts the calls made. *)
Definition farola_search (n l : string) (w : nat)
  : outcome BraveSearch.found * nat := (Ret BraveSearch.toy_found, S w).

Definition farola_scrape (url : string) (w : nat)
  : outcome Scraper.contacts * nat :=
  if String.eqb url "https://lafarola.com.ar/"
  then (Ret {| Scraper.emails := ["Reservas@LaFarola.com.ar"];
               Scraper.phones := ["45678900"];
               Scraper.whatsapps := [] |}, S w)
  else (Raise (Exception_ "ConnectTimeout"), S w).

(** The store rejects the sources and accepts the contacts. *)
Definition farola_insert (row : lead_source) (w : nat)
  : outcome unit * nat := (Raise (Exception_ "APIError"), S w).

Definition farola_upsert (row : lead_contact) (w : nat)
  : outcome unit * nat := (Ret tt, S w).

Definition farola_sleep (w : nat) : outcome unit * nat := (Ret tt, S w).

Definition farola_start : effects nat := {| outside := 0; calls := [] |}.

Definition farola_run : outcome unit * effects nat :=
  enrich_single_business true BraveSearch.toy_urlparse farola_search
    farola_scrape farola_sleep farola_insert farola_upsert
    (fun raw => Ret (Str.lower raw, true))
    (fun raw => Ret (String.append "+5411" raw, true))
    (fun raw => Ret (raw, false))
    "run-1" farola farola_start.

Example farola_calls :
  fst farola_run = Ret tt
  /\ outside (snd farola_run) = 8
  /\ searched (calls (snd farola_run)) = [("La Farola", "Belgrano")]
  /\ map source_type (inserted (calls (snd farola_run)))
     = ["website"; "instagram"]
  /\ scraped (calls (snd farola_run))
     = ["https://lafarola.com.ar/"; "https://lafarola.negocio.site/"]
  /\ map (fun row => (contact_type row, normalized_value row, confidence row))
       (upserted (calls (snd farola_run)))
     = [ ("email", "reservas@lafarola.com.ar", 0.8%float);
         ("phone", "+541145678900", 0.8%float) ].
Proof. vm_compute. repeat split. Qed.

Lemma enrich_scrapes_at_most_two_witness :
  farola_run = (fst farola_run, snd farola_run)
  /\ exists evs : list event,
       calls (snd farola_run) = calls farola_start ++ evs
       /\ searched evs = [("La Farola", "Belgrano")]
       /\ List.length (scraped evs) <= 2
       /\ scraped evs
          = urls_to_scrape BraveSearch.toy_urlparse farola BraveSearch.toy_found.
Proof.
  split; [reflexivity |].
  destruct (@enrich_scrapes_at_most_two nat true BraveSearch.toy_urlparse
              farola_search farola_scrape farola_sleep farola_insert
              farola_upsert
              (fun raw => Ret (Str.lower raw, true))
              (fun raw => Ret (String.append "+5411" raw, true))
              (fun raw => Ret (raw, false))
              "run-1" farola farola_start (fst farola_run) (snd farola_run)
              eq_refl)
    as [evs [Hc [_ [Hsea [Hlen Hfound]]]]].
  exists evs. split; [exact Hc |]. split; [exact (Hsea eq_refl) |].
  split; [exact Hlen |].
  destruct (Hfound BraveSearch.toy_found 1 eq_refl) as [_ [Hall _]].
  exact (Hall eq_refl eq_refl).
Defined.

Lemma upserted_rows_come_from_scrapes_witness :
  farola_run = (fst farola_run, snd farola_run)
  /\ exists evs : list event,
       calls (snd farola_run) = calls farola_start ++ evs
       /\ Forall
            (fun row =>
               In (source_url row) (scraped evs)
               /\ PrimFloat.leb 0.5%float (confidence row) = true)
            (upserted evs).
Proof.
  split; [reflexivity |].
  destruct (@upserted_rows_come_from_scrapes nat true BraveSearch.toy_urlparse
              farola_search farola_scrape farola_sleep farola_insert
              farola_upsert
              (fun raw => Ret (Str.lower raw, true))
              (fun raw => Ret (String.append "+5411" raw, true))
              (fun raw => Ret (raw, false))
              "run-1" farola farola_start (fst farola_run) (snd farola_run)
              eq_refl)
    as [evs [Hc Hrows]].
  exists evs. split; [exact Hc |]. apply Forall_forall. intros row Hin.
  destruct (Hrows row Hin) as [Hurl [_ [Hconf _]]]. now split.
Defined.

(** The same business when the search times out. *)
Definition farola_search_down : outcome unit * effects nat :=
  enrich_single_business true BraveSearch.toy_urlparse
    (fun _ _ w => (Raise (Exception_ "TimeoutError"), S w))
    farola_scrape farola_sleep farola_insert farola_upsert
    (fun raw => Ret (Str.lower raw, true))
    (fun raw => Ret (String.append "+5411" raw, true))
    (fun raw => Ret (raw, false))
    "run-1" farola farola_start.

Lemma enrich_exception_sources_witness :
  farola_search_down
  = (Raise (Exception_ "TimeoutError"), snd farola_search_down)
  /\ true = true
  /\ ((Raise (Exception_ "TimeoutError")
       = Raise (A := BraveSearch.found) (Exception_ "TimeoutError")
       /\ calls (snd farola_search_down)
          = calls farola_start ++ [Searched "La Farola" "Belgrano"])
      \/ is_Exception (Exception_ "TimeoutError") = false
      \/ exists w, fst (farola_sleep w) = Raise (Exception_ "TimeoutError")).
Proof.
  split; [reflexivity |].
  exact (@enrich_exception_sources nat true BraveSearch.toy_urlparse
           (fun _ _ w => (Raise (Exception_ "TimeoutError"), S w))
           farola_scrape farola_sleep farola_insert farola_upsert
           (fun raw => Ret (Str.lower raw, true))
           (fun raw => Ret (String.append "+5411" raw, true))
           (fun raw => Ret (raw, false))
           "run-1" farola farola_start (Exception_ "TimeoutError")
           (snd farola_search_down) eq_refl).
Defined.

Lemma sources_inserted_in_order_witness :
  farola_run = (Ret tt, snd farola_run)
  /\ exists evs : list event,
       calls (snd farola_run) = calls farola_start ++ evs
       /\ inserted evs
          = source_rows BraveSearch.toy_urlparse "run-1" farola
              BraveSearch.toy_found
       /\ map ls_domain (inserted evs) = ["lafarola.com.ar"; "instagram.com"].
Proof.
  split; [reflexivity |].
  destruct (@sources_inserted_in_order nat true BraveSearch.toy_urlparse
              farola_search farola_scrape farola_sleep farola_insert
              farola_upsert
              (fun raw => Ret (Str.lower raw, true))
              (fun raw => Ret (String.append "+5411" raw, true))
              (fun raw => Ret (raw, false))
              "run-1" farola farola_start (Ret tt) (snd farola_run)
              BraveSearch.toy_found 1 eq_refl eq_refl eq_refl)
    as [evs [Hc [_ [Hall _]]]].
  exists evs. split; [exact Hc |]. rewrite (Hall eq_refl).
  split; reflexivity.
Defined.

(** *** The worker without a store *)

Section DryRun.

Variable World : Type.
Variable urlparse : string -> BraveSearch.parsed_url.
Variable search_business :
  string -> string -> World -> outcome BraveSearch.found * World.
Variable scrape_url : string -> World -> outcome Scraper.contacts * World.
Variable sleep : World -> outcome unit * World.
Variable insert_source : lead_source -> World -> outcome unit * World.
Variable upsert_contact : lead_contact -> World -> outcome unit * World.
Variable normalize_email : string -> outcome (string * bool).
Variable normalize_phone : string -> outcome (string * bool).
Variable normalize_whatsapp : string -> outcome (string * bool).

(** The job store and the callback see the same world as the calls of
    the businesses. *)
Variable execute :
  Z -> job_update -> effects World -> outcome unit * effects World.
Variable post : callback -> effects World -> outcome unit * effects World.
Variable now_iso : effects World -> string.

(** [process_enrichment] over [enrich_single_business], for a given
    [supabase]. *)
Definition worker (supabase : bool) (request : EnrichRequest)
  : M (effects World) unit :=
  process_enrichment supabase
    (enrich_single_business supabase urlparse search_business scrape_url sleep
       insert_source upsert_contact normalize_email normalize_phone
       normalize_whatsapp)
    execute post now_iso request.

Lemma for_businesses_without_store jid sid bs : forall w j p n,
  for_businesses false
    (enrich_single_business false urlparse search_business scrape_url sleep
       insert_source upsert_contact normalize_email normalize_phone
       normalize_whatsapp)
    execute jid sid bs
    {| world := w; job := j; posted := p; processed := n |}
  = (Ret tt,
     {| world := w; job := j; posted := p;
        processed := n + List.length bs |}).
Proof.
  induction bs as [| business rest IH]; intros w j p n.
  - cbn. now rewrite Nat.add_0_r.
  - cbn [for_businesses]. unfold seq at 1, try_M, call_enrich.
    cbn [world]. rewrite enrich_no_store by reflexivity.
    unfold seq at 1, incr_processed, set_processed.
    cbn [world job posted processed].
    unfold seq at 1, if_supabase, ret. rewrite IH.
    cbn [List.length with_world world job posted processed].
    do 2 f_equal. lia.
Qed.

(** X24. Without a store the worker enriches nothing and still reports
    success: no search, scrape or insert is made for any business, so the
    world reaches the callback as it was at the start; the job's row is
    not written; and the one callback posted says [done] with [processed]
    equal to the number of businesses. *)
Theorem no_store_no_work (request : EnrichRequest)
    (s : state (effects World)) :
  exists r : outcome unit,
    worker false request s
    = (r,
       {| world := snd (post (done_callback request) (world s));
          job := job s;
          posted := posted s ++ [done_callback request];
          processed := List.length (businesses request) |})
    /\ (r = Ret tt
        \/ exists e,
             r = Raise e /\ is_Exception e = false
             /\ fst (post (done_callback request) (world s)) = Raise e).
Proof.
  destruct s as [w j p n]. unfold worker, process_enrichment. cbv zeta.
  unfold seq at 1, set_processed. cbn [world job posted processed].
  unfold try_M, attempt. cbv zeta. unfold seq at 1.
  rewrite for_businesses_without_store. cbn [Nat.add].
  unfold seq at 1, if_supabase, ret, send_callback.
  cbn [world job posted processed]. fold (done_callback request).
  destruct (post (done_callback request) w) as [[[] | e] w'].
  - eexists. split; [reflexivity | now left].
  - destruct (is_Exception e) eqn:Hcls.
    + eexists. split; [reflexivity | now left].
    + rewrite Hcls. eexists. split; [reflexivity |]. right. now exists e.
Qed.

End DryRun.

End Main.
